(** * Retrieval engine of the chatbot backend ([backend/main.py])

    A shallow embedding of the knowledge-base loader, the chunker, the keyword
    extractor, the scorer and the decision policy, followed by the properties
    the specification states about them.

    Conventions of the embedding.
    - A Python [str] is a list of Unicode code points ([N]); [str.lower]
      follows the case tables of the Unicode character database, with the
      rule for the final sigma.
    - Python floats (scores, modification times) are rationals ([Q]); the
      additions and subtractions that build a score round to the nearest
      binary64 number ([fl64]), as CPython's [float] does.
    - JSON data and Python values are the inductive [pyval]; a [dict] is an
      association list read through [get].
    - Module-level globals ([KB], [UI], [MTIME]) are a record threaded through
      a state-and-exception monad; a raised exception keeps the globals as
      they were at the point of the raise.
    - Library code the program calls but does not define is a parameter:
      the two [rapidfuzz] ratios, CPython's [repr] of floats and containers,
      and the file system together with the JSON parser (the [world]). *)

From Stdlib Require Import Ascii String DecimalString DecimalZ DecimalPos.
From Stdlib Require Import List NArith ZArith QArith Qminmax Qround Qpower.
From Stdlib Require Import Bool Lia.
From Stdlib Require Import Lqa Permutation.
Import ListNotations.

Set Implicit Arguments.
Set Warnings "-register-all".
Local Open Scope N_scope.

(* ================================================================== *)
(** * Text: Python [str] as code points *)
(* ================================================================== *)

Definition str := list N.

Module Utf8.
(** String literals of the source are written as Rocq strings (UTF-8
    bytes) and decoded to code points. *)

Definition bytes (s : string) : list N :=
  List.map N_of_ascii (list_ascii_of_string s).

Fixpoint decode (bs : list N) : str :=
  match bs with
  | [] => []
  | b1 :: r1 =>
    if b1 <? 128 then b1 :: decode r1
    else match r1 with
    | [] => []
    | b2 :: r2 =>
      if b1 <? 224 then ((b1 - 192) * 64 + (b2 - 128)) :: decode r2
      else match r2 with
      | [] => []
      | b3 :: r3 =>
        if b1 <? 240
        then ((b1 - 224) * 4096 + (b2 - 128) * 64 + (b3 - 128)) :: decode r3
        else match r3 with
        | [] => []
        | b4 :: r4 =>
          ((b1 - 240) * 262144 + (b2 - 128) * 4096
           + (b3 - 128) * 64 + (b4 - 128)) :: decode r4
        end
      end
    end
  end.
End Utf8.

Definition lit (s : string) : str := Utf8.decode (Utf8.bytes s).

Definition NL : N := 10.
Definition CR : N := 13.
Definition SP : N := 32.

Definition str_eqb (a b : str) : bool :=
  if list_eq_dec N.eq_dec a b then true else false.

Definition is_empty (s : str) : bool :=
  match s with [] => true | _ => false end.

Definition in_range (lo hi c : N) : bool := (lo <=? c) && (c <=? hi).

(** [str.strip()] without argument removes the code points CPython
    classifies as whitespace ([_PyUnicode_IsWhitespace]). *)
Definition is_space (c : N) : bool :=
  in_range 0x09 0x0D c || in_range 0x1C 0x20 c
  || (c =? 0x85) || (c =? 0xA0) || (c =? 0x1680)
  || in_range 0x2000 0x200A c
  || (c =? 0x2028) || (c =? 0x2029) || (c =? 0x202F)
  || (c =? 0x205F) || (c =? 0x3000).

Fixpoint lstrip (s : str) : str :=
  match s with
  | [] => []
  | c :: r => if is_space c then lstrip r else s
  end.

Definition rstrip (s : str) : str := rev (lstrip (rev s)).

Definition strip (s : str) : str := rstrip (lstrip s).

(** ** Case mapping: [str.lower()]

    CPython lowers a string code point by code point with the lower-case
    mapping of the Unicode character database it is built with; the tables
    below are those of Unicode 14.0.  A run [(first, last, step, target)]
    maps [first], [first + step], ... up to [last] to [target],
    [target + step], ...; a code point outside every run is its own
    lower-case form.  U+0130 is the one code point whose lower-case form has
    two code points, and capital sigma the one code point whose lower-case
    form depends on its neighbours. *)

(** The simple lower-case mappings. *)
Definition lower_runs : list (N * N * N * N) :=
  [
    (0x41, 0x5A, 1, 0x61); (0xC0, 0xD6, 1, 0xE0); (0xD8, 0xDE, 1, 0xF8);
    (0x100, 0x12E, 2, 0x101); (0x132, 0x136, 2, 0x133);
    (0x139, 0x147, 2, 0x13A); (0x14A, 0x176, 2, 0x14B);
    (0x178, 0x178, 1, 0xFF); (0x179, 0x17D, 2, 0x17A);
    (0x181, 0x181, 1, 0x253); (0x182, 0x184, 2, 0x183);
    (0x186, 0x186, 1, 0x254); (0x187, 0x187, 1, 0x188);
    (0x189, 0x18A, 1, 0x256); (0x18B, 0x18B, 1, 0x18C);
    (0x18E, 0x18E, 1, 0x1DD); (0x18F, 0x18F, 1, 0x259);
    (0x190, 0x190, 1, 0x25B); (0x191, 0x191, 1, 0x192);
    (0x193, 0x193, 1, 0x260); (0x194, 0x194, 1, 0x263);
    (0x196, 0x196, 1, 0x269); (0x197, 0x197, 1, 0x268);
    (0x198, 0x198, 1, 0x199); (0x19C, 0x19C, 1, 0x26F);
    (0x19D, 0x19D, 1, 0x272); (0x19F, 0x19F, 1, 0x275);
    (0x1A0, 0x1A4, 2, 0x1A1); (0x1A6, 0x1A6, 1, 0x280);
    (0x1A7, 0x1A7, 1, 0x1A8); (0x1A9, 0x1A9, 1, 0x283);
    (0x1AC, 0x1AC, 1, 0x1AD); (0x1AE, 0x1AE, 1, 0x288);
    (0x1AF, 0x1AF, 1, 0x1B0); (0x1B1, 0x1B2, 1, 0x28A);
    (0x1B3, 0x1B5, 2, 0x1B4); (0x1B7, 0x1B7, 1, 0x292);
    (0x1B8, 0x1B8, 1, 0x1B9); (0x1BC, 0x1BC, 1, 0x1BD);
    (0x1C4, 0x1C4, 1, 0x1C6); (0x1C5, 0x1C5, 1, 0x1C6);
    (0x1C7, 0x1C7, 1, 0x1C9); (0x1C8, 0x1C8, 1, 0x1C9);
    (0x1CA, 0x1CA, 1, 0x1CC); (0x1CB, 0x1DB, 2, 0x1CC);
    (0x1DE, 0x1EE, 2, 0x1DF); (0x1F1, 0x1F1, 1, 0x1F3);
    (0x1F2, 0x1F4, 2, 0x1F3); (0x1F6, 0x1F6, 1, 0x195);
    (0x1F7, 0x1F7, 1, 0x1BF); (0x1F8, 0x21E, 2, 0x1F9);
    (0x220, 0x220, 1, 0x19E); (0x222, 0x232, 2, 0x223);
    (0x23A, 0x23A, 1, 0x2C65); (0x23B, 0x23B, 1, 0x23C);
    (0x23D, 0x23D, 1, 0x19A); (0x23E, 0x23E, 1, 0x2C66);
    (0x241, 0x241, 1, 0x242); (0x243, 0x243, 1, 0x180);
    (0x244, 0x244, 1, 0x289); (0x245, 0x245, 1, 0x28C);
    (0x246, 0x24E, 2, 0x247); (0x370, 0x372, 2, 0x371);
    (0x376, 0x376, 1, 0x377); (0x37F, 0x37F, 1, 0x3F3);
    (0x386, 0x386, 1, 0x3AC); (0x388, 0x38A, 1, 0x3AD);
    (0x38C, 0x38C, 1, 0x3CC); (0x38E, 0x38F, 1, 0x3CD);
    (0x391, 0x3A1, 1, 0x3B1); (0x3A3, 0x3AB, 1, 0x3C3);
    (0x3CF, 0x3CF, 1, 0x3D7); (0x3D8, 0x3EE, 2, 0x3D9);
    (0x3F4, 0x3F4, 1, 0x3B8); (0x3F7, 0x3F7, 1, 0x3F8);
    (0x3F9, 0x3F9, 1, 0x3F2); (0x3FA, 0x3FA, 1, 0x3FB);
    (0x3FD, 0x3FF, 1, 0x37B); (0x400, 0x40F, 1, 0x450);
    (0x410, 0x42F, 1, 0x430); (0x460, 0x480, 2, 0x461);
    (0x48A, 0x4BE, 2, 0x48B); (0x4C0, 0x4C0, 1, 0x4CF);
    (0x4C1, 0x4CD, 2, 0x4C2); (0x4D0, 0x52E, 2, 0x4D1);
    (0x531, 0x556, 1, 0x561); (0x10A0, 0x10C5, 1, 0x2D00);
    (0x10C7, 0x10C7, 1, 0x2D27); (0x10CD, 0x10CD, 1, 0x2D2D);
    (0x13A0, 0x13EF, 1, 0xAB70); (0x13F0, 0x13F5, 1, 0x13F8);
    (0x1C90, 0x1CBA, 1, 0x10D0); (0x1CBD, 0x1CBF, 1, 0x10FD);
    (0x1E00, 0x1E94, 2, 0x1E01); (0x1E9E, 0x1E9E, 1, 0xDF);
    (0x1EA0, 0x1EFE, 2, 0x1EA1); (0x1F08, 0x1F0F, 1, 0x1F00);
    (0x1F18, 0x1F1D, 1, 0x1F10); (0x1F28, 0x1F2F, 1, 0x1F20);
    (0x1F38, 0x1F3F, 1, 0x1F30); (0x1F48, 0x1F4D, 1, 0x1F40);
    (0x1F59, 0x1F5F, 2, 0x1F51); (0x1F68, 0x1F6F, 1, 0x1F60);
    (0x1F88, 0x1F8F, 1, 0x1F80); (0x1F98, 0x1F9F, 1, 0x1F90);
    (0x1FA8, 0x1FAF, 1, 0x1FA0); (0x1FB8, 0x1FB9, 1, 0x1FB0);
    (0x1FBA, 0x1FBB, 1, 0x1F70); (0x1FBC, 0x1FBC, 1, 0x1FB3);
    (0x1FC8, 0x1FCB, 1, 0x1F72); (0x1FCC, 0x1FCC, 1, 0x1FC3);
    (0x1FD8, 0x1FD9, 1, 0x1FD0); (0x1FDA, 0x1FDB, 1, 0x1F76);
    (0x1FE8, 0x1FE9, 1, 0x1FE0); (0x1FEA, 0x1FEB, 1, 0x1F7A);
    (0x1FEC, 0x1FEC, 1, 0x1FE5); (0x1FF8, 0x1FF9, 1, 0x1F78);
    (0x1FFA, 0x1FFB, 1, 0x1F7C); (0x1FFC, 0x1FFC, 1, 0x1FF3);
    (0x2126, 0x2126, 1, 0x3C9); (0x212A, 0x212A, 1, 0x6B);
    (0x212B, 0x212B, 1, 0xE5); (0x2132, 0x2132, 1, 0x214E);
    (0x2160, 0x216F, 1, 0x2170); (0x2183, 0x2183, 1, 0x2184);
    (0x24B6, 0x24CF, 1, 0x24D0); (0x2C00, 0x2C2F, 1, 0x2C30);
    (0x2C60, 0x2C60, 1, 0x2C61); (0x2C62, 0x2C62, 1, 0x26B);
    (0x2C63, 0x2C63, 1, 0x1D7D); (0x2C64, 0x2C64, 1, 0x27D);
    (0x2C67, 0x2C6B, 2, 0x2C68); (0x2C6D, 0x2C6D, 1, 0x251);
    (0x2C6E, 0x2C6E, 1, 0x271); (0x2C6F, 0x2C6F, 1, 0x250);
    (0x2C70, 0x2C70, 1, 0x252); (0x2C72, 0x2C72, 1, 0x2C73);
    (0x2C75, 0x2C75, 1, 0x2C76); (0x2C7E, 0x2C7F, 1, 0x23F);
    (0x2C80, 0x2CE2, 2, 0x2C81); (0x2CEB, 0x2CED, 2, 0x2CEC);
    (0x2CF2, 0x2CF2, 1, 0x2CF3); (0xA640, 0xA66C, 2, 0xA641);
    (0xA680, 0xA69A, 2, 0xA681); (0xA722, 0xA72E, 2, 0xA723);
    (0xA732, 0xA76E, 2, 0xA733); (0xA779, 0xA77B, 2, 0xA77A);
    (0xA77D, 0xA77D, 1, 0x1D79); (0xA77E, 0xA786, 2, 0xA77F);
    (0xA78B, 0xA78B, 1, 0xA78C); (0xA78D, 0xA78D, 1, 0x265);
    (0xA790, 0xA792, 2, 0xA791); (0xA796, 0xA7A8, 2, 0xA797);
    (0xA7AA, 0xA7AA, 1, 0x266); (0xA7AB, 0xA7AB, 1, 0x25C);
    (0xA7AC, 0xA7AC, 1, 0x261); (0xA7AD, 0xA7AD, 1, 0x26C);
    (0xA7AE, 0xA7AE, 1, 0x26A); (0xA7B0, 0xA7B0, 1, 0x29E);
    (0xA7B1, 0xA7B1, 1, 0x287); (0xA7B2, 0xA7B2, 1, 0x29D);
    (0xA7B3, 0xA7B3, 1, 0xAB53); (0xA7B4, 0xA7C2, 2, 0xA7B5);
    (0xA7C4, 0xA7C4, 1, 0xA794); (0xA7C5, 0xA7C5, 1, 0x282);
    (0xA7C6, 0xA7C6, 1, 0x1D8E); (0xA7C7, 0xA7C9, 2, 0xA7C8);
    (0xA7D0, 0xA7D0, 1, 0xA7D1); (0xA7D6, 0xA7D8, 2, 0xA7D7);
    (0xA7F5, 0xA7F5, 1, 0xA7F6); (0xFF21, 0xFF3A, 1, 0xFF41);
    (0x10400, 0x10427, 1, 0x10428); (0x104B0, 0x104D3, 1, 0x104D8);
    (0x10570, 0x10594, 2, 0x10597); (0x10571, 0x10579, 2, 0x10598);
    (0x1057D, 0x10589, 2, 0x105A4); (0x1058D, 0x10591, 2, 0x105B4);
    (0x10595, 0x10595, 1, 0x105BC); (0x10C80, 0x10CB2, 1, 0x10CC0);
    (0x118A0, 0x118BF, 1, 0x118C0); (0x16E40, 0x16E5F, 1, 0x16E60);
    (0x1E900, 0x1E921, 1, 0x1E922) ].

(** The code points with the property [Cased]. *)
Definition cased_ranges : list (N * N) :=
  [
    (0x41, 0x5A); (0x61, 0x7A); (0xAA, 0xAA); (0xB5, 0xB5); (0xBA, 0xBA);
    (0xC0, 0xD6); (0xD8, 0xF6); (0xF8, 0x1BA); (0x1BC, 0x1BF); (0x1C4, 0x293);
    (0x295, 0x2B8); (0x2C0, 0x2C1); (0x2E0, 0x2E4); (0x345, 0x345);
    (0x370, 0x373); (0x376, 0x377); (0x37A, 0x37D); (0x37F, 0x37F);
    (0x386, 0x386); (0x388, 0x38A); (0x38C, 0x38C); (0x38E, 0x3A1);
    (0x3A3, 0x3F5); (0x3F7, 0x481); (0x48A, 0x52F); (0x531, 0x556);
    (0x560, 0x588); (0x10A0, 0x10C5); (0x10C7, 0x10C7); (0x10CD, 0x10CD);
    (0x10D0, 0x10FA); (0x10FD, 0x10FF); (0x13A0, 0x13F5); (0x13F8, 0x13FD);
    (0x1C80, 0x1C88); (0x1C90, 0x1CBA); (0x1CBD, 0x1CBF); (0x1D00, 0x1DBF);
    (0x1E00, 0x1F15); (0x1F18, 0x1F1D); (0x1F20, 0x1F45); (0x1F48, 0x1F4D);
    (0x1F50, 0x1F57); (0x1F59, 0x1F59); (0x1F5B, 0x1F5B); (0x1F5D, 0x1F5D);
    (0x1F5F, 0x1F7D); (0x1F80, 0x1FB4); (0x1FB6, 0x1FBC); (0x1FBE, 0x1FBE);
    (0x1FC2, 0x1FC4); (0x1FC6, 0x1FCC); (0x1FD0, 0x1FD3); (0x1FD6, 0x1FDB);
    (0x1FE0, 0x1FEC); (0x1FF2, 0x1FF4); (0x1FF6, 0x1FFC); (0x2071, 0x2071);
    (0x207F, 0x207F); (0x2090, 0x209C); (0x2102, 0x2102); (0x2107, 0x2107);
    (0x210A, 0x2113); (0x2115, 0x2115); (0x2119, 0x211D); (0x2124, 0x2124);
    (0x2126, 0x2126); (0x2128, 0x2128); (0x212A, 0x212D); (0x212F, 0x2134);
    (0x2139, 0x2139); (0x213C, 0x213F); (0x2145, 0x2149); (0x214E, 0x214E);
    (0x2160, 0x217F); (0x2183, 0x2184); (0x24B6, 0x24E9); (0x2C00, 0x2CE4);
    (0x2CEB, 0x2CEE); (0x2CF2, 0x2CF3); (0x2D00, 0x2D25); (0x2D27, 0x2D27);
    (0x2D2D, 0x2D2D); (0xA640, 0xA66D); (0xA680, 0xA69D); (0xA722, 0xA787);
    (0xA78B, 0xA78E); (0xA790, 0xA7CA); (0xA7D0, 0xA7D1); (0xA7D3, 0xA7D3);
    (0xA7D5, 0xA7D9); (0xA7F5, 0xA7F6); (0xA7F8, 0xA7FA); (0xAB30, 0xAB5A);
    (0xAB5C, 0xAB68); (0xAB70, 0xABBF); (0xFB00, 0xFB06); (0xFB13, 0xFB17);
    (0xFF21, 0xFF3A); (0xFF41, 0xFF5A); (0x10400, 0x1044F);
    (0x104B0, 0x104D3); (0x104D8, 0x104FB); (0x10570, 0x1057A);
    (0x1057C, 0x1058A); (0x1058C, 0x10592); (0x10594, 0x10595);
    (0x10597, 0x105A1); (0x105A3, 0x105B1); (0x105B3, 0x105B9);
    (0x105BB, 0x105BC); (0x10780, 0x10780); (0x10783, 0x10785);
    (0x10787, 0x107B0); (0x107B2, 0x107BA); (0x10C80, 0x10CB2);
    (0x10CC0, 0x10CF2); (0x118A0, 0x118DF); (0x16E40, 0x16E7F);
    (0x1D400, 0x1D454); (0x1D456, 0x1D49C); (0x1D49E, 0x1D49F);
    (0x1D4A2, 0x1D4A2); (0x1D4A5, 0x1D4A6); (0x1D4A9, 0x1D4AC);
    (0x1D4AE, 0x1D4B9); (0x1D4BB, 0x1D4BB); (0x1D4BD, 0x1D4C3);
    (0x1D4C5, 0x1D505); (0x1D507, 0x1D50A); (0x1D50D, 0x1D514);
    (0x1D516, 0x1D51C); (0x1D51E, 0x1D539); (0x1D53B, 0x1D53E);
    (0x1D540, 0x1D544); (0x1D546, 0x1D546); (0x1D54A, 0x1D550);
    (0x1D552, 0x1D6A5); (0x1D6A8, 0x1D6C0); (0x1D6C2, 0x1D6DA);
    (0x1D6DC, 0x1D6FA); (0x1D6FC, 0x1D714); (0x1D716, 0x1D734);
    (0x1D736, 0x1D74E); (0x1D750, 0x1D76E); (0x1D770, 0x1D788);
    (0x1D78A, 0x1D7A8); (0x1D7AA, 0x1D7C2); (0x1D7C4, 0x1D7CB);
    (0x1DF00, 0x1DF09); (0x1DF0B, 0x1DF1E); (0x1E900, 0x1E943);
    (0x1F130, 0x1F149); (0x1F150, 0x1F169); (0x1F170, 0x1F189) ].

(** The code points with the property [Case_Ignorable]. *)
Definition case_ignorable_ranges : list (N * N) :=
  [
    (0x27, 0x27); (0x2E, 0x2E); (0x3A, 0x3A); (0x5E, 0x5E); (0x60, 0x60);
    (0xA8, 0xA8); (0xAD, 0xAD); (0xAF, 0xAF); (0xB4, 0xB4); (0xB7, 0xB8);
    (0x2B0, 0x36F); (0x374, 0x375); (0x37A, 0x37A); (0x384, 0x385);
    (0x387, 0x387); (0x483, 0x489); (0x559, 0x559); (0x55F, 0x55F);
    (0x591, 0x5BD); (0x5BF, 0x5BF); (0x5C1, 0x5C2); (0x5C4, 0x5C5);
    (0x5C7, 0x5C7); (0x5F4, 0x5F4); (0x600, 0x605); (0x610, 0x61A);
    (0x61C, 0x61C); (0x640, 0x640); (0x64B, 0x65F); (0x670, 0x670);
    (0x6D6, 0x6DD); (0x6DF, 0x6E8); (0x6EA, 0x6ED); (0x70F, 0x70F);
    (0x711, 0x711); (0x730, 0x74A); (0x7A6, 0x7B0); (0x7EB, 0x7F5);
    (0x7FA, 0x7FA); (0x7FD, 0x7FD); (0x816, 0x82D); (0x859, 0x85B);
    (0x888, 0x888); (0x890, 0x891); (0x898, 0x89F); (0x8C9, 0x902);
    (0x93A, 0x93A); (0x93C, 0x93C); (0x941, 0x948); (0x94D, 0x94D);
    (0x951, 0x957); (0x962, 0x963); (0x971, 0x971); (0x981, 0x981);
    (0x9BC, 0x9BC); (0x9C1, 0x9C4); (0x9CD, 0x9CD); (0x9E2, 0x9E3);
    (0x9FE, 0x9FE); (0xA01, 0xA02); (0xA3C, 0xA3C); (0xA41, 0xA42);
    (0xA47, 0xA48); (0xA4B, 0xA4D); (0xA51, 0xA51); (0xA70, 0xA71);
    (0xA75, 0xA75); (0xA81, 0xA82); (0xABC, 0xABC); (0xAC1, 0xAC5);
    (0xAC7, 0xAC8); (0xACD, 0xACD); (0xAE2, 0xAE3); (0xAFA, 0xAFF);
    (0xB01, 0xB01); (0xB3C, 0xB3C); (0xB3F, 0xB3F); (0xB41, 0xB44);
    (0xB4D, 0xB4D); (0xB55, 0xB56); (0xB62, 0xB63); (0xB82, 0xB82);
    (0xBC0, 0xBC0); (0xBCD, 0xBCD); (0xC00, 0xC00); (0xC04, 0xC04);
    (0xC3C, 0xC3C); (0xC3E, 0xC40); (0xC46, 0xC48); (0xC4A, 0xC4D);
    (0xC55, 0xC56); (0xC62, 0xC63); (0xC81, 0xC81); (0xCBC, 0xCBC);
    (0xCBF, 0xCBF); (0xCC6, 0xCC6); (0xCCC, 0xCCD); (0xCE2, 0xCE3);
    (0xD00, 0xD01); (0xD3B, 0xD3C); (0xD41, 0xD44); (0xD4D, 0xD4D);
    (0xD62, 0xD63); (0xD81, 0xD81); (0xDCA, 0xDCA); (0xDD2, 0xDD4);
    (0xDD6, 0xDD6); (0xE31, 0xE31); (0xE34, 0xE3A); (0xE46, 0xE4E);
    (0xEB1, 0xEB1); (0xEB4, 0xEBC); (0xEC6, 0xEC6); (0xEC8, 0xECD);
    (0xF18, 0xF19); (0xF35, 0xF35); (0xF37, 0xF37); (0xF39, 0xF39);
    (0xF71, 0xF7E); (0xF80, 0xF84); (0xF86, 0xF87); (0xF8D, 0xF97);
    (0xF99, 0xFBC); (0xFC6, 0xFC6); (0x102D, 0x1030); (0x1032, 0x1037);
    (0x1039, 0x103A); (0x103D, 0x103E); (0x1058, 0x1059); (0x105E, 0x1060);
    (0x1071, 0x1074); (0x1082, 0x1082); (0x1085, 0x1086); (0x108D, 0x108D);
    (0x109D, 0x109D); (0x10FC, 0x10FC); (0x135D, 0x135F); (0x1712, 0x1714);
    (0x1732, 0x1733); (0x1752, 0x1753); (0x1772, 0x1773); (0x17B4, 0x17B5);
    (0x17B7, 0x17BD); (0x17C6, 0x17C6); (0x17C9, 0x17D3); (0x17D7, 0x17D7);
    (0x17DD, 0x17DD); (0x180B, 0x180F); (0x1843, 0x1843); (0x1885, 0x1886);
    (0x18A9, 0x18A9); (0x1920, 0x1922); (0x1927, 0x1928); (0x1932, 0x1932);
    (0x1939, 0x193B); (0x1A17, 0x1A18); (0x1A1B, 0x1A1B); (0x1A56, 0x1A56);
    (0x1A58, 0x1A5E); (0x1A60, 0x1A60); (0x1A62, 0x1A62); (0x1A65, 0x1A6C);
    (0x1A73, 0x1A7C); (0x1A7F, 0x1A7F); (0x1AA7, 0x1AA7); (0x1AB0, 0x1ACE);
    (0x1B00, 0x1B03); (0x1B34, 0x1B34); (0x1B36, 0x1B3A); (0x1B3C, 0x1B3C);
    (0x1B42, 0x1B42); (0x1B6B, 0x1B73); (0x1B80, 0x1B81); (0x1BA2, 0x1BA5);
    (0x1BA8, 0x1BA9); (0x1BAB, 0x1BAD); (0x1BE6, 0x1BE6); (0x1BE8, 0x1BE9);
    (0x1BED, 0x1BED); (0x1BEF, 0x1BF1); (0x1C2C, 0x1C33); (0x1C36, 0x1C37);
    (0x1C78, 0x1C7D); (0x1CD0, 0x1CD2); (0x1CD4, 0x1CE0); (0x1CE2, 0x1CE8);
    (0x1CED, 0x1CED); (0x1CF4, 0x1CF4); (0x1CF8, 0x1CF9); (0x1D2C, 0x1D6A);
    (0x1D78, 0x1D78); (0x1D9B, 0x1DFF); (0x1FBD, 0x1FBD); (0x1FBF, 0x1FC1);
    (0x1FCD, 0x1FCF); (0x1FDD, 0x1FDF); (0x1FED, 0x1FEF); (0x1FFD, 0x1FFE);
    (0x200B, 0x200F); (0x2018, 0x2019); (0x2024, 0x2024); (0x2027, 0x2027);
    (0x202A, 0x202E); (0x2060, 0x2064); (0x2066, 0x206F); (0x2071, 0x2071);
    (0x207F, 0x207F); (0x2090, 0x209C); (0x20D0, 0x20F0); (0x2C7C, 0x2C7D);
    (0x2CEF, 0x2CF1); (0x2D6F, 0x2D6F); (0x2D7F, 0x2D7F); (0x2DE0, 0x2DFF);
    (0x2E2F, 0x2E2F); (0x3005, 0x3005); (0x302A, 0x302D); (0x3031, 0x3035);
    (0x303B, 0x303B); (0x3099, 0x309E); (0x30FC, 0x30FE); (0xA015, 0xA015);
    (0xA4F8, 0xA4FD); (0xA60C, 0xA60C); (0xA66F, 0xA672); (0xA674, 0xA67D);
    (0xA67F, 0xA67F); (0xA69C, 0xA69F); (0xA6F0, 0xA6F1); (0xA700, 0xA721);
    (0xA770, 0xA770); (0xA788, 0xA78A); (0xA7F2, 0xA7F4); (0xA7F8, 0xA7F9);
    (0xA802, 0xA802); (0xA806, 0xA806); (0xA80B, 0xA80B); (0xA825, 0xA826);
    (0xA82C, 0xA82C); (0xA8C4, 0xA8C5); (0xA8E0, 0xA8F1); (0xA8FF, 0xA8FF);
    (0xA926, 0xA92D); (0xA947, 0xA951); (0xA980, 0xA982); (0xA9B3, 0xA9B3);
    (0xA9B6, 0xA9B9); (0xA9BC, 0xA9BD); (0xA9CF, 0xA9CF); (0xA9E5, 0xA9E6);
    (0xAA29, 0xAA2E); (0xAA31, 0xAA32); (0xAA35, 0xAA36); (0xAA43, 0xAA43);
    (0xAA4C, 0xAA4C); (0xAA70, 0xAA70); (0xAA7C, 0xAA7C); (0xAAB0, 0xAAB0);
    (0xAAB2, 0xAAB4); (0xAAB7, 0xAAB8); (0xAABE, 0xAABF); (0xAAC1, 0xAAC1);
    (0xAADD, 0xAADD); (0xAAEC, 0xAAED); (0xAAF3, 0xAAF4); (0xAAF6, 0xAAF6);
    (0xAB5B, 0xAB5F); (0xAB69, 0xAB6B); (0xABE5, 0xABE5); (0xABE8, 0xABE8);
    (0xABED, 0xABED); (0xFB1E, 0xFB1E); (0xFBB2, 0xFBC2); (0xFE00, 0xFE0F);
    (0xFE13, 0xFE13); (0xFE20, 0xFE2F); (0xFE52, 0xFE52); (0xFE55, 0xFE55);
    (0xFEFF, 0xFEFF); (0xFF07, 0xFF07); (0xFF0E, 0xFF0E); (0xFF1A, 0xFF1A);
    (0xFF3E, 0xFF3E); (0xFF40, 0xFF40); (0xFF70, 0xFF70); (0xFF9E, 0xFF9F);
    (0xFFE3, 0xFFE3); (0xFFF9, 0xFFFB); (0x101FD, 0x101FD);
    (0x102E0, 0x102E0); (0x10376, 0x1037A); (0x10780, 0x10785);
    (0x10787, 0x107B0); (0x107B2, 0x107BA); (0x10A01, 0x10A03);
    (0x10A05, 0x10A06); (0x10A0C, 0x10A0F); (0x10A38, 0x10A3A);
    (0x10A3F, 0x10A3F); (0x10AE5, 0x10AE6); (0x10D24, 0x10D27);
    (0x10EAB, 0x10EAC); (0x10F46, 0x10F50); (0x10F82, 0x10F85);
    (0x11001, 0x11001); (0x11038, 0x11046); (0x11070, 0x11070);
    (0x11073, 0x11074); (0x1107F, 0x11081); (0x110B3, 0x110B6);
    (0x110B9, 0x110BA); (0x110BD, 0x110BD); (0x110C2, 0x110C2);
    (0x110CD, 0x110CD); (0x11100, 0x11102); (0x11127, 0x1112B);
    (0x1112D, 0x11134); (0x11173, 0x11173); (0x11180, 0x11181);
    (0x111B6, 0x111BE); (0x111C9, 0x111CC); (0x111CF, 0x111CF);
    (0x1122F, 0x11231); (0x11234, 0x11234); (0x11236, 0x11237);
    (0x1123E, 0x1123E); (0x112DF, 0x112DF); (0x112E3, 0x112EA);
    (0x11300, 0x11301); (0x1133B, 0x1133C); (0x11340, 0x11340);
    (0x11366, 0x1136C); (0x11370, 0x11374); (0x11438, 0x1143F);
    (0x11442, 0x11444); (0x11446, 0x11446); (0x1145E, 0x1145E);
    (0x114B3, 0x114B8); (0x114BA, 0x114BA); (0x114BF, 0x114C0);
    (0x114C2, 0x114C3); (0x115B2, 0x115B5); (0x115BC, 0x115BD);
    (0x115BF, 0x115C0); (0x115DC, 0x115DD); (0x11633, 0x1163A);
    (0x1163D, 0x1163D); (0x1163F, 0x11640); (0x116AB, 0x116AB);
    (0x116AD, 0x116AD); (0x116B0, 0x116B5); (0x116B7, 0x116B7);
    (0x1171D, 0x1171F); (0x11722, 0x11725); (0x11727, 0x1172B);
    (0x1182F, 0x11837); (0x11839, 0x1183A); (0x1193B, 0x1193C);
    (0x1193E, 0x1193E); (0x11943, 0x11943); (0x119D4, 0x119D7);
    (0x119DA, 0x119DB); (0x119E0, 0x119E0); (0x11A01, 0x11A0A);
    (0x11A33, 0x11A38); (0x11A3B, 0x11A3E); (0x11A47, 0x11A47);
    (0x11A51, 0x11A56); (0x11A59, 0x11A5B); (0x11A8A, 0x11A96);
    (0x11A98, 0x11A99); (0x11C30, 0x11C36); (0x11C38, 0x11C3D);
    (0x11C3F, 0x11C3F); (0x11C92, 0x11CA7); (0x11CAA, 0x11CB0);
    (0x11CB2, 0x11CB3); (0x11CB5, 0x11CB6); (0x11D31, 0x11D36);
    (0x11D3A, 0x11D3A); (0x11D3C, 0x11D3D); (0x11D3F, 0x11D45);
    (0x11D47, 0x11D47); (0x11D90, 0x11D91); (0x11D95, 0x11D95);
    (0x11D97, 0x11D97); (0x11EF3, 0x11EF4); (0x13430, 0x13438);
    (0x16AF0, 0x16AF4); (0x16B30, 0x16B36); (0x16B40, 0x16B43);
    (0x16F4F, 0x16F4F); (0x16F8F, 0x16F9F); (0x16FE0, 0x16FE1);
    (0x16FE3, 0x16FE4); (0x1AFF0, 0x1AFF3); (0x1AFF5, 0x1AFFB);
    (0x1AFFD, 0x1AFFE); (0x1BC9D, 0x1BC9E); (0x1BCA0, 0x1BCA3);
    (0x1CF00, 0x1CF2D); (0x1CF30, 0x1CF46); (0x1D167, 0x1D169);
    (0x1D173, 0x1D182); (0x1D185, 0x1D18B); (0x1D1AA, 0x1D1AD);
    (0x1D242, 0x1D244); (0x1DA00, 0x1DA36); (0x1DA3B, 0x1DA6C);
    (0x1DA75, 0x1DA75); (0x1DA84, 0x1DA84); (0x1DA9B, 0x1DA9F);
    (0x1DAA1, 0x1DAAF); (0x1E000, 0x1E006); (0x1E008, 0x1E018);
    (0x1E01B, 0x1E021); (0x1E023, 0x1E024); (0x1E026, 0x1E02A);
    (0x1E130, 0x1E13D); (0x1E2AE, 0x1E2AE); (0x1E2EC, 0x1E2EF);
    (0x1E8D0, 0x1E8D6); (0x1E944, 0x1E94B); (0x1F3FB, 0x1F3FF);
    (0xE0001, 0xE0001); (0xE0020, 0xE007F); (0xE0100, 0xE01EF) ].

Fixpoint find_run (c : N) (runs : list (N * N * N * N)) : option N :=
  match runs with
  | [] => None
  | (first, last, step, target) :: rest =>
    if in_range first last c && ((c - first) mod step =? 0)
    then Some (target + (c - first))
    else find_run c rest
  end.

(** [_PyUnicode_ToLowerFull] *)
Definition lower_cp (c : N) : list N :=
  if c =? 0x130 then [0x69; 0x307]
  else match find_run c lower_runs with
       | Some d => [d]
       | None => [c]
       end.

Definition in_ranges (rs : list (N * N)) (c : N) : bool :=
  existsb (fun r => in_range (fst r) (snd r) c) rs.

(** [_PyUnicode_IsCased], [_PyUnicode_IsCaseIgnorable] *)
Definition is_cased (c : N) : bool := in_ranges cased_ranges c.

Definition is_case_ignorable (c : N) : bool :=
  in_ranges case_ignorable_ranges c.

Definition SIGMA : N := 0x3A3.

(** The first code point of [s] that is not case-ignorable. *)
Fixpoint skip_ignorable (s : str) : option N :=
  match s with
  | [] => None
  | c :: r => if is_case_ignorable c then skip_ignorable r else Some c
  end.

(** Whether the first code point of [s] that is not case-ignorable is
    cased. *)
Definition cased_near (s : str) : bool :=
  match skip_ignorable s with
  | Some c => is_cased c
  | None => false
  end.

(** [handle_capital_sigma]: a capital sigma takes the final form when a
    cased letter comes before it and none after it, case-ignorable code
    points being skipped on both sides.  [before] is the text before the
    sigma, nearest code point first. *)
Definition final_sigma (before after : str) : bool :=
  cased_near before && negb (cased_near after).

(** The lower-case form of [c] between [before] and [after]. *)
Definition lower_at (before : str) (c : N) (after : str) : list N :=
  if c =? SIGMA
  then [if final_sigma before after then 0x3C2 else 0x3C3]
  else lower_cp c.

Fixpoint lower_go (before s : str) : str :=
  match s with
  | [] => []
  | c :: r => lower_at before c r ++ lower_go (c :: before) r
  end.

(** [str.lower()] *)
Definition lower (s : str) : str := lower_go [] s.

(** [text.replace("\r\n", "\n")] *)
Fixpoint replace_crlf (s : str) : str :=
  match s with
  | [] => []
  | c :: r =>
    match r with
    | d :: r' =>
      if (c =? CR) && (d =? NL) then NL :: replace_crlf r'
      else c :: replace_crlf r
    | [] => [c]
    end
  end.

Fixpoint startswith (s p : str) : bool :=
  match p, s with
  | [], _ => true
  | _ :: _, [] => false
  | a :: p', b :: s' => (a =? b) && startswith s' p'
  end.

(** [sub in s] on strings. *)
Fixpoint str_in (sub s : str) : bool :=
  startswith s sub ||
  match s with
  | [] => false
  | _ :: r => str_in sub r
  end.

(** [sep.join(parts)] *)
Fixpoint join (sep : str) (parts : list str) : str :=
  match parts with
  | [] => []
  | [p] => p
  | p :: rest => p ++ sep ++ join sep rest
  end.

(** [str(n)] for an integer. *)
Definition str_of_Z (z : Z) : str :=
  lit (NilZero.string_of_int (Z.to_int z)).

(* ================================================================== *)
(** * Python values, exceptions and the global state *)
(* ================================================================== *)

(** What [json.load] produces, and what the dictionaries of [KB] hold. *)
Inductive pyval : Type :=
| VNone
| VBool (b : bool)
| VInt (z : Z)
| VFloat (q : Q)
| VStr (s : str)
| VList (l : list pyval)
| VDict (d : list (str * pyval)).

Definition dict := list (str * pyval).

(** Truth value of an object ([if x], [not x], [x or y]). *)
Definition truthy (v : pyval) : bool :=
  match v with
  | VNone => false
  | VBool b => b
  | VInt z => negb (z =? 0)%Z
  | VFloat q => negb (Qeq_bool q 0%Q)
  | VStr s => negb (is_empty s)
  | VList l => match l with [] => false | _ => true end
  | VDict d => match d with [] => false | _ => true end
  end.

(** [x or y] *)
Definition py_or (x y : pyval) : pyval := if truthy x then x else y.

(** [d.get(key, default)]; Python's one-argument [d.get(key)] is
    [get d key VNone]. *)
Fixpoint get (d : dict) (key : str) (default : pyval) : pyval :=
  match d with
  | [] => default
  | (k, v) :: r => if str_eqb k key then v else get r key default
  end.

Fixpoint has_key (d : dict) (key : str) : bool :=
  match d with
  | [] => false
  | (k, _) :: r => str_eqb k key || has_key r key
  end.

(** CPython's [repr], which [str()] falls back to on floats, lists and
    dictionaries, is not part of the program. *)
Class Repr := { py_repr : pyval -> str }.

Section Values.
Context {R : Repr}.

(** [str(v)] *)
Definition py_str (v : pyval) : str :=
  match v with
  | VNone => lit "None"
  | VBool true => lit "True"
  | VBool false => lit "False"
  | VInt z => str_of_Z z
  | VStr s => s
  | VFloat _ | VList _ | VDict _ => py_repr v
  end.

(** The [for v in x] loop of [norm_list]. *)
Fixpoint norm_list_loop (x : list pyval) : list str :=
  match x with
  | [] => []
  | v :: rest =>
    match v with
    | VNone => norm_list_loop rest
    | _ =>
      let s := lower (strip (py_str v)) in
      if is_empty s then norm_list_loop rest else s :: norm_list_loop rest
    end
  end.

Definition norm_list (x : pyval) : list str :=
  if negb (truthy x) then []
  else match x with
  | VStr s => [lower (strip s)]
  | VList l => norm_list_loop l
  | _ =>
    let s := lower (strip (py_str x)) in
    if is_empty s then [] else [s]
  end.
End Values.

Inductive exn : Type :=
| FileNotFoundError
| PermissionError
| OSError
| JSONDecodeError
| AttributeError
| TypeError.

Inductive result (A : Type) : Type :=
| Ok (a : A)
| Raise (e : exn).
Arguments Ok {A} a.
Arguments Raise {A} e.

(** The module-level globals. *)
Record state : Type := mkState {
  KB : list dict;
  UI : pyval;
  MTIME : Q
}.

Definition initial_state : state :=
  {| KB := []; UI := VDict []; MTIME := 0%Q |}.

(** Computations that read and assign the globals and may raise. *)
Definition M (A : Type) : Type := state -> result A * state.

Definition ret {A} (a : A) : M A := fun st => (Ok a, st).

Definition raise {A} (e : exn) : M A := fun st => (Raise e, st).

Definition bind {A B} (m : M A) (k : A -> M B) : M B :=
  fun st =>
    match m st with
    | (Ok a, st') => k a st'
    | (Raise e, st') => (Raise e, st')
    end.

Definition lift {A} (r : result A) : M A := fun st => (r, st).

Definition read : M state := fun st => (Ok st, st).

Definition set_KB (kb : list dict) : M unit :=
  fun st => (Ok tt, {| KB := kb; UI := UI st; MTIME := MTIME st |}).

Definition set_UI (ui : pyval) : M unit :=
  fun st => (Ok tt, {| KB := KB st; UI := ui; MTIME := MTIME st |}).

Definition set_MTIME (t : Q) : M unit :=
  fun st => (Ok tt, {| KB := KB st; UI := UI st; MTIME := t |}).

Declare Scope py_scope.
Delimit Scope py_scope with py.
Notation "x <- m ;; k" := (bind m (fun x => k))
  (at level 61, m at next level, right associativity) : py_scope.
Notation "m ;; k" := (bind m (fun _ => k))
  (at level 61, right associativity) : py_scope.

(** Exceptions without state, for the pure helpers. *)
Definition rbind {A B} (r : result A) (k : A -> result B) : result B :=
  match r with
  | Ok a => k a
  | Raise e => Raise e
  end.

Fixpoint rmap {A B} (f : A -> result B) (l : list A) : result (list B) :=
  match l with
  | [] => Ok []
  | a :: r =>
    rbind (f a) (fun b => rbind (rmap f r) (fun bs => Ok (b :: bs)))
  end.

(** [v.get(key, default)] on an arbitrary object: only dictionaries have
    the method. *)
Definition py_get (v : pyval) (key : str) (default : pyval) : result pyval :=
  match v with
  | VDict d => Ok (get d key default)
  | _ => Raise AttributeError
  end.

(** [for it in v]: the elements a [for] loop visits. *)
Definition py_iter (v : pyval) : result (list pyval) :=
  match v with
  | VList l => Ok l
  | VStr s => Ok (List.map (fun c => VStr [c]) s)
  | VDict d => Ok (List.map (fun kv => VStr (fst kv)) d)
  | VNone | VBool _ | VInt _ | VFloat _ => Raise TypeError
  end.

Declare Scope res_scope.
Delimit Scope res_scope with res.
Notation "'let*' x := m 'in' k" := (rbind m (fun x => k))
  (at level 10, x name, m at level 100, k at level 200) : res_scope.

(* ================================================================== *)
(** * Chunker *)
(* ================================================================== *)

(** [re.split(r"\n{k,}", t)]: the pieces between the maximal runs of at
    least [k] newlines.  [cur] is the piece being read and [n] the number of
    newlines seen since its last other character. *)
Fixpoint re_split_go (k : nat) (cur : str) (n : nat) (s : str) : list str :=
  match s with
  | [] => if (k <=? n)%nat then [cur; []] else [cur ++ repeat NL n]
  | c :: r =>
    if c =? NL then re_split_go k cur (S n) r
    else if (k <=? n)%nat then cur :: re_split_go k [c] 0 r
    else re_split_go k (cur ++ repeat NL n ++ [c]) 0 r
  end.

Definition re_split_newlines (k : nat) (t : str) : list str :=
  re_split_go k [] 0 t.

(** The [for p in parts] loop of [split_into_chunks]. *)
Fixpoint keep_long (parts : list str) : list str :=
  match parts with
  | [] => []
  | p :: rest =>
    let p := strip p in
    if (length p <? 80)%nat then keep_long rest else p :: keep_long rest
  end.

(** The body of [split_into_chunks] below its [if not text] guard, with the
    minimal newline run of the split pattern as a parameter. *)
Definition chunks_of (k : nat) (text : str) : list str :=
  let t := strip (replace_crlf text) in
  let parts := re_split_newlines k t in
  let chunks := keep_long parts in
  match chunks with [] => [t] | _ :: _ => chunks end.

(** [split_into_chunks(text)].  The argument comes from the JSON document,
    so it is an arbitrary object: a false one returns [[]], and only a string
    has [replace]. *)
Definition split_into_chunks (text : pyval) : result (list str) :=
  if negb (truthy text) then Ok []
  else match text with
  | VStr s => Ok (chunks_of 2 s)
  | _ => Raise AttributeError
  end.

(* ================================================================== *)
(** * Keyword extractor *)
(* ================================================================== *)

Definition KEYBANK : list (str * list str) :=
  [ (lit "auditory",
     List.map lit
       [ "qulaq"; "qulağ"; "qulaqlar"; "səs"; "ses"; "səs-küy"; "ses-kuy";
         "tozsoran"; "fen"; "ventilyasiya"; "ventilyator"; "maşın səsi";
         "masin sesi"; "qışqır"; "bagir"; "sirena"; "metro"; "toy" ]%string);
    (lit "smell",
     List.map lit
       [ "qoxu"; "iy"; "ətir"; "parfum"; "təmizlik"; "xlor";
         "yemək qoxusu" ]%string);
    (lit "touch",
     List.map lit
       [ "toxun"; "paltar"; "etiket"; "corab"; "corab"; "düymə"; "daraq";
         "saç" ]%string);
    (lit "sleep",
     List.map lit [ "yuxu"; "yatmır"; "oyanır"; "gecə"; "rejim" ]%string);
    (lit "toilet",
     List.map lit
       [ "tualet"; "pampers"; "bez"; "unitaz"; "karşok"; "sidik";
         "nəcis" ]%string);
    (lit "food",
     List.map lit
       [ "yemək"; "qida"; "dad"; "tekstura"; "seçir"; "yemir"; "qlüten";
         "kazein" ]%string);
    (lit "meltdown",
     List.map lit
       [ "meltdown"; "isterika"; "qışqırır"; "bağırır"; "aqressiya"; "vurur";
         "dişləyir" ]%string);
    (lit "hygiene",
     List.map lit
       [ "diş"; "fırça"; "pasta"; "duş"; "çimmək"; "dırnaq" ]%string);
    (lit "school",
     List.map lit
       [ "məktəb"; "bağça"; "müəllim"; "dərs"; "inklyuziv" ]%string);
    (lit "communication",
     List.map lit
       [ "danışmır"; "ünsiyyət"; "jest"; "pecs"; "exolaliya";
         "təkrar edir" ]%string) ].

(** The character class [[a-zəğıöşüç0-9]]. *)
Definition is_title_cp (c : N) : bool :=
  in_range 0x61 0x7A c || in_range 0x30 0x39 c
  || (c =? 0x259) || (c =? 0x11F) || (c =? 0x131) || (c =? 0xF6)
  || (c =? 0x15F) || (c =? 0xFC) || (c =? 0xE7).

Definition emit_word (cur : str) : list str :=
  if (3 <=? length cur)%nat then [cur] else [].

(** [re.findall(r"[a-zəğıöşüç0-9]{3,}", s)]: the maximal runs of class
    characters that are at least three long. *)
Fixpoint findall_go (cur : str) (s : str) : list str :=
  match s with
  | [] => emit_word cur
  | c :: r =>
    if is_title_cp c then findall_go (cur ++ [c]) r
    else emit_word cur ++ findall_go [] r
  end.

Definition findall_title_words (s : str) : list str := findall_go [] s.

(** Order of strings: by code points, as Python compares [str]. *)
Fixpoint str_compare (a b : str) : comparison :=
  match a, b with
  | [], [] => Eq
  | [], _ :: _ => Lt
  | _ :: _, [] => Gt
  | x :: a', y :: b' =>
    match x ?= y with
    | Eq => str_compare a' b'
    | c => c
    end
  end.

Fixpoint insert_sorted (x : str) (l : list str) : list str :=
  match l with
  | [] => [x]
  | y :: r =>
    match str_compare x y with
    | Lt => x :: l
    | Eq => l
    | Gt => y :: insert_sorted x r
    end
  end.

(** [sorted(kws)] for a set [kws] given by the elements added to it. *)
Definition sorted_set (added : list str) : list str :=
  fold_right insert_sorted [] added.

(** [v.lower()] on an arbitrary object. *)
Definition py_lower (v : pyval) : result str :=
  match v with
  | VStr s => Ok (lower s)
  | _ => Raise AttributeError
  end.

Definition keybank_hits (title_l text_l : str) : list str :=
  flat_map
    (fun entry =>
       filter (fun v => str_in v title_l || str_in v text_l) (snd entry))
    KEYBANK.

Definition extract_keywords (title : pyval) (text : str)
  : result (list str) :=
  (let* title_l := py_lower (py_or title (VStr [])) in
   let text_l := lower text in
   let kws := findall_title_words title_l in
   let kws := kws ++ keybank_hits title_l text_l in
   let kws :=
     if str_in (lit "qulaq") text_l
        && (str_in (lit "ağlay") text_l || str_in (lit "aglay") text_l)
     then kws ++ [lit "qulaqlarını tutub ağlayır";
                  lit "qulaqlarini tutub aglayir"]
     else kws in
   Ok (sorted_set kws))%res.

(* ================================================================== *)
(** * Scorer *)
(* ================================================================== *)

(** ** Python floats

    A Python [float] is an IEEE 754 binary64 number: a rational with a
    significand of 53 bits.  [fl64 q] is the binary64 number nearest to [q],
    ties going to the even significand; the result of an addition, a
    subtraction or a product of two floats is [fl64] of the exact one, and
    the conversion of an [int] or of a decimal literal is [fl64] of its
    value.  Below [2 ^ -1022] the spacing stays at [2 ^ -1074] (subnormal
    numbers); the scores are far from the overflow threshold, which is not
    modelled. *)

(** The exponent [e] with [2 ^ e <= q < 2 ^ (e + 1)], for [0 < q]. *)
Definition floor_log2 (q : Q) : Z :=
  let e0 := (Z.log2 (Qnum q) - Z.log2 (Zpos (Qden q)))%Z in
  if Qle_bool (2 ^ e0)%Q q then e0 else (e0 - 1)%Z.

Definition round_half_even (t : Q) : Z :=
  let f := Qfloor t in
  match (t - inject_Z f ?= 1 # 2)%Q with
  | Lt => f
  | Gt => (f + 1)%Z
  | Eq => if Z.even f then f else (f + 1)%Z
  end.

Definition fl64_pos (q : Q) : Q :=
  let e := Z.max (floor_log2 q) (-1022)%Z in
  let ulp := (2 ^ (e - 52))%Q in
  Qred (inject_Z (round_half_even (q / ulp)) * ulp)%Q.

Definition fl64 (q : Q) : Q :=
  match Qnum q with
  | Z0 => 0%Q
  | Zpos _ => fl64_pos q
  | Zneg _ => Qred (- fl64_pos (- q))%Q
  end.

(** The two [rapidfuzz.fuzz] ratios the scorer calls. *)
Class Fuzz := {
  token_set_ratio : str -> str -> Q;
  partial_ratio : str -> str -> Q
}.

Definition scored_entry : Type := Q * dict * nat.

Definition score_of (e : scored_entry) : Q := fst (fst e).
Definition item_of (e : scored_entry) : dict := snd (fst e).

(** [keyword_overlap(user_text, keywords)] *)
Fixpoint keyword_overlap (user_text : str) (keywords : list str) : nat :=
  match keywords with
  | [] => 0%nat
  | kw :: rest =>
    if negb (is_empty kw) && str_in kw user_text
    then S (keyword_overlap user_text rest)
    else keyword_overlap user_text rest
  end.

(** [min(overlap * 4.0, 16.0)]: the [int] is converted to a float, then
    multiplied. *)
Definition overlap_bonus (overlap : nat) : Q :=
  Qmin (fl64 (fl64 (inject_Z (Z.of_nat overlap)) * 4)%Q) 16%Q.

(** [scored.sort(key=lambda x: x[0], reverse=True)]: stable, descending. *)
Fixpoint insert_desc (x : scored_entry) (l : list scored_entry)
  : list scored_entry :=
  match l with
  | [] => [x]
  | y :: r =>
    if Qle_bool (score_of y) (score_of x) then x :: l
    else y :: insert_desc x r
  end.

Definition sort_desc (l : list scored_entry) : list scored_entry :=
  fold_right insert_desc [] l.

Section Scorer.
Context {R : Repr} {F : Fuzz}.

Definition build_query_text (item : dict) : str :=
  let title := lower (py_str (get item (lit "title") (VStr []))) in
  let topic := lower (py_str (get item (lit "topic") (VStr []))) in
  let keywords := join [SP] (norm_list (get item (lit "keywords") VNone)) in
  let text := lower (py_str (get item (lit "text") (VStr []))) in
  let text := firstn 800 text in
  strip (title ++ [SP] ++ topic ++ [SP] ++ keywords ++ [SP] ++ text).

(** One turn of the [for item in KB] loop of [top2_match]: [None] is the
    [continue], [Some] the tuple appended to [scored].  The score is a
    float: [float(max(s1, s2))], then [score += ...] and [score -= 5.0],
    each rounded to binary64. *)
Definition score_item (user_text : str) (item : dict)
  : option scored_entry :=
  let kws := norm_list (get item (lit "keywords") VNone) in
  let overlap := keyword_overlap user_text kws in
  let q := build_query_text item in
  if is_empty q then None
  else
    let s1 := token_set_ratio user_text q in
    let s2 := partial_ratio user_text q in
    let score := fl64 (Qmax s1 s2) in
    let score := fl64 (score + overlap_bonus overlap)%Q in
    let score := if (overlap =? 0)%nat then fl64 (score - 5)%Q else score in
    Some (score, item, overlap).

Fixpoint score_all (user_text : str) (kb : list dict) : list scored_entry :=
  match kb with
  | [] => []
  | item :: rest =>
    match score_item user_text item with
    | Some e => e :: score_all user_text rest
    | None => score_all user_text rest
    end
  end.

Definition top_slot (e : option scored_entry) : Q * option dict :=
  match e with
  | Some e => (score_of e, Some (item_of e))
  | None => (0%Q, None)
  end.

(** [top2_match(user_text)], with the global [KB] it reads as [kb]. *)
Definition top2_match (kb : list dict) (user_text : str)
  : (Q * option dict) * (Q * option dict) :=
  let scored := sort_desc (score_all user_text kb) in
  (top_slot (nth_error scored 0), top_slot (nth_error scored 1)).

End Scorer.

(* ================================================================== *)
(** * Loader and cache *)
(* ================================================================== *)

(** What the program sees of the outside at one call of [load_json]:
    the outcome of [os.path.getmtime(DATA_PATH)], and the outcome of opening
    the file and running [json.load] on it. *)
Record world : Type := mkWorld {
  getmtime : result Q;
  json_load : result pyval
}.

Definition VStrs (l : list str) : pyval := VList (List.map VStr l).

Fixpoint enumerate_from {A} (i : nat) (l : list A) : list (nat * A) :=
  match l with
  | [] => []
  | a :: r => (i, a) :: enumerate_from (S i) r
  end.

Section Loader.
Context {R : Repr}.

(** The dictionary appended for one element of [items]. *)
Definition item_entry (it : pyval) : result dict :=
  (let* id := py_get it (lit "id") VNone in
   let* title := py_get it (lit "title") (VStr []) in
   let* topic := py_get it (lit "topic") (VStr []) in
   let* keywords := py_get it (lit "keywords") VNone in
   let* text := py_get it (lit "text") (VStr []) in
   Ok [ (lit "id", id);
        (lit "title", title);
        (lit "topic", topic);
        (lit "keywords", VStrs (norm_list keywords));
        (lit "text", text);
        (lit "source", VStr (lit "items")) ])%res.

(** The dictionary appended for chunk [idx] of one problem. *)
Definition chunk_entry (pid title image : pyval) (ic : nat * str)
  : result dict :=
  (let idx := fst ic in
   let ch := snd ic in
   let* kws := extract_keywords title ch in
   Ok [ (lit "id",
         VStr (lit "problem_" ++ py_str pid ++ lit "_chunk_"
               ++ str_of_Z (Z.of_nat idx)));
        (lit "parent_id", pid);
        (lit "title", title);
        (lit "topic", VStr (lit "expert_article"));
        (lit "keywords", VStrs kws);
        (lit "text", VStr ch);
        (lit "source", VStr (lit "problems"));
        (lit "image", image) ])%res.

(** The dictionaries appended for one element of [problems]. *)
Definition problem_entries (p : pyval) : result (list dict) :=
  (let* pid := py_get p (lit "id") VNone in
   let* title := py_get p (lit "title") (VStr []) in
   let* desc := py_get p (lit "description") (VStr []) in
   let* image := py_get p (lit "image") VNone in
   let* chunks := split_into_chunks desc in
   rmap (chunk_entry pid title image) (enumerate_from 0 chunks))%res.

(** [for x in (data.get(key) or [])] *)
Definition section_elements (data : pyval) (key : str)
  : result (list pyval) :=
  (let* v := py_get data key VNone in
   py_iter (py_or v (VList [])))%res.

Definition load_json (w : world) : M unit :=
  match getmtime w with
  | Raise FileNotFoundError =>
    (set_KB [] ;; set_UI (VDict []) ;; set_MTIME 0%Q)%py
  | Raise e => raise e
  | Ok mtime =>
    (st <- read ;;
     if Qeq_bool mtime (MTIME st) then ret tt
     else
       data <- lift (json_load w) ;;
       ui <- lift (py_get data (lit "ui") (VDict [])) ;;
       set_UI (py_or ui (VDict [])) ;;
       items <- lift (section_elements data (lit "items")) ;;
       kb1 <- lift (rmap item_entry items) ;;
       problems <- lift (section_elements data (lit "problems")) ;;
       kb2 <- lift (rmap problem_entries problems) ;;
       set_KB (kb1 ++ concat kb2) ;;
       set_MTIME mtime)%py
  end.

End Loader.

(* ================================================================== *)
(** * Decision policy: the [/chat] handler *)
(* ================================================================== *)

Record source : Type := mkSource {
  src_id : pyval;
  src_title : pyval;
  src_source : pyval;
  src_score : Q;
  src_parent_id : pyval
}.

Record response : Type := mkResponse {
  answer : pyval;
  used_context : bool;
  sources : list source
}.

Definition THRESHOLD : Q := 80.
Definition MARGIN : Q := 4.

(** [round(x, 2)]: to the nearest hundredth, ties to the even one. *)
Definition py_round2 (x : Q) : Q :=
  let y := (x * 100)%Q in
  let f := Qfloor y in
  let up := ((f + 1)%Z # 100)%Q in
  let down := (f # 100)%Q in
  match (y - inject_Z f ?= 1 # 2)%Q with
  | Lt => down
  | Gt => up
  | Eq => if Z.even f then down else up
  end.

Definition ASK_FOR_QUESTION : response :=
  {| answer := VStr (lit "Zəhmət olmasa sualınızı yazın.");
     used_context := false;
     sources := [] |}.

Definition CLARIFY : response :=
  {| answer :=
       VStr (lit "Sualınızı dəqiq tutmadım. Zəhmət olmasa 1-2 detal əlavə edin:"
             ++ [NL] ++
             lit "• Yaş neçədir?"
             ++ [NL] ++
             lit "• Nə tetikləyir? (səs, işıq, qoxu, toxunuş, rutin pozulması)"
             ++ [NL] ++
             lit "• Nə qədər tez-tez olur?"
             ++ [NL] ++
             lit "Məs: “5 yaş, tozsoran səsində qulaqlarını tutub ağlayır”.");
     used_context := false;
     sources := [] |}.

(** Truth value of [item1], a dictionary or [None]. *)
Definition item_truthy (item : option dict) : bool :=
  match item with
  | Some d => truthy (VDict d)
  | None => false
  end.

Definition accepted (s1 : Q) (item1 : dict) : response :=
  {| answer := get item1 (lit "text") (VStr (lit "Cavab mövcud deyil."));
     used_context := true;
     sources :=
       [ {| src_id := get item1 (lit "id") VNone;
            src_title := get item1 (lit "title") VNone;
            src_source := get item1 (lit "source") VNone;
            src_score := py_round2 s1;
            src_parent_id := get item1 (lit "parent_id") VNone |} ] |}.

Section Chat.
Context {R : Repr} {F : Fuzz}.

(** [chat(req)], on [req.message]. *)
Definition chat (w : world) (message : str) : M response :=
  (load_json w ;;
   let user_text := lower (strip message) in
   if is_empty user_text then ret ASK_FOR_QUESTION
   else
     st <- read ;;
     let '((s1, item1), (s2, _)) := top2_match (KB st) user_text in
     match item1 with
     | Some it =>
       if item_truthy item1 && Qle_bool THRESHOLD s1
          && Qle_bool MARGIN (s1 - s2)
       then ret (accepted s1 it)
       else ret CLARIFY
     | None => ret CLARIFY
     end)%py.

End Chat.

(* ================================================================== *)
(** * Vocabulary of the properties *)
(* ================================================================== *)

Definition all_space (s : str) : bool := forallb is_space s.

(** A string that [strip] leaves alone: empty, or with a first and a last
    character that are not whitespace. *)
Definition stripped (s : str) : Prop :=
  lstrip s = s /\ lstrip (rev s) = rev s.

(** The code points a run maps. *)
Definition run_points (run : N * N * N * N) : list N :=
  let '(first, last, step, _) := run in
  List.map (fun k => first + step * N.of_nat k)
           (seq 0 (S (N.to_nat ((last - first) / step)))).

(** The code points that are not their own lower-case form: what holds of
    them and of the code points [lower_cp] leaves alone holds everywhere. *)
Definition lower_keys : list N := 0x130 :: flat_map run_points lower_runs.

Definition lowered (d : N) : bool := str_eqb (lower_cp d) [d].

(** A blank string is empty or made of whitespace only. *)
Definition blank (s : str) : Prop := strip s = [].

(** A tag in the form [norm_list] produces: not blank, trimmed, lowered. *)
Definition normal_tag (s : str) : Prop := s <> [] /\ lower (strip s) = s.

(** [p] occurs in [t] as a contiguous substring. *)
Definition infix (p t : str) : Prop := exists a b, t = a ++ p ++ b.

(** [p] has no [k] newlines in a row. *)
Definition run_free (k : nat) (p : str) : Prop :=
  forall a b, p <> a ++ repeat NL k ++ b.

Definition ends_with_newline (p : str) : Prop := exists a, p = a ++ [NL].

Definition starts_with_newline (p : str) : Prop := exists b, p = NL :: b.

(** [splits k t pieces]: [t] is the pieces joined by runs of at least [k]
    newlines, no piece contains [k] newlines in a row, and every separating
    run is maximal. *)
Inductive splits (k : nat) : str -> list str -> Prop :=
| splits_last (p : str) :
    run_free k p -> splits k p [p]
| splits_cons (p : str) (n : nat) (rest : str) (pieces : list str) :
    run_free k p -> ~ ends_with_newline p ->
    (k <= n)%nat -> ~ starts_with_newline rest ->
    splits k rest pieces ->
    splits k (p ++ repeat NL n ++ rest) (p :: pieces).

(** The chunker as the specification words it: candidate passages are
    separated by runs of two or more blank lines, that is by three or more
    newline characters in a row. *)
Definition chunk_as_specified (text : str) : list str :=
  if is_empty text then [] else chunks_of 3 text.

(** Two paragraphs of eighty characters with one blank line between them. *)
Definition two_paragraphs : str :=
  repeat 97 80 ++ [NL; NL] ++ repeat 98 80.

(** The ranking is in descending order of score. *)
Inductive descending : list scored_entry -> Prop :=
| desc_nil : descending []
| desc_one (x : scored_entry) : descending [x]
| desc_cons (x y : scored_entry) (l : list scored_entry) :
    (score_of y <= score_of x)%Q -> descending (y :: l) ->
    descending (x :: y :: l).

(** An entry that carries an answer text field. *)
Definition has_text (it : dict) : Prop := has_key it (lit "text") = true.

(** An entry whose answer text is a non-empty value. *)
Definition nonempty_text (it : dict) : Prop :=
  truthy (get it (lit "text") VNone) = true.

Definition with_UI (st : state) (ui : pyval) : state :=
  {| KB := KB st; UI := ui; MTIME := MTIME st |}.

Section LoaderOutcomes.
Context {R : Repr}.

(** The entry list [load_json] builds from a parsed document. *)
Definition parse_kb (data : pyval) : result (list dict) :=
  (let* items := section_elements data (lit "items") in
   let* kb1 := rmap item_entry items in
   let* problems := section_elements data (lit "problems") in
   let* kb2 := rmap problem_entries problems in
   Ok (kb1 ++ concat kb2))%res.

(** What a reload does once a changed modification time is seen. *)
Definition reload (w : world) (mtime : Q) (st : state) : result unit * state :=
  match json_load w with
  | Raise e => (Raise e, st)
  | Ok data =>
    match py_get data (lit "ui") (VDict []) with
    | Raise e => (Raise e, st)
    | Ok ui =>
      match parse_kb data with
      | Raise e => (Raise e, with_UI st (py_or ui (VDict [])))
      | Ok kb =>
        (Ok tt, {| KB := kb; UI := py_or ui (VDict []); MTIME := mtime |})
      end
    end
  end.

(** The states the globals can be in: the module's initial values, and
    whatever a call of [load_json] leaves, however it ends. *)
Inductive reachable : state -> Prop :=
| reach_initial : reachable initial_state
| reach_load (w : world) (st st' : state) (r : result unit) :
    reachable st -> load_json w st = (r, st') -> reachable st'.

End LoaderOutcomes.

(** Two code points that [str.lower] identifies: the same code point, or a
    code point and its lower-case form.  Capital sigma is paired with itself
    only, its lower-case form being decided by its neighbours. *)
Definition same_letter (a b : N) : Prop :=
  a = b
  \/ (a <> SIGMA /\ lower_cp a = [b])
  \/ (b <> SIGMA /\ lower_cp b = [a]).

(** [m'] differs from [m] only in leading or trailing whitespace and in
    the case of letters that [str.lower] identifies. *)
Definition variant (m m' : str) : Prop :=
  exists l r l' r' c c',
    all_space l = true /\ all_space r = true
    /\ all_space l' = true /\ all_space r' = true
    /\ m = l ++ c ++ r /\ m' = l' ++ c' ++ r'
    /\ Forall2 same_letter c c'.

(** ** Upper case

    [str.upper()], by which a message written in capitals differs from the
    message only in letter case.  It maps each code point on its own, with
    the upper-case mapping of the same character database; some upper-case
    forms have two or three code points. *)

(** The simple upper-case mappings. *)
Definition upper_runs : list (N * N * N * N) :=
  [
    (0x61, 0x7A, 1, 0x41); (0xB5, 0xB5, 1, 0x39C); (0xE0, 0xF6, 1, 0xC0);
    (0xF8, 0xFE, 1, 0xD8); (0xFF, 0xFF, 1, 0x178); (0x101, 0x12F, 2, 0x100);
    (0x131, 0x131, 1, 0x49); (0x133, 0x137, 2, 0x132);
    (0x13A, 0x148, 2, 0x139); (0x14B, 0x177, 2, 0x14A);
    (0x17A, 0x17E, 2, 0x179); (0x17F, 0x17F, 1, 0x53);
    (0x180, 0x180, 1, 0x243); (0x183, 0x185, 2, 0x182);
    (0x188, 0x188, 1, 0x187); (0x18C, 0x18C, 1, 0x18B);
    (0x192, 0x192, 1, 0x191); (0x195, 0x195, 1, 0x1F6);
    (0x199, 0x199, 1, 0x198); (0x19A, 0x19A, 1, 0x23D);
    (0x19E, 0x19E, 1, 0x220); (0x1A1, 0x1A5, 2, 0x1A0);
    (0x1A8, 0x1A8, 1, 0x1A7); (0x1AD, 0x1AD, 1, 0x1AC);
    (0x1B0, 0x1B0, 1, 0x1AF); (0x1B4, 0x1B6, 2, 0x1B3);
    (0x1B9, 0x1B9, 1, 0x1B8); (0x1BD, 0x1BD, 1, 0x1BC);
    (0x1BF, 0x1BF, 1, 0x1F7); (0x1C5, 0x1C5, 1, 0x1C4);
    (0x1C6, 0x1C6, 1, 0x1C4); (0x1C8, 0x1C8, 1, 0x1C7);
    (0x1C9, 0x1C9, 1, 0x1C7); (0x1CB, 0x1CB, 1, 0x1CA);
    (0x1CC, 0x1CC, 1, 0x1CA); (0x1CE, 0x1DC, 2, 0x1CD);
    (0x1DD, 0x1DD, 1, 0x18E); (0x1DF, 0x1EF, 2, 0x1DE);
    (0x1F2, 0x1F2, 1, 0x1F1); (0x1F3, 0x1F3, 1, 0x1F1);
    (0x1F5, 0x1F5, 1, 0x1F4); (0x1F9, 0x21F, 2, 0x1F8);
    (0x223, 0x233, 2, 0x222); (0x23C, 0x23C, 1, 0x23B);
    (0x23F, 0x240, 1, 0x2C7E); (0x242, 0x242, 1, 0x241);
    (0x247, 0x24F, 2, 0x246); (0x250, 0x250, 1, 0x2C6F);
    (0x251, 0x251, 1, 0x2C6D); (0x252, 0x252, 1, 0x2C70);
    (0x253, 0x253, 1, 0x181); (0x254, 0x254, 1, 0x186);
    (0x256, 0x257, 1, 0x189); (0x259, 0x259, 1, 0x18F);
    (0x25B, 0x25B, 1, 0x190); (0x25C, 0x25C, 1, 0xA7AB);
    (0x260, 0x260, 1, 0x193); (0x261, 0x261, 1, 0xA7AC);
    (0x263, 0x263, 1, 0x194); (0x265, 0x265, 1, 0xA78D);
    (0x266, 0x266, 1, 0xA7AA); (0x268, 0x268, 1, 0x197);
    (0x269, 0x269, 1, 0x196); (0x26A, 0x26A, 1, 0xA7AE);
    (0x26B, 0x26B, 1, 0x2C62); (0x26C, 0x26C, 1, 0xA7AD);
    (0x26F, 0x26F, 1, 0x19C); (0x271, 0x271, 1, 0x2C6E);
    (0x272, 0x272, 1, 0x19D); (0x275, 0x275, 1, 0x19F);
    (0x27D, 0x27D, 1, 0x2C64); (0x280, 0x280, 1, 0x1A6);
    (0x282, 0x282, 1, 0xA7C5); (0x283, 0x283, 1, 0x1A9);
    (0x287, 0x287, 1, 0xA7B1); (0x288, 0x288, 1, 0x1AE);
    (0x289, 0x289, 1, 0x244); (0x28A, 0x28B, 1, 0x1B1);
    (0x28C, 0x28C, 1, 0x245); (0x292, 0x292, 1, 0x1B7);
    (0x29D, 0x29D, 1, 0xA7B2); (0x29E, 0x29E, 1, 0xA7B0);
    (0x345, 0x345, 1, 0x399); (0x371, 0x373, 2, 0x370);
    (0x377, 0x377, 1, 0x376); (0x37B, 0x37D, 1, 0x3FD);
    (0x3AC, 0x3AC, 1, 0x386); (0x3AD, 0x3AF, 1, 0x388);
    (0x3B1, 0x3C1, 1, 0x391); (0x3C2, 0x3C2, 1, 0x3A3);
    (0x3C3, 0x3CB, 1, 0x3A3); (0x3CC, 0x3CC, 1, 0x38C);
    (0x3CD, 0x3CE, 1, 0x38E); (0x3D0, 0x3D0, 1, 0x392);
    (0x3D1, 0x3D1, 1, 0x398); (0x3D5, 0x3D5, 1, 0x3A6);
    (0x3D6, 0x3D6, 1, 0x3A0); (0x3D7, 0x3D7, 1, 0x3CF);
    (0x3D9, 0x3EF, 2, 0x3D8); (0x3F0, 0x3F0, 1, 0x39A);
    (0x3F1, 0x3F1, 1, 0x3A1); (0x3F2, 0x3F2, 1, 0x3F9);
    (0x3F3, 0x3F3, 1, 0x37F); (0x3F5, 0x3F5, 1, 0x395);
    (0x3F8, 0x3F8, 1, 0x3F7); (0x3FB, 0x3FB, 1, 0x3FA);
    (0x430, 0x44F, 1, 0x410); (0x450, 0x45F, 1, 0x400);
    (0x461, 0x481, 2, 0x460); (0x48B, 0x4BF, 2, 0x48A);
    (0x4C2, 0x4CE, 2, 0x4C1); (0x4CF, 0x4CF, 1, 0x4C0);
    (0x4D1, 0x52F, 2, 0x4D0); (0x561, 0x586, 1, 0x531);
    (0x10D0, 0x10FA, 1, 0x1C90); (0x10FD, 0x10FF, 1, 0x1CBD);
    (0x13F8, 0x13FD, 1, 0x13F0); (0x1C80, 0x1C80, 1, 0x412);
    (0x1C81, 0x1C81, 1, 0x414); (0x1C82, 0x1C82, 1, 0x41E);
    (0x1C83, 0x1C84, 1, 0x421); (0x1C85, 0x1C85, 1, 0x422);
    (0x1C86, 0x1C86, 1, 0x42A); (0x1C87, 0x1C87, 1, 0x462);
    (0x1C88, 0x1C88, 1, 0xA64A); (0x1D79, 0x1D79, 1, 0xA77D);
    (0x1D7D, 0x1D7D, 1, 0x2C63); (0x1D8E, 0x1D8E, 1, 0xA7C6);
    (0x1E01, 0x1E95, 2, 0x1E00); (0x1E9B, 0x1E9B, 1, 0x1E60);
    (0x1EA1, 0x1EFF, 2, 0x1EA0); (0x1F00, 0x1F07, 1, 0x1F08);
    (0x1F10, 0x1F15, 1, 0x1F18); (0x1F20, 0x1F27, 1, 0x1F28);
    (0x1F30, 0x1F37, 1, 0x1F38); (0x1F40, 0x1F45, 1, 0x1F48);
    (0x1F51, 0x1F57, 2, 0x1F59); (0x1F60, 0x1F67, 1, 0x1F68);
    (0x1F70, 0x1F71, 1, 0x1FBA); (0x1F72, 0x1F75, 1, 0x1FC8);
    (0x1F76, 0x1F77, 1, 0x1FDA); (0x1F78, 0x1F79, 1, 0x1FF8);
    (0x1F7A, 0x1F7B, 1, 0x1FEA); (0x1F7C, 0x1F7D, 1, 0x1FFA);
    (0x1FB0, 0x1FB1, 1, 0x1FB8); (0x1FBE, 0x1FBE, 1, 0x399);
    (0x1FD0, 0x1FD1, 1, 0x1FD8); (0x1FE0, 0x1FE1, 1, 0x1FE8);
    (0x1FE5, 0x1FE5, 1, 0x1FEC); (0x214E, 0x214E, 1, 0x2132);
    (0x2170, 0x217F, 1, 0x2160); (0x2184, 0x2184, 1, 0x2183);
    (0x24D0, 0x24E9, 1, 0x24B6); (0x2C30, 0x2C5F, 1, 0x2C00);
    (0x2C61, 0x2C61, 1, 0x2C60); (0x2C65, 0x2C65, 1, 0x23A);
    (0x2C66, 0x2C66, 1, 0x23E); (0x2C68, 0x2C6C, 2, 0x2C67);
    (0x2C73, 0x2C73, 1, 0x2C72); (0x2C76, 0x2C76, 1, 0x2C75);
    (0x2C81, 0x2CE3, 2, 0x2C80); (0x2CEC, 0x2CEE, 2, 0x2CEB);
    (0x2CF3, 0x2CF3, 1, 0x2CF2); (0x2D00, 0x2D25, 1, 0x10A0);
    (0x2D27, 0x2D27, 1, 0x10C7); (0x2D2D, 0x2D2D, 1, 0x10CD);
    (0xA641, 0xA66D, 2, 0xA640); (0xA681, 0xA69B, 2, 0xA680);
    (0xA723, 0xA72F, 2, 0xA722); (0xA733, 0xA76F, 2, 0xA732);
    (0xA77A, 0xA77C, 2, 0xA779); (0xA77F, 0xA787, 2, 0xA77E);
    (0xA78C, 0xA78C, 1, 0xA78B); (0xA791, 0xA793, 2, 0xA790);
    (0xA794, 0xA794, 1, 0xA7C4); (0xA797, 0xA7A9, 2, 0xA796);
    (0xA7B5, 0xA7C3, 2, 0xA7B4); (0xA7C8, 0xA7CA, 2, 0xA7C7);
    (0xA7D1, 0xA7D1, 1, 0xA7D0); (0xA7D7, 0xA7D9, 2, 0xA7D6);
    (0xA7F6, 0xA7F6, 1, 0xA7F5); (0xAB53, 0xAB53, 1, 0xA7B3);
    (0xAB70, 0xABBF, 1, 0x13A0); (0xFF41, 0xFF5A, 1, 0xFF21);
    (0x10428, 0x1044F, 1, 0x10400); (0x104D8, 0x104FB, 1, 0x104B0);
    (0x10597, 0x105BB, 2, 0x10570); (0x10598, 0x105A0, 2, 0x10571);
    (0x105A4, 0x105B0, 2, 0x1057D); (0x105B4, 0x105B8, 2, 0x1058D);
    (0x105BC, 0x105BC, 1, 0x10595); (0x10CC0, 0x10CF2, 1, 0x10C80);
    (0x118C0, 0x118DF, 1, 0x118A0); (0x16E60, 0x16E7F, 1, 0x16E40);
    (0x1E922, 0x1E943, 1, 0x1E900) ].

(** The upper-case forms of more than one code point. *)
Definition upper_special : list (N * list N) :=
  [
    (0xDF, [0x53; 0x53]); (0x149, [0x2BC; 0x4E]); (0x1F0, [0x4A; 0x30C]);
    (0x390, [0x399; 0x308; 0x301]); (0x3B0, [0x3A5; 0x308; 0x301]);
    (0x587, [0x535; 0x552]); (0x1E96, [0x48; 0x331]); (0x1E97, [0x54; 0x308]);
    (0x1E98, [0x57; 0x30A]); (0x1E99, [0x59; 0x30A]); (0x1E9A, [0x41; 0x2BE]);
    (0x1F50, [0x3A5; 0x313]); (0x1F52, [0x3A5; 0x313; 0x300]);
    (0x1F54, [0x3A5; 0x313; 0x301]); (0x1F56, [0x3A5; 0x313; 0x342]);
    (0x1F80, [0x1F08; 0x399]); (0x1F81, [0x1F09; 0x399]);
    (0x1F82, [0x1F0A; 0x399]); (0x1F83, [0x1F0B; 0x399]);
    (0x1F84, [0x1F0C; 0x399]); (0x1F85, [0x1F0D; 0x399]);
    (0x1F86, [0x1F0E; 0x399]); (0x1F87, [0x1F0F; 0x399]);
    (0x1F88, [0x1F08; 0x399]); (0x1F89, [0x1F09; 0x399]);
    (0x1F8A, [0x1F0A; 0x399]); (0x1F8B, [0x1F0B; 0x399]);
    (0x1F8C, [0x1F0C; 0x399]); (0x1F8D, [0x1F0D; 0x399]);
    (0x1F8E, [0x1F0E; 0x399]); (0x1F8F, [0x1F0F; 0x399]);
    (0x1F90, [0x1F28; 0x399]); (0x1F91, [0x1F29; 0x399]);
    (0x1F92, [0x1F2A; 0x399]); (0x1F93, [0x1F2B; 0x399]);
    (0x1F94, [0x1F2C; 0x399]); (0x1F95, [0x1F2D; 0x399]);
    (0x1F96, [0x1F2E; 0x399]); (0x1F97, [0x1F2F; 0x399]);
    (0x1F98, [0x1F28; 0x399]); (0x1F99, [0x1F29; 0x399]);
    (0x1F9A, [0x1F2A; 0x399]); (0x1F9B, [0x1F2B; 0x399]);
    (0x1F9C, [0x1F2C; 0x399]); (0x1F9D, [0x1F2D; 0x399]);
    (0x1F9E, [0x1F2E; 0x399]); (0x1F9F, [0x1F2F; 0x399]);
    (0x1FA0, [0x1F68; 0x399]); (0x1FA1, [0x1F69; 0x399]);
    (0x1FA2, [0x1F6A; 0x399]); (0x1FA3, [0x1F6B; 0x399]);
    (0x1FA4, [0x1F6C; 0x399]); (0x1FA5, [0x1F6D; 0x399]);
    (0x1FA6, [0x1F6E; 0x399]); (0x1FA7, [0x1F6F; 0x399]);
    (0x1FA8, [0x1F68; 0x399]); (0x1FA9, [0x1F69; 0x399]);
    (0x1FAA, [0x1F6A; 0x399]); (0x1FAB, [0x1F6B; 0x399]);
    (0x1FAC, [0x1F6C; 0x399]); (0x1FAD, [0x1F6D; 0x399]);
    (0x1FAE, [0x1F6E; 0x399]); (0x1FAF, [0x1F6F; 0x399]);
    (0x1FB2, [0x1FBA; 0x399]); (0x1FB3, [0x391; 0x399]);
    (0x1FB4, [0x386; 0x399]); (0x1FB6, [0x391; 0x342]);
    (0x1FB7, [0x391; 0x342; 0x399]); (0x1FBC, [0x391; 0x399]);
    (0x1FC2, [0x1FCA; 0x399]); (0x1FC3, [0x397; 0x399]);
    (0x1FC4, [0x389; 0x399]); (0x1FC6, [0x397; 0x342]);
    (0x1FC7, [0x397; 0x342; 0x399]); (0x1FCC, [0x397; 0x399]);
    (0x1FD2, [0x399; 0x308; 0x300]); (0x1FD3, [0x399; 0x308; 0x301]);
    (0x1FD6, [0x399; 0x342]); (0x1FD7, [0x399; 0x308; 0x342]);
    (0x1FE2, [0x3A5; 0x308; 0x300]); (0x1FE3, [0x3A5; 0x308; 0x301]);
    (0x1FE4, [0x3A1; 0x313]); (0x1FE6, [0x3A5; 0x342]);
    (0x1FE7, [0x3A5; 0x308; 0x342]); (0x1FF2, [0x1FFA; 0x399]);
    (0x1FF3, [0x3A9; 0x399]); (0x1FF4, [0x38F; 0x399]);
    (0x1FF6, [0x3A9; 0x342]); (0x1FF7, [0x3A9; 0x342; 0x399]);
    (0x1FFC, [0x3A9; 0x399]); (0xFB00, [0x46; 0x46]); (0xFB01, [0x46; 0x49]);
    (0xFB02, [0x46; 0x4C]); (0xFB03, [0x46; 0x46; 0x49]);
    (0xFB04, [0x46; 0x46; 0x4C]); (0xFB05, [0x53; 0x54]);
    (0xFB06, [0x53; 0x54]); (0xFB13, [0x544; 0x546]);
    (0xFB14, [0x544; 0x535]); (0xFB15, [0x544; 0x53B]);
    (0xFB16, [0x54E; 0x546]); (0xFB17, [0x544; 0x53D]) ].

(** [_PyUnicode_ToUpperFull] *)
Definition upper_cp (c : N) : list N :=
  match find (fun p => fst p =? c) upper_special with
  | Some p => snd p
  | None =>
    match find_run c upper_runs with
    | Some d => [d]
    | None => [c]
    end
  end.

(** [str.upper()] *)
Definition upper (s : str) : str := flat_map upper_cp s.

Section Responses.
Context {R : Repr} {F : Fuzz}.

(** The response [chat] builds once the reload has returned. *)
Definition respond (kb : list dict) (message : str) : response :=
  let user_text := lower (strip message) in
  if is_empty user_text then ASK_FOR_QUESTION
  else
    let '((s1, item1), (s2, _)) := top2_match kb user_text in
    match item1 with
    | Some it =>
      if item_truthy item1 && Qle_bool THRESHOLD s1
         && Qle_bool MARGIN (s1 - s2)
      then accepted s1 it
      else CLARIFY
    | None => CLARIFY
    end.

End Responses.

(** ** Closed inputs *)

(** Stand-ins for the library parameters in closed examples.  None of the
    examples stringifies a float or a container; the ratio stand-in gives
    100 to identical strings, as [rapidfuzz] does, and 0 to all others. *)
Definition example_repr : Repr := {| py_repr := fun _ => [] |}.

Definition example_fuzz : Fuzz :=
  {| token_set_ratio := fun a b => if str_eqb a b then 100%Q else 0%Q;
     partial_ratio := fun a b => if str_eqb a b then 100%Q else 0%Q |}.

(** A ratio stand-in that gives 100 to a query that occurs in the text of
    the entry, as [partial_ratio] does, and 0 to all others. *)
Definition infix_fuzz : Fuzz :=
  {| token_set_ratio := fun a b => if str_eqb a b then 100%Q else 0%Q;
     partial_ratio := fun a b => if str_in a b then 100%Q else 0%Q |}.

(** A state left by an earlier successful load, at modification time 1. *)
Definition stale_state : state :=
  {| KB := [ [ (lit "id", VInt 1);
               (lit "title", VStr (lit "qulaq"));
               (lit "topic", VStr []);
               (lit "keywords", VStrs [lit "səs"]);
               (lit "text", VStr (lit "Cavab A"));
               (lit "source", VStr (lit "items")) ] ];
     UI := VDict [(lit "botName", VStr (lit "A"))];
     MTIME := 1%Q |}.

(** The file has changed and now reads
    [{"ui": {"botName": "B"}, "items": [1]}]. *)
Definition bad_items_world : world :=
  {| getmtime := Ok 2%Q;
     json_load :=
       Ok (VDict [ (lit "ui", VDict [(lit "botName", VStr (lit "B"))]);
                   (lit "items", VList [VInt 1]) ]) |}.

(** The file has changed and now reads [{"items": [{"title": "qulaq"}]}]. *)
Definition untexted_world : world :=
  {| getmtime := Ok 2%Q;
     json_load :=
       Ok (VDict [ (lit "items",
                    VList [VDict [(lit "title", VStr (lit "qulaq"))]]) ]) |}.

(** The file has changed and is not a JSON document. *)
Definition malformed_world : world :=
  {| getmtime := Ok 2%Q; json_load := Raise JSONDecodeError |}.

(** [os.path.getmtime] fails with a permission error. *)
Definition unreadable_world : world :=
  {| getmtime := Raise PermissionError; json_load := Raise PermissionError |}.

(** The file does not exist. *)
Definition missing_world : world :=
  {| getmtime := Raise FileNotFoundError;
     json_load := Raise FileNotFoundError |}.

(** The state the loader leaves on [untexted_world]. *)
Definition untexted_state : state :=
  {| KB := [ [ (lit "id", VNone);
               (lit "title", VStr (lit "qulaq"));
               (lit "topic", VStr []);
               (lit "keywords", VList []);
               (lit "text", VStr []);
               (lit "source", VStr (lit "items")) ] ];
     UI := VDict [];
     MTIME := 2%Q |}.

(** A state left by a load at modification time 1, whose one entry is
    about light. *)
Definition light_state : state :=
  {| KB := [ [ (lit "id", VInt 2);
               (lit "title", VStr (lit "ışıq"));
               (lit "topic", VStr []);
               (lit "keywords", VStrs []);
               (lit "text", VStr (lit "Cavab C"));
               (lit "source", VStr (lit "items")) ] ];
     UI := VDict [];
     MTIME := 1%Q |}.

Definition light_entry : dict := nth 0 (KB light_state) [].

(** The file is unchanged since the load that left [stale_state]. *)
Definition cached_world : world :=
  {| getmtime := Ok 1%Q; json_load := Raise OSError |}.

(* ================================================================== *)
(** * The [/config] and [/health] handlers *)
(* ================================================================== *)

Record config_response : Type := mkConfig {
  botName : pyval;
  subtitle : pyval;
  welcomeMessage : pyval;
  inputPlaceholder : pyval;
  buttonText : pyval
}.

Record health_response : Type := mkHealth {
  ok : bool;
  data_path : str;
  kb_items_count : nat
}.

Section Handlers.
Context {R : Repr}.

(** [DATA_PATH] is fixed when the module is imported, from the location of
    the module and a test of the file system. *)
Variable DATA_PATH : str.

(** [config()] *)
Definition config (w : world) : M config_response :=
  (load_json w ;;
   st <- read ;;
   v1 <- lift (py_get (UI st) (lit "botName")
                 (VStr (lit "Autism Support Chatbot"))) ;;
   v2 <- lift (py_get (UI st) (lit "subtitle")
                 (VStr (lit "Rəsmi dəstək • Praktik cavablar"))) ;;
   v3 <- lift (py_get (UI st) (lit "welcomeMessage")
                 (VStr (lit "Salam. Suallarınızı yaza bilərsiniz — mən addım-addım cavablandıracağam."))) ;;
   v4 <- lift (py_get (UI st) (lit "inputPlaceholder")
                 (VStr (lit "Mesajınızı yazın..."))) ;;
   v5 <- lift (py_get (UI st) (lit "buttonText") (VStr (lit "Chat"))) ;;
   ret {| botName := v1;
          subtitle := v2;
          welcomeMessage := v3;
          inputPlaceholder := v4;
          buttonText := v5 |})%py.

(** [health()] *)
Definition health (w : world) : M health_response :=
  (load_json w ;;
   st <- read ;;
   ret {| ok := true;
          data_path := DATA_PATH;
          kb_items_count := length (KB st) |})%py.

End Handlers.

(** The literal defaults of [config]. *)
Definition config_defaults : config_response :=
  {| botName := VStr (lit "Autism Support Chatbot");
     subtitle := VStr (lit "Rəsmi dəstək • Praktik cavablar");
     welcomeMessage :=
       VStr (lit "Salam. Suallarınızı yaza bilərsiniz — mən addım-addım cavablandıracağam.");
     inputPlaceholder := VStr (lit "Mesajınızı yazın...");
     buttonText := VStr (lit "Chat") |}.

(** The answer [config] gives from a UI mapping [d]. *)
Definition config_of (d : dict) : config_response :=
  {| botName := get d (lit "botName") (botName config_defaults);
     subtitle := get d (lit "subtitle") (subtitle config_defaults);
     welcomeMessage :=
       get d (lit "welcomeMessage") (welcomeMessage config_defaults);
     inputPlaceholder :=
       get d (lit "inputPlaceholder") (inputPlaceholder config_defaults);
     buttonText := get d (lit "buttonText") (buttonText config_defaults) |}.

(* ================================================================== *)
(** * Vocabulary of the further properties *)
(* ================================================================== *)

(** A string whose every code point is its own lower-case form. *)
Definition lowercase (s : str) : Prop :=
  Forall (fun d => lower_cp d = [d]) s.

(** The strict order [sorted] puts strings in. *)
Definition str_lt (a b : str) : Prop := str_compare a b = Lt.

(** Strictly increasing, hence without duplicates. *)
Inductive increasing : list str -> Prop :=
| incr_nil : increasing []
| incr_cons (a : str) (l : list str) :
    Forall (str_lt a) l -> increasing l -> increasing (a :: l).

(** A word the title pattern matches: three or more class characters. *)
Definition title_word (w : str) : Prop :=
  (3 <= length w)%nat /\ Forall (fun c => is_title_cp c = true) w.

(** Every trigger string of the key bank. *)
Definition keybank_triggers : list str := flat_map snd KEYBANK.

Definition phrase_tags : list str :=
  [lit "qulaqlarını tutub ağlayır"; lit "qulaqlarini tutub aglayir"].

(** The base similarity of a query and an entry:
    [float(max(s1, s2))]. *)
Definition base_score {R : Repr} {F : Fuzz} (user_text : str) (item : dict)
  : Q :=
  fl64 (Qmax (token_set_ratio user_text (build_query_text item))
             (partial_ratio user_text (build_query_text item))).

(** The spacing of the binary64 numbers between 64 and 128. *)
Definition ulp_64_128 : Q := (2 ^ (-46))%Q.

(** An entry the scorer does not skip. *)
Definition scorable {R : Repr} (item : dict) : Prop :=
  build_query_text item <> [].

(** The text value [item_entry] copies from an element of [items]. *)
Definition item_text (it : pyval) : pyval :=
  match it with
  | VDict d => get d (lit "text") (VStr [])
  | _ => VNone
  end.

(** ** Closed inputs of the further properties *)

(** The entry of [stale_state], and a query equal to its query text. *)
Definition stale_entry : dict := nth 0 (KB stale_state) [].

Definition dominant_query : str := lit "qulaq  səs cavab a".

(** A ratio stand-in that finds the same similarity everywhere. *)
Definition constant_fuzz (r : Q) : Fuzz :=
  {| token_set_ratio := fun _ _ => r; partial_ratio := fun _ _ => 0%Q |}.

(** An entry with four tags, and a query in which all four occur. *)
Definition tagged_entry : dict :=
  [ (lit "id", VInt 3);
    (lit "title", VStr (lit "t"));
    (lit "topic", VStr []);
    (lit "keywords", VStrs [lit "a"; lit "b"; lit "c"; lit "d"]);
    (lit "text", VStr (lit "Cavab T"));
    (lit "source", VStr (lit "items")) ].

Definition tagged_query : str := lit "a b c d".

(** A state left by a load at modification time 1, with that entry. *)
Definition tagged_state : state :=
  {| KB := [tagged_entry]; UI := VDict []; MTIME := 1%Q |}.

(** The file has changed and now reads [{"ui": [1]}]. *)
Definition listed_ui_world : world :=
  {| getmtime := Ok 2%Q;
     json_load := Ok (VDict [(lit "ui", VList [VInt 1])]) |}.

(** A problem with a title and a description of two long paragraphs. *)
Definition sample_problem : dict :=
  [ (lit "id", VInt 7);
    (lit "title", VStr (lit "Səs-küy"));
    (lit "description", VStr two_paragraphs) ].

(** The shape of the dictionaries [load_json] appends: the six fields every
    entry has, a keyword list made of strings, and one of the two source
    tags. *)
Definition entry_shape (e : dict) : Prop :=
  Forall (fun key => has_key e (lit key) = true)
         [ "id"; "title"; "topic"; "keywords"; "text"; "source" ]%string
  /\ (exists tags, get e (lit "keywords") VNone = VStrs tags)
  /\ (get e (lit "source") VNone = VStr (lit "items")
      \/ get e (lit "source") VNone = VStr (lit "problems")).

(* ================================================================== *)
(** * The embedding on sample inputs *)
(* ================================================================== *)

Example lit_schwa : lit "səs" = [115; 601; 115].
Proof. reflexivity. Qed.

Example lower_azeri : lower (lit "QULAĞ İ Ə") = lit "qulağ i̇ ə".
Proof. vm_compute. reflexivity. Qed.

Example lower_scripts :
  lower (lit "ПРИВЕТ ΣΟΦΟΣ Ǆ") = lit "привет σοφος ǆ"
  /\ lower (lit "ƎL Ǆ") = lit "ǝl ǆ".
Proof. split; vm_compute; reflexivity. Qed.

(** Capital sigma: final after a cased letter, also across an apostrophe
    or a combining accent; not final before a cased letter, nor alone. *)
Example lower_sigma :
  lower (lit "ΑΣ") = lit "ας"
  /\ lower (lit "Σ") = lit "σ"
  /\ lower (lit "ΑΣ'Α Σ. ΑΣ́") = lit "ασ'α σ. ας́".
Proof. repeat split; vm_compute; reflexivity. Qed.

Example norm_list_scripts :
  @norm_list example_repr (VStrs [lit " ƎL Ǆ "; lit "ПРИВЕТ"])
  = [lit "ǝl ǆ"; lit "привет"].
Proof. vm_compute. reflexivity. Qed.

Example build_query_text_scripts :
  @build_query_text example_repr
     [ (lit "title", VStr (lit "ПРИВЕТ ΣΟΦΟΣ Ǆ")) ]
  = lit "привет σοφος ǆ".
Proof. vm_compute. reflexivity. Qed.

Example upper_ex :
  upper (lit "ışıq") = lit "IŞIQ"
  /\ upper (lit "straße ﬁn ŉ") = lit "STRASSE FIN ʼN".
Proof. split; vm_compute; reflexivity. Qed.

(** The literal [63.46153846153846] as a double, and its sum with the
    bonus [16.0]: the double [79.46153846153845], below the exact sum. *)
Example fl64_literal :
  fl64 (6346153846153846 # 100000000000000)
  = (8931417530241969 # 140737488355328)%Q.
Proof. vm_compute. reflexivity. Qed.

Example fl64_sum :
  fl64 ((8931417530241969 # 140737488355328) + 16)
  = (698951083995451 # 8796093022208)%Q
  /\ (698951083995451 # 8796093022208
      < (8931417530241969 # 140737488355328) + 16)%Q.
Proof. split; vm_compute; reflexivity. Qed.

(** A tie goes to the even significand: the double just below 64 and the
    bonus 16.0 sum to 80.0. *)
Example fl64_tie : fl64 ((64 - 2 ^ (-47)) + 16) = 80%Q.
Proof. vm_compute. reflexivity. Qed.

Example fl64_subnormal :
  fl64 (3 * 2 ^ (-1075)) = (2 ^ (-1073))%Q /\ fl64 (2 ^ (-1075)) = 0%Q.
Proof. split; vm_compute; reflexivity. Qed.

Example score_item_rounds :
  @score_item example_repr
     (constant_fuzz (6346153846153846 # 100000000000000))
     tagged_query tagged_entry
  = Some ((698951083995451 # 8796093022208)%Q, tagged_entry, 4%nat).
Proof. vm_compute. reflexivity. Qed.

(** The double just below 64 is enough for an answer when four tags
    match: the sum with the bonus rounds to the threshold. *)
Example chat_accepts_rounded_sum :
  @chat example_repr (constant_fuzz (64 - 2 ^ (-47))) cached_world
     tagged_query tagged_state
  = (Ok (accepted 80%Q tagged_entry), tagged_state).
Proof. vm_compute. reflexivity. Qed.

Example strip_ex : strip (lit "  a b 	") = lit "a b".
Proof. reflexivity. Qed.

Example str_of_Z_ex : str_of_Z 120 = lit "120" /\ str_of_Z (-7) = lit "-7".
Proof. split; reflexivity. Qed.

Example extract_keywords_ex :
  extract_keywords (VStr (lit "Səs-küy və qulaq"))
                   (lit "Uşaq qulaqlarını tutub ağlayır, tozsoran səsi")
  = Ok (List.map lit
          [ "küy"; "qulaq"; "qulaqlar"; "qulaqlarini tutub aglayir";
            "qulaqlarını tutub ağlayır"; "səs"; "səs-küy";
            "tozsoran" ]%string).
Proof. vm_compute. reflexivity. Qed.

(* ================================================================== *)
(** * Properties of the text primitives *)
(* ================================================================== *)

Lemma lstrip_all_space (s : str) : all_space s = true -> lstrip s = [].
Proof.
  induction s as [|c r IH]; simpl; [reflexivity|].
  intros H. apply andb_true_iff in H as [Hc Hr].
  rewrite Hc. auto.
Qed.

Lemma lstrip_app_space (l s : str) :
  all_space l = true -> lstrip (l ++ s) = lstrip s.
Proof.
  induction l as [|c r IH]; simpl; [reflexivity|].
  intros H. apply andb_true_iff in H as [Hc Hr].
  rewrite Hc. auto.
Qed.

Lemma lstrip_app (s r : str) :
  lstrip (s ++ r) = match lstrip s with [] => lstrip r | _ => lstrip s ++ r end.
Proof.
  induction s as [|c s IH]; simpl.
  - destruct (lstrip r); reflexivity.
  - destruct (is_space c); [exact IH | reflexivity].
Qed.

Lemma lstrip_idem (s : str) : lstrip (lstrip s) = lstrip s.
Proof.
  induction s as [|c r IH]; simpl; [reflexivity|].
  destruct (is_space c) eqn:E; [exact IH|].
  simpl. rewrite E. reflexivity.
Qed.

Lemma all_space_rev (s : str) : all_space (rev s) = all_space s.
Proof.
  unfold all_space. induction s as [|c r IH]; simpl; [reflexivity|].
  rewrite forallb_app, IH. simpl. rewrite andb_true_r. apply andb_comm.
Qed.

Lemma rstrip_app_space (s r : str) :
  all_space r = true -> rstrip (s ++ r) = rstrip s.
Proof.
  intros H. unfold rstrip. rewrite rev_app_distr, lstrip_app_space; auto.
  now rewrite all_space_rev.
Qed.

Lemma rstrip_all_space (s : str) : all_space s = true -> rstrip s = [].
Proof.
  intros H. unfold rstrip. rewrite lstrip_all_space; auto.
  now rewrite all_space_rev.
Qed.

(** [lstrip] returns a suffix, [rstrip] a prefix. *)
Lemma lstrip_suffix (s : str) :
  exists l, all_space l = true /\ s = l ++ lstrip s.
Proof.
  induction s as [|c r [l [Hl IH]]]; simpl.
  - exists []. auto.
  - destruct (is_space c) eqn:E.
    + exists (c :: l). simpl. unfold all_space in *. simpl.
      rewrite E, Hl. split; [reflexivity | congruence].
    + exists []. auto.
Qed.

Lemma rstrip_prefix (s : str) :
  exists r, all_space r = true /\ s = rstrip s ++ r.
Proof.
  destruct (lstrip_suffix (rev s)) as [l [Hl E]].
  exists (rev l). split.
  - now rewrite all_space_rev.
  - unfold rstrip. rewrite <- rev_app_distr, <- E. now rewrite rev_involutive.
Qed.

Lemma strip_decompose (s : str) :
  exists l r, all_space l = true /\ all_space r = true
              /\ s = l ++ strip s ++ r.
Proof.
  destruct (lstrip_suffix s) as [l [Hl El]].
  destruct (rstrip_prefix (lstrip s)) as [r [Hr Er]].
  exists l, r. repeat split; auto.
  unfold strip. rewrite <- Er. exact El.
Qed.

Lemma lstrip_head (s : str) :
  lstrip s = s <-> match s with [] => True | c :: _ => is_space c = false end.
Proof.
  destruct s as [|c r]; simpl; [tauto|].
  destruct (is_space c) eqn:E.
  - split; [|discriminate]. intros H.
    destruct (lstrip_suffix r) as [l [_ El]].
    assert (Hlen : length (lstrip r) = S (length r)) by (rewrite H; reflexivity).
    rewrite El in Hlen at 2. rewrite length_app in Hlen. lia.
  - tauto.
Qed.

(** Removing trailing whitespace keeps a non-whitespace first character. *)
Lemma lstrip_rstrip (s : str) : lstrip s = s -> lstrip (rstrip s) = rstrip s.
Proof.
  intros H. destruct (rstrip_prefix s) as [r [Hr E]].
  destruct (rstrip s) as [|c t] eqn:Ers; [reflexivity|].
  apply lstrip_head. apply lstrip_head in H.
  rewrite E in H. simpl in H. exact H.
Qed.

Lemma strip_stripped (s : str) : stripped (strip s).
Proof.
  unfold stripped, strip. split.
  - apply lstrip_rstrip, lstrip_idem.
  - unfold rstrip. rewrite rev_involutive. apply lstrip_idem.
Qed.

Lemma stripped_strip (s : str) : stripped s -> strip s = s.
Proof.
  intros [H1 H2]. unfold strip, rstrip. rewrite H1, H2. apply rev_involutive.
Qed.

Lemma strip_idem (s : str) : strip (strip s) = strip s.
Proof. apply stripped_strip, strip_stripped. Qed.

Lemma strip_all_space (s : str) : all_space s = true -> strip s = [].
Proof.
  intros H. unfold strip. rewrite lstrip_all_space; auto.
Qed.

Lemma strip_nil_all_space (s : str) : strip s = [] -> all_space s = true.
Proof.
  intros H. destruct (strip_decompose s) as [l [r [Hl [Hr E]]]].
  rewrite H in E. simpl in E. subst s. unfold all_space in *.
  rewrite forallb_app. now rewrite Hl, Hr.
Qed.

(** Surrounding whitespace does not change what [strip] returns. *)
Lemma strip_pad (l c r : str) :
  all_space l = true -> all_space r = true -> strip (l ++ c ++ r) = strip c.
Proof.
  intros Hl Hr. unfold strip.
  rewrite lstrip_app_space by assumption.
  rewrite lstrip_app. destruct (lstrip c) as [|x t] eqn:E.
  - rewrite (lstrip_all_space r Hr). reflexivity.
  - now rewrite rstrip_app_space.
Qed.

(** ** The case table *)

Lemma str_eqb_eq (a b : str) : str_eqb a b = true <-> a = b.
Proof.
  unfold str_eqb. destruct (list_eq_dec N.eq_dec a b); split;
    congruence || auto.
Qed.

Lemma str_eqb_refl (a : str) : str_eqb a a = true.
Proof. now apply str_eqb_eq. Qed.

Lemma run_points_spec (first last step target c : N) :
  in_range first last c = true -> (c - first) mod step = 0 ->
  In c (run_points (first, last, step, target)).
Proof.
  unfold in_range, run_points. intros Hr Hm.
  apply andb_true_iff in Hr as [H1 H2]. apply N.leb_le in H1, H2.
  apply in_map_iff. exists (N.to_nat ((c - first) / step)). split.
  - rewrite N2Nat.id.
    pose proof (N.div_mod' (c - first) step) as D. rewrite Hm in D.
    generalize dependent (step * ((c - first) / step)). intros; lia.
  - assert (D : (c - first) / step <= (last - first) / step)
      by (apply N.Div0.div_le_mono; lia).
    apply (proj2 (in_seq _ _ _)).
    generalize dependent ((c - first) / step).
    generalize ((last - first) / step). intros; lia.
Qed.

Lemma find_run_keys (c d : N) (runs : list (N * N * N * N)) :
  find_run c runs = Some d -> In c (flat_map run_points runs).
Proof.
  induction runs as [|[[[first last] step] target] rest IH];
    cbn [find_run flat_map]; [discriminate|].
  intros H. apply in_or_app.
  destruct (in_range first last c && ((c - first) mod step =? 0)) eqn:E.
  - left. apply andb_true_iff in E as [E1 E2]. apply N.eqb_eq in E2.
    now apply run_points_spec.
  - right. now apply IH.
Qed.

Lemma lower_cp_cases (c : N) : lower_cp c = [c] \/ In c lower_keys.
Proof.
  unfold lower_cp, lower_keys. destruct (c =? 0x130) eqn:E.
  - right. left. symmetry. now apply N.eqb_eq.
  - destruct (find_run c lower_runs) as [d|] eqn:F.
    + right. right. now apply find_run_keys with d.
    + now left.
Qed.

(** A property of single code points holds everywhere once it is checked on
    the code points of the table and shown of those the table leaves
    alone. *)
Lemma by_table (P : N -> bool) :
  forallb P lower_keys = true ->
  (forall c, lower_cp c = [c] -> P c = true) ->
  forall c, P c = true.
Proof.
  intros Hkeys Hfix c. destruct (lower_cp_cases c) as [H|H].
  - now apply Hfix.
  - eapply forallb_forall in Hkeys; [exact Hkeys | exact H].
Qed.

(** Every code point [lower_cp] produces is itself in lower case. *)
Lemma lower_cp_lowered (c d : N) : In d (lower_cp c) -> lower_cp d = [d].
Proof.
  revert d.
  assert (H : forallb lowered (lower_cp c) = true).
  { revert c. apply by_table; [vm_compute; reflexivity|].
    intros c Hc. rewrite Hc. cbn [forallb]. unfold lowered.
    rewrite Hc. now rewrite str_eqb_refl. }
  intros d Hd. eapply forallb_forall in H; [|exact Hd].
  now apply str_eqb_eq.
Qed.

(** Whitespace has no case, and lowering a character that is not whitespace
    produces at least one character and no whitespace. *)
Lemma lower_cp_space (c : N) :
  (if is_space c then str_eqb (lower_cp c) [c]
   else negb (is_empty (lower_cp c))
        && forallb (fun d => negb (is_space d)) (lower_cp c)) = true.
Proof.
  revert c. apply by_table; [vm_compute; reflexivity|].
  intros c Hc. rewrite Hc. cbn [is_empty forallb negb andb].
  rewrite str_eqb_refl. destruct (is_space c); reflexivity.
Qed.

Lemma lower_cp_of_space (c : N) : is_space c = true -> lower_cp c = [c].
Proof.
  intros H. generalize (lower_cp_space c). rewrite H. apply str_eqb_eq.
Qed.

Lemma lower_cp_of_letter (c : N) :
  is_space c = false ->
  lower_cp c <> [] /\ Forall (fun d => is_space d = false) (lower_cp c).
Proof.
  intros H. generalize (lower_cp_space c). rewrite H.
  intros E. apply andb_true_iff in E as [E1 E2]. split.
  - destruct (lower_cp c); [discriminate | congruence].
  - apply Forall_forall. intros d Hd.
    eapply forallb_forall in E2; [|exact Hd].
    now destruct (is_space d).
Qed.

(** ** Capital sigma *)

Lemma lowered_not_sigma (d : N) : lower_cp d = [d] -> (d =? SIGMA) = false.
Proof.
  intros H. apply N.eqb_neq. intros ->. vm_compute in H. discriminate.
Qed.

Lemma lower_at_lowered (before after : str) (c d : N) :
  In d (lower_at before c after) -> lower_cp d = [d].
Proof.
  unfold lower_at. destruct (c =? SIGMA).
  - destruct (final_sigma before after); intros [<-|[]];
      vm_compute; reflexivity.
  - apply lower_cp_lowered.
Qed.

Lemma lower_at_fixed (before after : str) (c : N) :
  lower_cp c = [c] -> lower_at before c after = [c].
Proof.
  intros H. unfold lower_at. now rewrite (lowered_not_sigma H).
Qed.

Lemma lower_at_of_letter (before after : str) (c : N) :
  is_space c = false ->
  lower_at before c after <> []
  /\ Forall (fun d => is_space d = false) (lower_at before c after).
Proof.
  intros H. unfold lower_at. destruct (c =? SIGMA).
  - split; [discriminate|].
    destruct (final_sigma before after); constructor;
      solve [vm_compute; reflexivity | constructor].
  - now apply lower_cp_of_letter.
Qed.

Lemma lower_at_nonempty (before after : str) (c : N) :
  lower_at before c after <> [].
Proof.
  destruct (is_space c) eqn:E.
  - rewrite (@lower_at_fixed before after c (lower_cp_of_space _ E)).
    discriminate.
  - now apply lower_at_of_letter.
Qed.

(** ** [lower] *)

Lemma lower_go_lowercase (before s : str) :
  Forall (fun d => lower_cp d = [d]) (lower_go before s).
Proof.
  revert before. induction s as [|c r IH]; intros before;
    cbn [lower_go]; [constructor|].
  apply Forall_app. split; [|apply IH].
  apply Forall_forall. intros d Hd. now apply lower_at_lowered in Hd.
Qed.

Lemma lower_go_fixed (before s : str) :
  Forall (fun d => lower_cp d = [d]) s -> lower_go before s = s.
Proof.
  intros H. revert before. induction H as [|c r Hc _ IH]; intros before;
    cbn [lower_go]; [reflexivity|].
  now rewrite (@lower_at_fixed before r c Hc), IH.
Qed.

Lemma lower_idem (s : str) : lower (lower s) = lower s.
Proof. apply lower_go_fixed, lower_go_lowercase. Qed.

Lemma lower_nil_iff (s : str) : lower s = [] <-> s = [].
Proof.
  split; [|intros ->; reflexivity].
  destruct s as [|c r]; [reflexivity|]. unfold lower. cbn [lower_go].
  intros H. apply app_eq_nil in H as [H _].
  now apply lower_at_nonempty in H.
Qed.

(** The last code point of a string lowers at the end of the result. *)
Lemma lower_go_snoc (before s : str) (c : N) :
  exists pre,
    lower_go before (s ++ [c]) = pre ++ lower_at (rev s ++ before) c [].
Proof.
  revert before. induction s as [|x r IH]; intros before.
  - exists []. cbn [lower_go app rev]. now rewrite app_nil_r.
  - destruct (IH (x :: before)) as [pre E].
    exists (lower_at before x (r ++ [c]) ++ pre).
    cbn [lower_go app rev]. rewrite E, <- !app_assoc. reflexivity.
Qed.

(** Lowering keeps a stripped string stripped. *)
Lemma lstrip_lower (s : str) : lstrip s = s -> lstrip (lower s) = lower s.
Proof.
  intros H. apply lstrip_head in H. apply lstrip_head.
  destruct s as [|c r]; [exact I|]. unfold lower. cbn [lower_go].
  destruct (@lower_at_of_letter [] r c H) as [Hne Hall].
  destruct (lower_at [] c r) as [|d t]; [congruence|]. simpl.
  now inversion Hall.
Qed.

Lemma lower_rev_head (s : str) :
  lstrip (rev s) = rev s -> lstrip (rev (lower s)) = rev (lower s).
Proof.
  intros H. apply lstrip_head in H. apply lstrip_head.
  destruct (rev s) as [|c r] eqn:E.
  - apply (f_equal (@rev N)) in E. rewrite rev_involutive in E. subst.
    exact I.
  - apply (f_equal (@rev N)) in E. rewrite rev_involutive in E. subst s.
    cbn [rev]. unfold lower.
    destruct (lower_go_snoc [] (rev r) c) as [pre Ep]. rewrite Ep.
    rewrite rev_app_distr.
    destruct (@lower_at_of_letter (rev (rev r) ++ []) [] c H) as [Hne Hall].
    destruct (rev (lower_at (rev (rev r) ++ []) c [])) as [|d t] eqn:Er.
    + apply (f_equal (@rev N)) in Er. rewrite rev_involutive in Er.
      simpl in Er. congruence.
    + simpl. rewrite Forall_forall in Hall. apply Hall.
      apply in_rev. rewrite Er. now left.
Qed.

Lemma stripped_lower (s : str) : stripped s -> stripped (lower s).
Proof.
  intros [H1 H2]. split; [now apply lstrip_lower | now apply lower_rev_head].
Qed.

(** [s.strip().lower()] is a fixed point of [strip] and of [lower]. *)
Lemma normal_form_fixed (s : str) :
  lower (strip (lower (strip s))) = lower (strip s).
Proof.
  rewrite (stripped_strip (stripped_lower (strip_stripped s))).
  apply lower_idem.
Qed.

(* ================================================================== *)
(** * Text Normalizer: [norm_list] *)
(* ================================================================== *)

Lemma normal_tag_not_blank (s : str) : normal_tag s -> ~ blank s.
Proof.
  intros [Hne Hfix] Hb. unfold blank in Hb. rewrite Hb in Hfix.
  cbv in Hfix. congruence.
Qed.

Section NormList.
Context {R : Repr}.

Lemma normal_tag_intro (s : str) :
  is_empty (lower (strip s)) = false -> normal_tag (lower (strip s)).
Proof.
  intros H. split.
  - intros E. rewrite E in H. discriminate.
  - apply normal_form_fixed.
Qed.

Lemma norm_list_loop_normal (l : list pyval) :
  Forall normal_tag (norm_list_loop l).
Proof.
  induction l as [|v r IH]; simpl; [constructor|].
  destruct v; try exact IH;
    match goal with
    | |- context [is_empty ?s] => destruct (is_empty s) eqn:E
    end; auto using normal_tag_intro.
Qed.

Lemma norm_list_loop_fixed (tags : list str) :
  Forall normal_tag tags -> norm_list_loop (List.map VStr tags) = tags.
Proof.
  induction 1 as [|s r [Hne Hfix] _ IH]; simpl; [reflexivity|].
  rewrite Hfix, IH. destruct s; [congruence | reflexivity].
Qed.

Lemma norm_list_fixed (tags : list str) :
  Forall normal_tag tags -> norm_list (VStrs tags) = tags.
Proof.
  intros H. destruct tags as [|s r]; [reflexivity|].
  unfold norm_list, VStrs. simpl truthy. cbv iota. simpl negb. cbv iota.
  now apply norm_list_loop_fixed.
Qed.

(** Away from strings that are blank without being empty, the output of
    [norm_list] has no blank entry and [norm_list] is idempotent. *)
Lemma norm_list_normal (x : pyval) :
  (forall s, x = VStr s -> s = [] \/ ~ blank s) ->
  Forall normal_tag (norm_list x).
Proof.
  intros Hx. unfold norm_list.
  destruct (truthy x) eqn:T; simpl; [|constructor].
  destruct x; try discriminate;
    try (match goal with
         | |- context [is_empty ?s] => destruct (is_empty s) eqn:E
         end; auto using normal_tag_intro);
    try apply norm_list_loop_normal.
  constructor; [|constructor].
  apply (@normal_tag_intro s).
  destruct (Hx s eq_refl) as [->|Hnb]; [discriminate|].
  destruct (lower (strip s)) eqn:E; [|reflexivity].
  apply (proj1 (lower_nil_iff _)) in E. destruct (Hnb E).
Qed.

Lemma norm_list_idempotent (x : pyval) :
  (forall s, x = VStr s -> s = [] \/ ~ blank s) ->
  norm_list (VStrs (norm_list x)) = norm_list x.
Proof. intros Hx. apply norm_list_fixed, norm_list_normal, Hx. Qed.

(** C4 (the code departs from the claim): on a string made of one space,
    [norm_list] returns a list holding the empty string, and applying
    [norm_list] to that list returns the empty list, so the output has a
    blank entry and the function is not idempotent there. *)
Theorem norm_list_blank_string :
  norm_list (VStr [SP]) = [[]]
  /\ blank (nth 0 (norm_list (VStr [SP])) [SP])
  /\ norm_list (VStrs (norm_list (VStr [SP]))) = []
  /\ norm_list (VStrs (norm_list (VStr [SP]))) <> norm_list (VStr [SP]).
Proof.
  repeat split; try reflexivity. discriminate.
Qed.

End NormList.

(* ================================================================== *)
(** * Chunker: [split_into_chunks] *)
(* ================================================================== *)

Lemma infix_refl (t : str) : infix t t.
Proof. exists [], []. now rewrite app_nil_r. Qed.

Lemma infix_trans (p q t : str) : infix p q -> infix q t -> infix p t.
Proof.
  intros [a [b ->]] [c [d ->]]. exists (c ++ a), (b ++ d).
  now rewrite !app_assoc.
Qed.

Lemma infix_strip (s : str) : infix (strip s) s.
Proof.
  destruct (strip_decompose s) as [l [r [_ [_ E]]]]. now exists l, r.
Qed.

Lemma repeat_snoc {A} (x : A) (n : nat) :
  repeat x (S n) = repeat x n ++ [x].
Proof. induction n as [|n IH]; simpl; [reflexivity|]. now rewrite <- IH. Qed.

Section Split.
Variable k : nat.
Hypothesis k_pos : (1 <= k)%nat.

Lemma run_free_nil : run_free k [].
Proof.
  intros a b E. apply (f_equal (@length N)) in E.
  rewrite !length_app, repeat_length in E. simpl in E. lia.
Qed.

Lemma run_free_snoc (p : str) (c : N) :
  run_free k p -> c <> NL -> run_free k (p ++ [c]).
Proof.
  intros Hp Hc a b E.
  destruct b as [|c' b' _] using rev_ind.
  - destruct k as [|k']; [lia|]. rewrite app_nil_r, repeat_snoc in E.
    rewrite app_assoc in E. apply app_inj_tail in E as [_ E]. congruence.
  - rewrite !app_assoc in E. apply app_inj_tail in E as [E _].
    apply (Hp a b'). now rewrite app_assoc.
Qed.

Lemma run_free_pending (p : str) (n : nat) :
  run_free k p -> ~ ends_with_newline p -> (n < k)%nat ->
  run_free k (p ++ repeat NL n).
Proof.
  intros Hp Hend Hn a b E.
  apply app_eq_app in E as [l [[E1 E2] | [E1 E2]]].
  - apply app_eq_app in E2 as [m [[E3 E4] | [E3 E4]]].
    + assert (Hk : k = (length l + length m)%nat).
      { apply (f_equal (@length N)) in E3.
        now rewrite length_app, repeat_length in E3. }
      apply repeat_eq_app in E3 as [El Em].
      assert (Hm : (length m <= n)%nat).
      { apply (f_equal (@length N)) in E4.
        rewrite length_app, repeat_length in E4. lia. }
      destruct (length l) as [|j] eqn:Hl; [lia|].
      apply Hend. exists (a ++ repeat NL j).
      rewrite E1, <- El, repeat_snoc. now rewrite app_assoc.
    + apply (Hp a m). now rewrite E1, E3.
  - apply (f_equal (@length N)) in E2.
    rewrite !length_app, !repeat_length in E2. lia.
Qed.

Lemma not_ends_snoc (p : str) (c : N) :
  c <> NL -> ~ ends_with_newline (p ++ [c]).
Proof. intros Hc [a E]. apply app_inj_tail in E as [_ E]. congruence. Qed.

Lemma not_ends_nil : ~ ends_with_newline [].
Proof. intros [a E]. destruct a; discriminate. Qed.

(** The splitter meets the specification of a split, from any state it
    can be in: the piece read so far has no run and does not end in a
    newline. *)
Lemma re_split_go_splits (s cur : str) (n : nat) :
  run_free k cur -> ~ ends_with_newline cur ->
  splits k (cur ++ repeat NL n ++ s) (re_split_go k cur n s).
Proof.
  revert cur n. induction s as [|c r IH]; intros cur n Hfree Hend; simpl.
  - rewrite app_nil_r. destruct (Nat.leb_spec k n) as [Hk|Hk].
    + rewrite <- (app_nil_r (repeat NL n)).
      apply splits_cons; auto.
      * intros [b E]. discriminate.
      * apply splits_last, run_free_nil.
    + apply splits_last. now apply run_free_pending.
  - destruct (N.eqb_spec c NL) as [->|Hc].
    + replace (repeat NL n ++ NL :: r) with (repeat NL (S n) ++ r)
        by (rewrite repeat_snoc, <- app_assoc; reflexivity).
      now apply IH.
    + destruct (Nat.leb_spec k n) as [Hk|Hk].
      * apply splits_cons; auto.
        -- intros [b E]. congruence.
        -- apply (IH [c] 0%nat).
           ++ apply (run_free_snoc (p := [])); auto using run_free_nil.
           ++ apply (not_ends_snoc []); auto.
      * replace (cur ++ repeat NL n ++ c :: r)
          with ((cur ++ repeat NL n ++ [c]) ++ repeat NL 0 ++ r)
          by (simpl; rewrite <- !app_assoc; reflexivity).
        apply IH.
        -- rewrite app_assoc. apply run_free_snoc; auto.
           now apply run_free_pending.
        -- rewrite app_assoc. now apply not_ends_snoc.
Qed.

Lemma re_split_newlines_splits (t : str) :
  splits k t (re_split_newlines k t).
Proof.
  apply (re_split_go_splits t (cur := []) 0);
    auto using run_free_nil, not_ends_nil.
Qed.

End Split.

Lemma splits_infix (k : nat) (t : str) (pieces : list str) :
  splits k t pieces -> Forall (fun p => infix p t) pieces.
Proof.
  induction 1 as [p Hp | p n rest pieces Hp He Hn Hs Hrest IH].
  - constructor; [apply infix_refl | constructor].
  - constructor.
    + exists [], (repeat NL n ++ rest). reflexivity.
    + eapply Forall_impl; [|exact IH]. intros q [a [b ->]].
      exists (p ++ repeat NL n ++ a), b. now rewrite <- !app_assoc.
Qed.

Lemma splits_nonempty (k : nat) (t : str) (pieces : list str) :
  splits k t pieces -> pieces <> [].
Proof. destruct 1; discriminate. Qed.

(** The loop of [split_into_chunks] as a filter. *)
Lemma keep_long_filter (parts : list str) :
  keep_long parts
  = filter (fun p => (80 <=? length p)%nat) (List.map strip parts).
Proof.
  induction parts as [|p r IH]; [reflexivity|].
  cbn [keep_long List.map filter]. rewrite IH, Nat.ltb_antisym.
  now destruct (80 <=? length (strip p))%nat.
Qed.

(** C5, as stated, fails: one blank line between two long paragraphs already
    separates them in the code, while a split at runs of two or more blank
    lines keeps the text in one passage. *)
Lemma chunk_one_blank_line :
  split_into_chunks (VStr two_paragraphs) = Ok [repeat 97 80; repeat 98 80]
  /\ chunk_as_specified two_paragraphs = [two_paragraphs]
  /\ ~ (forall text,
          split_into_chunks (VStr text) = Ok (chunk_as_specified text)).
Proof.
  assert (E1 : split_into_chunks (VStr two_paragraphs)
               = Ok [repeat 97 80; repeat 98 80])
    by (vm_compute; reflexivity).
  assert (E2 : chunk_as_specified two_paragraphs = [two_paragraphs])
    by (vm_compute; reflexivity).
  repeat split; auto.
  intros H. specialize (H two_paragraphs). rewrite E1, E2 in H.
  discriminate H.
Qed.

(** C5 (amended): [split_into_chunks] returns nothing on the empty text and
    at least one passage on any other.  With [t] the text after line-ending
    normalisation and trimming, it splits [t] at its maximal runs of two or
    more newline characters (one or more blank lines), trims the parts,
    keeps those of at least 80 characters, and returns [[t]] when none is
    kept; every passage is a contiguous substring of [t]. *)
Theorem split_into_chunks_spec (text : str) :
  split_into_chunks (VStr []) = Ok []
  /\ (text <> [] ->
      let t := strip (replace_crlf text) in
      exists parts chunks,
        split_into_chunks (VStr text) = Ok chunks
        /\ splits 2 t parts
        /\ chunks
           = match filter (fun p => (80 <=? length p)%nat)
                          (List.map strip parts) with
             | [] => [t]
             | kept => kept
             end
        /\ chunks <> []
        /\ Forall (fun c => infix c t) chunks).
Proof.
  split; [reflexivity|]. intros Hne t.
  exists (re_split_newlines 2 t), (chunks_of 2 text).
  assert (Hsplit : splits 2 t (re_split_newlines 2 t))
    by (apply re_split_newlines_splits; lia).
  assert (Hchunks : chunks_of 2 text
                    = match filter (fun p => (80 <=? length p)%nat)
                              (List.map strip (re_split_newlines 2 t)) with
                      | [] => [t]
                      | kept => kept
                      end).
  { unfold chunks_of. fold t. rewrite keep_long_filter.
    now destruct (filter _ _). }
  split; [|split; [exact Hsplit | split; [exact Hchunks|]]].
  - unfold split_into_chunks. destruct text; [congruence | reflexivity].
  - rewrite Hchunks.
    destruct (filter _ _) as [|c kept] eqn:Ek.
    + split; [discriminate|]. constructor; [apply infix_refl | constructor].
    + split; [discriminate|]. rewrite <- Ek. apply Forall_forall.
      intros q Hq. apply filter_In in Hq as [Hq _].
      apply in_map_iff in Hq as [p [<- Hp]].
      apply infix_trans with p; [apply infix_strip|].
      pose proof (splits_infix Hsplit) as Hall.
      rewrite Forall_forall in Hall. now apply Hall.
Qed.

Lemma split_into_chunks_spec_witness :
  lit "salam" <> []
  /\ exists parts chunks,
       split_into_chunks (VStr (lit "salam")) = Ok chunks
       /\ splits 2 (strip (replace_crlf (lit "salam"))) parts
       /\ chunks
          = match filter (fun p => (80 <=? length p)%nat)
                         (List.map strip parts) with
            | [] => [strip (replace_crlf (lit "salam"))]
            | kept => kept
            end
       /\ chunks <> []
       /\ Forall (fun c => infix c (strip (replace_crlf (lit "salam"))))
                 chunks.
Proof.
  split; [discriminate|].
  apply (proj2 (split_into_chunks_spec (lit "salam"))). discriminate.
Defined.

(* ================================================================== *)
(** * Scorer: [top2_match] *)
(* ================================================================== *)

Lemma insert_desc_in (x y : scored_entry) (l : list scored_entry) :
  In x (insert_desc y l) <-> x = y \/ In x l.
Proof.
  induction l as [|z r IH]; simpl.
  - intuition congruence.
  - destruct (Qle_bool (score_of z) (score_of y)); simpl.
    + intuition congruence.
    + rewrite IH. intuition congruence.
Qed.

Lemma sort_desc_in (x : scored_entry) (l : list scored_entry) :
  In x (sort_desc l) <-> In x l.
Proof.
  induction l as [|y r IH]; simpl; [tauto|].
  rewrite insert_desc_in, IH. intuition congruence.
Qed.

Lemma insert_desc_length (y : scored_entry) (l : list scored_entry) :
  length (insert_desc y l) = S (length l).
Proof.
  induction l as [|z r IH]; simpl; [reflexivity|].
  destruct (Qle_bool (score_of z) (score_of y)); simpl; auto.
Qed.

Lemma sort_desc_length (l : list scored_entry) :
  length (sort_desc l) = length l.
Proof.
  induction l as [|y r IH]; simpl; [reflexivity|].
  now rewrite insert_desc_length, IH.
Qed.

Lemma insert_desc_descending (x : scored_entry) (l : list scored_entry) :
  descending l -> descending (insert_desc x l).
Proof.
  induction 1 as [|y|y z l Hzy Hd IH]; simpl.
  - constructor.
  - destruct (Qle_bool (score_of y) (score_of x)) eqn:E.
    + constructor; [now apply Qle_bool_iff | constructor].
    + constructor; [|constructor].
      apply Qlt_le_weak, Qnot_le_lt. intros H.
      apply Qle_bool_iff in H. congruence.
  - destruct (Qle_bool (score_of y) (score_of x)) eqn:E.
    + constructor; [now apply Qle_bool_iff |]. now constructor.
    + simpl in IH. destruct (Qle_bool (score_of z) (score_of x)) eqn:E'.
      * constructor; [|exact IH].
        apply Qlt_le_weak, Qnot_le_lt. intros H.
        apply Qle_bool_iff in H. congruence.
      * now constructor.
Qed.

Lemma sort_desc_descending (l : list scored_entry) :
  descending (sort_desc l).
Proof.
  induction l as [|x r IH]; simpl; [constructor|].
  now apply insert_desc_descending.
Qed.

Section FloatFacts.
Local Open Scope Q_scope.

Lemma pow2_pos (e : Z) : 0 < 2 ^ e.
Proof. now apply Qpower_0_lt. Qed.

Lemma pow2_inject (z : Z) : (0 <= z)%Z -> 2 ^ z == inject_Z (2 ^ z).
Proof. intros H. now rewrite Zpower_Qpower. Qed.

Lemma pow2_add (a b : Z) : 2 ^ (a + b) == 2 ^ a * 2 ^ b.
Proof. now apply Qpower_plus. Qed.

Lemma floor_log2_spec (q : Q) :
  0 < q -> 2 ^ floor_log2 q <= q /\ q < 2 ^ (floor_log2 q + 1).
Proof.
  intros Hq. unfold floor_log2.
  destruct q as [n d]. cbn [Qnum Qden].
  assert (Hn : (0 < n)%Z) by (unfold Qlt in Hq; simpl in Hq; lia).
  set (ln := Z.log2 n). set (ld := Z.log2 (Z.pos d)).
  destruct (Z.log2_spec n Hn) as [Hn1 Hn2]. fold ln in Hn1, Hn2.
  destruct (Z.log2_spec (Z.pos d) (Pos2Z.is_pos d)) as [Hd1 Hd2].
  fold ld in Hd1, Hd2.
  assert (Hln : (0 <= ln)%Z) by apply Z.log2_nonneg.
  assert (Hld : (0 <= ld)%Z) by apply Z.log2_nonneg.
  assert (Eq : n # d == inject_Z n / inject_Z (Z.pos d)) by apply Qmake_Qdiv.
  assert (Hdq : 0 < inject_Z (Z.pos d)) by (unfold Qlt; simpl; lia).
  assert (Hnl : 2 ^ ln <= inject_Z n)
    by (rewrite pow2_inject by lia; now rewrite <- Zle_Qle).
  assert (Hnu : inject_Z n < 2 ^ (ln + 1))
    by (rewrite pow2_inject by lia; rewrite <- Zlt_Qlt;
        now rewrite <- Z.add_1_r in Hn2).
  assert (Hdl : 2 ^ ld <= inject_Z (Z.pos d))
    by (rewrite pow2_inject by lia; now rewrite <- Zle_Qle).
  assert (Hdu : inject_Z (Z.pos d) < 2 ^ (ld + 1))
    by (rewrite pow2_inject by lia; rewrite <- Zlt_Qlt;
        now rewrite <- Z.add_1_r in Hd2).
  assert (U : n # d < 2 ^ (ln - ld + 1)).
  { rewrite Eq. apply Qlt_shift_div_r; [exact Hdq|].
    apply Qlt_le_trans with (2 ^ (ln + 1)); [exact Hnu|].
    replace (ln + 1)%Z with ((ln - ld + 1) + ld)%Z by lia. rewrite pow2_add.
    apply Qmult_le_l; [apply pow2_pos | exact Hdl]. }
  assert (L : 2 ^ (ln - ld - 1) <= n # d).
  { rewrite Eq. apply Qle_shift_div_l; [exact Hdq|].
    apply Qle_trans with (2 ^ ln); [|exact Hnl].
    replace ln with ((ln - ld - 1) + (ld + 1))%Z at 2 by lia.
    rewrite pow2_add.
    apply Qmult_le_l; [apply pow2_pos | now apply Qlt_le_weak]. }
  destruct (Qle_bool (2 ^ (ln - ld)) (n # d)) eqn:E.
  - split; [now apply Qle_bool_iff | exact U].
  - split; [exact L|].
    replace (ln - ld - 1 + 1)%Z with (ln - ld)%Z by lia.
    apply Qnot_le_lt. intros H. apply Qle_bool_iff in H. congruence.
Qed.

Lemma round_half_even_ge (z : Z) (t : Q) :
  inject_Z z <= t -> (z <= round_half_even t)%Z.
Proof.
  intros H. unfold round_half_even.
  assert (Hf : (z <= Qfloor t)%Z).
  { rewrite <- (Qfloor_Z z). now apply Qfloor_resp_le. }
  destruct (t - inject_Z (Qfloor t) ?= 1 # 2); [destruct (Z.even _)| |]; lia.
Qed.

Lemma round_half_even_le (z : Z) (t : Q) :
  t <= inject_Z z -> (round_half_even t <= z)%Z.
Proof.
  intros H. unfold round_half_even.
  assert (Hf : (Qfloor t <= z)%Z).
  { rewrite <- (Qfloor_Z z). now apply Qfloor_resp_le. }
  destruct (Z.eq_dec (Qfloor t) z) as [E|E].
  - assert (Hc : (t - inject_Z (Qfloor t) ?= 1 # 2) = Lt).
    { apply (proj1 (Qlt_alt _ _)). rewrite E. lra. }
    rewrite Hc. lia.
  - destruct (t - inject_Z (Qfloor t) ?= 1 # 2); [destruct (Z.even _)| |];
      lia.
Qed.

(** Rounding does not cross a power of two from above... *)
Lemma fl64_pos_ge_pow2 (k : Z) (q : Q) :
  (-1022 <= k)%Z -> 2 ^ k <= q -> 2 ^ k <= fl64_pos q.
Proof.
  intros Hk H.
  assert (Hq : 0 < q) by (eapply Qlt_le_trans; [apply (pow2_pos k) | exact H]).
  destruct (floor_log2_spec Hq) as [Hl Hu].
  assert (Hke : (k <= floor_log2 q)%Z).
  { assert (Hlt : 2 ^ k < 2 ^ (floor_log2 q + 1))
      by (eapply Qle_lt_trans; eauto).
    apply Qpower_lt_compat_l_inv in Hlt; [lia | reflexivity]. }
  unfold fl64_pos. rewrite Z.max_l by lia.
  set (e := floor_log2 q) in *. rewrite Qred_correct.
  assert (P : 2 ^ e == 2 ^ 52 * 2 ^ (e - 52)).
  { rewrite <- pow2_add. now replace (52 + (e - 52))%Z with e by lia. }
  assert (Hm : (2 ^ 52 <= round_half_even (q / 2 ^ (e - 52)))%Z).
  { apply round_half_even_ge. apply Qle_shift_div_l; [apply pow2_pos|].
    rewrite <- pow2_inject by lia. now rewrite <- P. }
  apply Qle_trans with (2 ^ e).
  - apply Qpower_le_compat_l; [exact Hke | discriminate].
  - rewrite P. apply Qmult_le_compat_r; [|apply Qlt_le_weak, pow2_pos].
    rewrite pow2_inject by lia. now rewrite <- Zle_Qle.
Qed.

Lemma fl64_ge_pow2 (k : Z) (q : Q) :
  (-1022 <= k)%Z -> 2 ^ k <= q -> 2 ^ k <= fl64 q.
Proof.
  intros Hk H.
  assert (Hq : 0 < q) by (eapply Qlt_le_trans; [apply (pow2_pos k) | exact H]).
  unfold fl64. destruct q as [[|p|p] d]; cbn [Qnum]; try (now inversion Hq).
  now apply fl64_pos_ge_pow2.
Qed.

(** ... nor, from below, a number [m * 2 ^ j] that the spacing of the
    doubles around [q] divides. *)
Lemma fl64_pos_le_dyadic (m j : Z) (q : Q) :
  0 < q -> (-1074 <= j)%Z -> q < 2 ^ (j + 53) ->
  q <= inject_Z m * 2 ^ j -> fl64_pos q <= inject_Z m * 2 ^ j.
Proof.
  intros Hq Hj Hu H.
  destruct (floor_log2_spec Hq) as [Hl _].
  assert (He' : (floor_log2 q < j + 53)%Z).
  { assert (Hlt : 2 ^ floor_log2 q < 2 ^ (j + 53))
      by (eapply Qle_lt_trans; eauto).
    apply Qpower_lt_compat_l_inv in Hlt; [lia | reflexivity]. }
  unfold fl64_pos. set (e := Z.max (floor_log2 q) (-1022)).
  assert (He : (e - 52 <= j)%Z) by lia.
  rewrite Qred_correct.
  assert (P : 2 ^ j == inject_Z (2 ^ (j - (e - 52))) * 2 ^ (e - 52)).
  { rewrite <- pow2_inject by lia. rewrite <- pow2_add.
    now replace (j - (e - 52) + (e - 52))%Z with j by lia. }
  assert (Hm : (round_half_even (q / 2 ^ (e - 52))
                <= m * 2 ^ (j - (e - 52)))%Z).
  { apply round_half_even_le. apply Qle_shift_div_r; [apply pow2_pos|].
    rewrite inject_Z_mult, <- Qmult_assoc, <- P. exact H. }
  rewrite P, Qmult_assoc, <- inject_Z_mult.
  apply Qmult_le_compat_r; [|apply Qlt_le_weak, pow2_pos].
  now rewrite <- Zle_Qle.
Qed.

Lemma fl64_pos_nonneg (q : Q) : 0 < q -> 0 <= fl64_pos q.
Proof.
  intros Hq. unfold fl64_pos. rewrite Qred_correct.
  apply Qmult_le_0_compat; [|apply Qlt_le_weak, pow2_pos].
  change 0 with (inject_Z 0). rewrite <- Zle_Qle.
  apply round_half_even_ge. apply Qle_shift_div_l; [apply pow2_pos|].
  change (inject_Z 0) with 0. lra.
Qed.

Lemma fl64_le_dyadic (m j : Z) (q : Q) :
  (0 <= m)%Z -> (-1074 <= j)%Z -> q < 2 ^ (j + 53) ->
  q <= inject_Z m * 2 ^ j -> fl64 q <= inject_Z m * 2 ^ j.
Proof.
  intros Hm Hj Hu H.
  assert (Hr : 0 <= inject_Z m * 2 ^ j).
  { apply Qmult_le_0_compat; [|apply Qlt_le_weak, pow2_pos].
    change 0 with (inject_Z 0). now rewrite <- Zle_Qle. }
  unfold fl64. destruct q as [[|p|p] d] eqn:E; cbn [Qnum].
  - exact Hr.
  - rewrite <- E in *. apply fl64_pos_le_dyadic; auto. now subst.
  - rewrite Qred_correct.
    assert (Hn : 0 <= fl64_pos (- (Z.neg p # d)))
      by now apply fl64_pos_nonneg.
    lra.
Qed.

End FloatFacts.

Lemma overlap_bonus_small :
  overlap_bonus 0 = 0%Q /\ overlap_bonus 1 = 4%Q
  /\ overlap_bonus 2 = 8%Q /\ overlap_bonus 3 = 12%Q.
Proof. now vm_compute. Qed.

Lemma overlap_bonus_cap (a : nat) :
  (4 <= a)%nat -> (overlap_bonus a == 16)%Q.
Proof.
  intros H. unfold overlap_bonus. apply Q.min_r.
  change 16%Q with (2 ^ 4)%Q. apply fl64_ge_pow2; [lia|].
  assert (Ha : (2 ^ 2 <= fl64 (inject_Z (Z.of_nat a)))%Q).
  { apply fl64_ge_pow2; [lia|]. change (2 ^ 2)%Q with (inject_Z 4).
    rewrite <- Zle_Qle. lia. }
  change (2 ^ 4)%Q with (2 ^ 2 * 4)%Q.
  apply Qmult_le_compat_r; [exact Ha | discriminate].
Qed.

Lemma overlap_bonus_le_16 (a : nat) : (overlap_bonus a <= 16)%Q.
Proof. unfold overlap_bonus. apply Q.le_min_r. Qed.

Lemma overlap_bonus_mono (a b : nat) :
  (a <= b)%nat -> (overlap_bonus a <= overlap_bonus b)%Q.
Proof.
  intros H. destruct (le_lt_dec 4 b) as [Hb|Hb].
  - rewrite (overlap_bonus_cap Hb). apply overlap_bonus_le_16.
  - destruct overlap_bonus_small as (E0 & E1 & E2 & E3).
    assert (Cb : (b = 0 \/ b = 1 \/ b = 2 \/ b = 3)%nat) by lia.
    assert (Ca : (a = 0 \/ a = 1 \/ a = 2 \/ a = 3)%nat) by lia.
    destruct Cb as [-> | [-> | [-> | ->]]];
      destruct Ca as [-> | [-> | [-> | ->]]]; try lia;
      rewrite ?E0, ?E1, ?E2, ?E3; discriminate.
Qed.

(** The bonus is exact: rounding never shows in it. *)
Lemma overlap_bonus_exact (a : nat) :
  (overlap_bonus a == inject_Z (Z.min (Z.of_nat a * 4) 16))%Q.
Proof.
  destruct (le_lt_dec 4 a) as [Ha|Ha].
  - rewrite (overlap_bonus_cap Ha), Z.min_r by lia. reflexivity.
  - destruct overlap_bonus_small as (E0 & E1 & E2 & E3).
    assert (Ca : (a = 0 \/ a = 1 \/ a = 2 \/ a = 3)%nat) by lia.
    destruct Ca as [-> | [-> | [-> | ->]]];
      rewrite ?E0, ?E1, ?E2, ?E3; reflexivity.
Qed.

Section ScorerFacts.
Context {R : Repr} {F : Fuzz}.

Lemma build_query_text_empty_dict : build_query_text [] = [].
Proof. reflexivity. Qed.

Lemma score_item_some (u : str) (it : dict) (e : scored_entry) :
  score_item u it = Some e ->
  item_of e = it /\ build_query_text it <> [].
Proof.
  unfold score_item. destruct (build_query_text it) eqn:E; simpl.
  - discriminate.
  - intros H. inversion H. split; [reflexivity | discriminate].
Qed.

Lemma score_all_in (u : str) (kb : list dict) (e : scored_entry) :
  In e (score_all u kb) <->
  exists it, In it kb /\ score_item u it = Some e.
Proof.
  induction kb as [|it r IH]; simpl.
  - split; [tauto | intros [? [[] _]]].
  - destruct (score_item u it) as [e'|] eqn:E; simpl; rewrite ?IH.
    + split.
      * intros [<- | [it' [Hin Hs]]]; eauto.
      * intros [it' [[<- | Hin] Hs]]; [left; congruence | right; eauto].
    + split.
      * intros [it' [Hin Hs]]; eauto.
      * intros [it' [[<- | Hin] Hs]]; [congruence | eauto].
Qed.

(** Whatever fills a slot of the result was scored from an entry of the
    knowledge base. *)
Lemma top_slot_scored (l : list scored_entry) (i : nat) (s : Q) (it : dict) :
  top_slot (nth_error l i) = (s, Some it) ->
  exists e, In e l /\ score_of e = s /\ item_of e = it.
Proof.
  destruct (nth_error l i) as [e|] eqn:E; simpl; [|discriminate].
  intros H. inversion H. exists e. repeat split.
  eapply nth_error_In; eauto.
Qed.

Lemma top2_match_slot (kb : list dict) (u : str) (s : Q) (it : dict) :
  fst (top2_match kb u) = (s, Some it)
  \/ snd (top2_match kb u) = (s, Some it) ->
  In it kb /\ build_query_text it <> []
  /\ exists overlap, score_item u it = Some (s, it, overlap).
Proof.
  unfold top2_match. cbn [fst snd].
  intros [H|H]; apply top_slot_scored in H as [e [Hin [Hs Hi]]];
    apply sort_desc_in, score_all_in in Hin as [it' [Hin Hsc]];
    destruct (score_item_some _ _ Hsc) as [Hit Hq];
    destruct e as [[s' it''] ov]; unfold score_of, item_of in *;
    simpl in *; subst; eauto.
Qed.

(** C2: an entry with a non-empty query text is scored
    [max(token_set_ratio, partial_ratio) + min(overlap * 4.0, 16.0)], less
    [5.0] exactly when the overlap is zero and after the bonus was added,
    each step in binary64 arithmetic, and it enters the ranking of any
    knowledge base that holds it with that score; the bonus is exactly
    [min(4 * overlap, 16)]: it does not decrease when the overlap grows and
    is 16 from an overlap of 4 on. *)
Theorem score_formula (user_text : str) (item : dict) :
  build_query_text item <> [] ->
  let q := build_query_text item in
  let overlap :=
    keyword_overlap user_text
      (norm_list (get item (lit "keywords") VNone)) in
  let bonus (n : nat) :=
    Qmin (fl64 (fl64 (inject_Z (Z.of_nat n)) * 4)%Q) 16%Q in
  let base :=
    fl64 (Qmax (token_set_ratio user_text q) (partial_ratio user_text q)) in
  exists score,
    score_item user_text item = Some (score, item, overlap)
    /\ score = (if (overlap =? 0)%nat
                then fl64 (fl64 (base + bonus overlap) - 5)%Q
                else fl64 (base + bonus overlap)%Q)
    /\ (forall kb, In item kb ->
          In (score, item, overlap) (sort_desc (score_all user_text kb)))
    /\ (forall a b, (a <= b)%nat -> (bonus a <= bonus b)%Q)
    /\ (forall a, (4 <= a)%nat -> (bonus a == 16)%Q)
    /\ (forall a, (bonus a == inject_Z (Z.min (Z.of_nat a * 4) 16))%Q).
Proof.
  intros Hq q overlap bonus base.
  assert (Hs : score_item user_text item
               = Some (if (overlap =? 0)%nat
                       then fl64 (fl64 (base + bonus overlap) - 5)%Q
                       else fl64 (base + bonus overlap)%Q, item, overlap)).
  { unfold score_item. fold overlap. fold q.
    destruct q as [|c r] eqn:Eq; [contradiction|]. reflexivity. }
  eexists. split; [exact Hs|]. split; [reflexivity|].
  split; [|split; [|split]].
  - intros kb Hin. apply sort_desc_in, score_all_in. eauto.
  - exact overlap_bonus_mono.
  - exact overlap_bonus_cap.
  - exact overlap_bonus_exact.
Qed.

End ScorerFacts.

(* ================================================================== *)
(** * Loader and cache: [load_json] *)
(* ================================================================== *)

Lemma rmap_ok {A B} (f : A -> result B) (l : list A) (bs : list B) :
  rmap f l = Ok bs -> Forall2 (fun a b => f a = Ok b) l bs.
Proof.
  revert bs. induction l as [|a r IH]; simpl; intros bs H.
  - inversion H. constructor.
  - destruct (f a) as [b|e] eqn:Ea; simpl in H; [|discriminate].
    destruct (rmap f r) as [bs'|e] eqn:Er; simpl in H; [|discriminate].
    inversion H. constructor; auto.
Qed.

Lemma rmap_ok_forall {A B} (f : A -> result B) (P : B -> Prop)
      (l : list A) (bs : list B) :
  (forall a b, f a = Ok b -> P b) -> rmap f l = Ok bs -> Forall P bs.
Proof.
  intros Hf H. apply rmap_ok in H.
  induction H; constructor; eauto.
Qed.

Section LoaderFacts.
Context {R : Repr}.

Lemma load_json_missing (w : world) (st : state) :
  getmtime w = Raise FileNotFoundError ->
  load_json w st = (Ok tt, initial_state).
Proof. intros H. unfold load_json. rewrite H. reflexivity. Qed.

Lemma load_json_stat_error (w : world) (st : state) (e : exn) :
  getmtime w = Raise e -> e <> FileNotFoundError ->
  load_json w st = (Raise e, st).
Proof.
  intros H He. unfold load_json. rewrite H.
  destruct e; try reflexivity. congruence.
Qed.

Lemma load_json_cached (w : world) (st : state) (mtime : Q) :
  getmtime w = Ok mtime -> Qeq_bool mtime (MTIME st) = true ->
  load_json w st = (Ok tt, st).
Proof.
  intros H E. unfold load_json. rewrite H.
  unfold bind, read. rewrite E. reflexivity.
Qed.

Lemma load_json_changed (w : world) (st : state) (mtime : Q) :
  getmtime w = Ok mtime -> Qeq_bool mtime (MTIME st) = false ->
  load_json w st = reload w mtime st.
Proof.
  intros H E. unfold load_json, reload, parse_kb. rewrite H.
  unfold bind, read, lift, set_UI, set_KB, set_MTIME, with_UI. rewrite E.
  destruct (json_load w) as [data|e]; [|reflexivity].
  destruct (py_get data (lit "ui") (VDict [])) as [ui|e]; [|reflexivity].
  destruct (section_elements data (lit "items")) as [items|e];
    [|reflexivity].
  cbn [rbind].
  destruct (rmap item_entry items) as [kb1|e]; [|reflexivity].
  cbn [rbind].
  destruct (section_elements data (lit "problems")) as [problems|e];
    [|reflexivity].
  cbn [rbind].
  destruct (rmap problem_entries problems) as [kb2|e]; reflexivity.
Qed.

(** Every way a call of [load_json] can end. *)
Lemma load_json_outcome (w : world) (st : state) :
  match getmtime w with
  | Raise FileNotFoundError => load_json w st = (Ok tt, initial_state)
  | Raise e => load_json w st = (Raise e, st)
  | Ok mtime =>
    if Qeq_bool mtime (MTIME st) then load_json w st = (Ok tt, st)
    else load_json w st = reload w mtime st
  end.
Proof.
  destruct (getmtime w) as [mtime|e] eqn:H.
  - destruct (Qeq_bool mtime (MTIME st)) eqn:E.
    + eapply load_json_cached; eauto.
    + now apply load_json_changed.
  - destruct e; try (apply load_json_stat_error; [exact H | discriminate]).
    now apply load_json_missing.
Qed.

(** A reload that raises leaves the entry list and the recorded time as
    they were; if it is the read or the parse of the file that raises, the
    UI mapping as well. *)
Lemma load_json_raise_keeps (w : world) (st st' : state) (e : exn) :
  load_json w st = (Raise e, st') ->
  KB st' = KB st /\ MTIME st' = MTIME st
  /\ (json_load w = Raise e -> st' = st).
Proof.
  intros H. pose proof (load_json_outcome w st) as O.
  destruct (getmtime w) as [mtime|e0].
  - destruct (Qeq_bool mtime (MTIME st)).
    + rewrite O in H. discriminate.
    + rewrite O in H. unfold reload in H.
      destruct (json_load w) as [data|e1].
      * destruct (py_get data (lit "ui") (VDict [])) as [ui|e2].
        -- destruct (parse_kb data) as [kb|e3]; inversion H; subst.
           repeat split. discriminate.
        -- inversion H; subst. auto.
      * inversion H; subst. auto.
  - destruct e0; rewrite O in H; inversion H; subst; auto.
Qed.

Lemma item_entry_has_text (it : pyval) (d : dict) :
  item_entry it = Ok d -> has_text d.
Proof.
  destruct it; try discriminate. unfold item_entry. simpl.
  intros H. inversion H. reflexivity.
Qed.

Lemma chunk_entry_has_text (pid title image : pyval) (ic : nat * str)
      (d : dict) :
  chunk_entry pid title image ic = Ok d -> has_text d.
Proof.
  unfold chunk_entry.
  destruct (extract_keywords title (snd ic)) as [kws|e]; [|discriminate].
  cbn [rbind]. intros H. inversion H. reflexivity.
Qed.

Lemma problem_entries_has_text (p : pyval) (ds : list dict) :
  problem_entries p = Ok ds -> Forall has_text ds.
Proof.
  destruct p; try discriminate. unfold problem_entries. cbn [py_get rbind].
  destruct (split_into_chunks _) as [chunks|e]; [|discriminate].
  cbn [rbind]. apply rmap_ok_forall. apply chunk_entry_has_text.
Qed.

Lemma parse_kb_has_text (data : pyval) (kb : list dict) :
  parse_kb data = Ok kb -> Forall has_text kb.
Proof.
  unfold parse_kb.
  destruct (section_elements data (lit "items")) as [items|e];
    [|discriminate]. cbn [rbind].
  destruct (rmap item_entry items) as [kb1|e] eqn:E1; [|discriminate].
  cbn [rbind].
  destruct (section_elements data (lit "problems")) as [problems|e];
    [|discriminate]. cbn [rbind].
  destruct (rmap problem_entries problems) as [kb2|e] eqn:E2;
    [|discriminate]. cbn [rbind].
  intros H. inversion H. apply Forall_app. split.
  - eapply rmap_ok_forall; [|exact E1]. apply item_entry_has_text.
  - apply Forall_concat. eapply rmap_ok_forall; [|exact E2].
    apply problem_entries_has_text.
Qed.

Lemma load_json_keeps_has_text (w : world) (st st' : state)
      (r : result unit) :
  Forall has_text (KB st) -> load_json w st = (r, st') ->
  Forall has_text (KB st').
Proof.
  intros Hst H. pose proof (load_json_outcome w st) as O.
  destruct (getmtime w) as [mtime|e0].
  - destruct (Qeq_bool mtime (MTIME st)).
    + rewrite O in H. now inversion H; subst.
    + rewrite O in H. unfold reload in H.
      destruct (json_load w) as [data|e1]; [|now inversion H; subst].
      destruct (py_get data (lit "ui") (VDict [])) as [ui|e2];
        [|now inversion H; subst].
      destruct (parse_kb data) as [kb|e3] eqn:Ek; inversion H; subst.
      * now apply parse_kb_has_text with data.
      * exact Hst.
  - destruct e0; rewrite O in H; inversion H; subst; auto; constructor.
Qed.

Lemma reachable_has_text (st : state) :
  reachable st -> Forall has_text (KB st).
Proof.
  induction 1 as [|w st st' r Hr IH Hl]; [constructor|].
  eapply load_json_keeps_has_text; eauto.
Qed.

End LoaderFacts.

Section LoaderClaims.
Context {R : Repr}.

(** C3 (the code departs from the claim): when the document parses but its
    [items] section has the wrong shape, [load_json] raises after it has
    already assigned the new UI mapping; the entry list and the recorded
    time are the old ones, the UI mapping is not. *)
Theorem reload_bad_section_replaces_ui :
  load_json bad_items_world stale_state
  = (Raise AttributeError,
     {| KB := KB stale_state;
        UI := VDict [(lit "botName", VStr (lit "B"))];
        MTIME := MTIME stale_state |})
  /\ snd (load_json bad_items_world stale_state) <> stale_state.
Proof.
  assert (E : load_json bad_items_world stale_state
              = (Raise AttributeError,
                 {| KB := KB stale_state;
                    UI := VDict [(lit "botName", VStr (lit "B"))];
                    MTIME := MTIME stale_state |}))
    by reflexivity.
  split; [exact E|]. rewrite E. simpl. intros H.
  apply (f_equal UI) in H. simpl in H. discriminate H.
Qed.

(** C9: when the modification time of the file is the recorded one,
    [load_json] returns with the globals as they were, whatever reading or
    parsing the file would have produced. *)
Theorem reload_unchanged_mtime (mtime : Q) (content : result pyval)
        (st : state) :
  (mtime == MTIME st)%Q ->
  load_json {| getmtime := Ok mtime; json_load := content |} st = (Ok tt, st).
Proof.
  intros H. apply load_json_cached with mtime; [reflexivity|].
  now apply Qeq_bool_iff.
Qed.

End LoaderClaims.

Lemma reload_unchanged_mtime_witness :
  (1 == MTIME stale_state)%Q
  /\ @load_json example_repr
       {| getmtime := Ok 1%Q; json_load := Raise JSONDecodeError |}
       stale_state
     = (Ok tt, stale_state).
Proof.
  split; [reflexivity|].
  apply (@reload_unchanged_mtime example_repr 1%Q (Raise JSONDecodeError)
           stale_state).
  reflexivity.
Defined.

(* ================================================================== *)
(** * Decision policy: [chat] *)
(* ================================================================== *)

Lemma same_letter_lower (a b : N) :
  same_letter a b -> lower_cp a = lower_cp b.
Proof.
  intros [-> | [[_ H] | [_ H]]]; [reflexivity| |].
  - rewrite H. symmetry. apply lower_cp_lowered with a.
    rewrite H. now left.
  - rewrite H. apply lower_cp_lowered with b. rewrite H. now left.
Qed.

Lemma lower_cp_not_sigma (a b : N) :
  lower_cp a = [b] -> (b =? SIGMA) = false.
Proof.
  intros H. apply lowered_not_sigma, lower_cp_lowered with a.
  rewrite H. now left.
Qed.

Lemma same_letter_sigma (a b : N) :
  same_letter a b -> (a =? SIGMA) = (b =? SIGMA).
Proof.
  intros [-> | [[Ha H] | [Hb H]]]; [reflexivity| |].
  - rewrite (@lower_cp_not_sigma a b H). now apply N.eqb_neq.
  - rewrite (@lower_cp_not_sigma b a H). symmetry. now apply N.eqb_neq.
Qed.

Lemma lower_cp_keeps_space (a b : N) :
  lower_cp a = [b] -> is_space a = is_space b.
Proof.
  intros H. destruct (is_space a) eqn:E.
  - rewrite (lower_cp_of_space _ E) in H. inversion H. now subst.
  - destruct (lower_cp_of_letter _ E) as [_ Hall]. rewrite H in Hall.
    inversion Hall. congruence.
Qed.

Lemma same_letter_space (a b : N) :
  same_letter a b -> is_space a = is_space b.
Proof.
  intros [-> | [[_ H] | [_ H]]]; [reflexivity| |].
  - now apply lower_cp_keeps_space.
  - symmetry. now apply lower_cp_keeps_space.
Qed.

(** A letter and its lower-case form are cased alike and case-ignorable
    alike, capital sigma included. *)
Lemma lower_cp_keeps_case (a : N) :
  match lower_cp a with
  | [b] => Bool.eqb (is_cased a) (is_cased b)
           && Bool.eqb (is_case_ignorable a) (is_case_ignorable b)
  | _ => true
  end = true.
Proof.
  revert a.
  apply (by_table
           (fun a =>
              match lower_cp a with
              | [b] => Bool.eqb (is_cased a) (is_cased b)
                       && Bool.eqb (is_case_ignorable a)
                                   (is_case_ignorable b)
              | _ => true
              end)); [vm_compute; reflexivity|].
  intros a Ha. rewrite Ha. now rewrite !eqb_reflx.
Qed.

Lemma same_letter_case (a b : N) :
  same_letter a b ->
  is_cased a = is_cased b /\ is_case_ignorable a = is_case_ignorable b.
Proof.
  assert (K : forall x y, lower_cp x = [y] ->
                is_cased x = is_cased y
                /\ is_case_ignorable x = is_case_ignorable y).
  { intros x y H. generalize (lower_cp_keeps_case x). rewrite H.
    intros E. apply andb_true_iff in E as [E1 E2].
    apply eqb_prop in E1, E2. now split. }
  intros [-> | [[_ H] | [_ H]]]; [now split | now apply K|].
  destruct (K _ _ H). now split.
Qed.

Lemma same_letters_lstrip (c c' : str) :
  Forall2 same_letter c c' -> Forall2 same_letter (lstrip c) (lstrip c').
Proof.
  induction 1 as [|a b r r' Hab Hr IH]; simpl; [constructor|].
  rewrite <- (same_letter_space Hab).
  destruct (is_space a); [exact IH | now constructor].
Qed.

Lemma Forall2_rev {A B} (P : A -> B -> Prop) (l : list A) (l' : list B) :
  Forall2 P l l' -> Forall2 P (rev l) (rev l').
Proof.
  induction 1; simpl; [constructor|].
  apply Forall2_app; [assumption | repeat constructor; assumption].
Qed.

Lemma same_letters_strip (c c' : str) :
  Forall2 same_letter c c' -> Forall2 same_letter (strip c) (strip c').
Proof.
  intros H. unfold strip, rstrip.
  now apply Forall2_rev, same_letters_lstrip, Forall2_rev,
    same_letters_lstrip.
Qed.

(** The neighbours of a capital sigma that decide its form are cased
    alike in two variants. *)
Lemma same_letters_near (s s' : str) :
  Forall2 same_letter s s' -> cased_near s = cased_near s'.
Proof.
  unfold cased_near.
  induction 1 as [|a b r r' Hab Hr IH]; cbn [skip_ignorable];
    [reflexivity|].
  destruct (same_letter_case Hab) as [Hc Hi]. rewrite <- Hi.
  now destruct (is_case_ignorable a).
Qed.

Lemma same_letters_final_sigma (b b' r r' : str) :
  Forall2 same_letter b b' -> Forall2 same_letter r r' ->
  final_sigma b r = final_sigma b' r'.
Proof.
  intros Hb Hr. unfold final_sigma.
  now rewrite (same_letters_near Hb), (same_letters_near Hr).
Qed.

Lemma same_letters_lower_go (b b' c c' : str) :
  Forall2 same_letter b b' -> Forall2 same_letter c c' ->
  lower_go b c = lower_go b' c'.
Proof.
  intros Hb Hc. revert b b' Hb.
  induction Hc as [|x y r r' Hxy Hr IH]; intros b b' Hb;
    cbn [lower_go]; [reflexivity|].
  rewrite (IH (x :: b) (y :: b')) by now constructor.
  f_equal. unfold lower_at. rewrite <- (same_letter_sigma Hxy).
  destruct (x =? SIGMA).
  - now rewrite (same_letters_final_sigma Hb Hr).
  - now apply same_letter_lower.
Qed.

Lemma same_letters_lower (c c' : str) :
  Forall2 same_letter c c' -> lower c = lower c'.
Proof. intros H. now apply same_letters_lower_go; [constructor|]. Qed.

(** Variants of a message have the same trimmed, lowered form. *)
Lemma variant_user_text (m m' : str) :
  variant m m' -> lower (strip m) = lower (strip m').
Proof.
  intros (l & r & l' & r' & c & c' & Hl & Hr & Hl' & Hr' & -> & -> & Hc).
  rewrite !strip_pad by assumption.
  now apply same_letters_lower, same_letters_strip.
Qed.

(** ** [lower] and [strip] commute *)

Lemma in_range_points (lo hi : N) (P : N -> bool) (c : N) :
  forallb P (run_points (lo, hi, 1, 0)) = true ->
  in_range lo hi c = true -> P c = true.
Proof.
  intros H Hc. eapply forallb_forall in H; [exact H|].
  apply run_points_spec; [exact Hc | apply N.mod_1_r].
Qed.

(** Whitespace is neither cased nor case-ignorable: it ends a word like
    the end of the string does. *)
Lemma space_uncased (c : N) :
  is_space c = true ->
  negb (is_case_ignorable c) && negb (is_cased c) = true.
Proof.
  unfold is_space. intros H.
  repeat (apply orb_true_iff in H as [H|H]);
    first [ revert H;
            apply (@in_range_points _ _
                     (fun c => negb (is_case_ignorable c)
                               && negb (is_cased c)));
            vm_compute; reflexivity
          | apply N.eqb_eq in H; subst c; vm_compute; reflexivity ].
Qed.

Lemma cased_near_space (c : N) (s : str) :
  is_space c = true -> cased_near (c :: s) = false.
Proof.
  intros H. apply space_uncased in H. apply andb_true_iff in H as [Hi Hc].
  unfold cased_near. cbn [skip_ignorable].
  destruct (is_case_ignorable c); [discriminate|].
  now destruct (is_cased c).
Qed.

Lemma cased_near_spaces (l : str) :
  all_space l = true -> cased_near l = false.
Proof.
  destruct l as [|c r]; [reflexivity|]. cbn [all_space forallb].
  intros H. apply andb_true_iff in H as [H _]. now apply cased_near_space.
Qed.

Lemma cased_near_cons (c : N) (s s' : str) :
  cased_near s = cased_near s' -> cased_near (c :: s) = cased_near (c :: s').
Proof.
  unfold cased_near. cbn [skip_ignorable].
  now destruct (is_case_ignorable c).
Qed.

Lemma cased_near_app_spaces (s r : str) :
  all_space r = true -> cased_near (s ++ r) = cased_near s.
Proof.
  intros Hr. induction s as [|c t IH]; cbn [app].
  - now apply cased_near_spaces.
  - now apply cased_near_cons.
Qed.

(** What comes before matters to [lower] only through [cased_near]. *)
Lemma lower_go_before (b b' s : str) :
  cased_near b = cased_near b' -> lower_go b s = lower_go b' s.
Proof.
  revert b b'. induction s as [|c r IH]; intros b b' H; cbn [lower_go];
    [reflexivity|].
  rewrite (IH (c :: b) (c :: b')) by now apply cased_near_cons.
  unfold lower_at, final_sigma. now rewrite H.
Qed.

Lemma spaces_lowercase (l : str) :
  all_space l = true -> Forall (fun d => lower_cp d = [d]) l.
Proof.
  unfold all_space. intros H. apply Forall_forall. intros d Hd.
  eapply forallb_forall in H; [|exact Hd]. now apply lower_cp_of_space.
Qed.

Lemma lower_go_space_prefix (b l s : str) :
  all_space l = true -> lower_go b (l ++ s) = l ++ lower_go (rev l ++ b) s.
Proof.
  revert b. induction l as [|c t IH]; intros b H; [reflexivity|].
  cbn [all_space forallb] in H. apply andb_true_iff in H as [Hc Ht].
  cbn [app lower_go rev].
  rewrite (@lower_at_fixed b (t ++ s) c (lower_cp_of_space _ Hc)).
  rewrite (IH (c :: b) Ht), <- app_assoc. reflexivity.
Qed.

Lemma lower_go_space_suffix (b s r : str) :
  all_space r = true -> lower_go b (s ++ r) = lower_go b s ++ r.
Proof.
  intros Hr. revert b. induction s as [|c t IH]; intros b; cbn [app].
  - now apply lower_go_fixed, spaces_lowercase.
  - cbn [lower_go]. rewrite IH, <- app_assoc. f_equal.
    unfold lower_at, final_sigma. now rewrite cased_near_app_spaces.
Qed.

(** Padding passes through [lower] unchanged, and without a change to the
    text between. *)
Lemma lower_pad (l c r : str) :
  all_space l = true -> all_space r = true ->
  lower (l ++ c ++ r) = l ++ lower c ++ r.
Proof.
  intros Hl Hr. unfold lower.
  rewrite lower_go_space_prefix by assumption. f_equal.
  rewrite lower_go_space_suffix by assumption. f_equal.
  apply lower_go_before. rewrite app_nil_r.
  apply cased_near_spaces. now rewrite all_space_rev.
Qed.

Lemma strip_lower (m : str) : strip (lower m) = lower (strip m).
Proof.
  destruct (strip_decompose m) as (l & r & Hl & Hr & E).
  rewrite E at 1. rewrite lower_pad, strip_pad by assumption.
  apply stripped_strip, stripped_lower, strip_stripped.
Qed.

(** The lower-cased message has the trimmed, lowered form of the
    message. *)
Lemma lower_user_text (m : str) : lower (strip (lower m)) = lower (strip m).
Proof. rewrite strip_lower. apply lower_idem. Qed.

Section ChatFacts.
Context {R : Repr} {F : Fuzz}.

Lemma chat_after_load (w : world) (message : str) (st : state) :
  chat w message st
  = match load_json w st with
    | (Ok _, st') => (Ok (respond (KB st') message), st')
    | (Raise e, st') => (Raise e, st')
    end.
Proof.
  unfold chat, respond, bind.
  destruct (load_json w st) as [[[]|e] st']; [|reflexivity].
  destruct (is_empty (lower (strip message))); [reflexivity|].
  unfold read, ret.
  destruct (top2_match (KB st') (lower (strip message)))
    as [[s1 [it|]] [s2 i2]]; [|reflexivity].
  destruct (item_truthy (Some it) && Qle_bool THRESHOLD s1
            && Qle_bool MARGIN (s1 - s2)); reflexivity.
Qed.

Lemma respond_empty_kb (message : str) :
  respond [] message
  = if is_empty (lower (strip message)) then ASK_FOR_QUESTION else CLARIFY.
Proof.
  unfold respond. now destruct (is_empty (lower (strip message))).
Qed.

(** An entry that reaches a slot of the ranking is a non-empty
    dictionary. *)
Lemma top2_match_truthy (kb : list dict) (u : str) (s : Q) (it : dict) :
  fst (top2_match kb u) = (s, Some it) -> item_truthy (Some it) = true.
Proof.
  intros H. destruct (top2_match_slot kb u (or_introl H)) as [_ [Hq _]].
  destruct it; [|reflexivity].
  now rewrite build_query_text_empty_dict in Hq.
Qed.

(** C1: once the reload has returned and the message is not blank, [chat]
    answers with the text of the best entry and [used_context = true] when
    there is a best entry, its score is at least 80 and it leads the second
    score by at least 4; in every other case it answers with the fixed
    clarification prompt, [used_context = false] and no sources. *)
Theorem decision_policy (w : world) (message : str) (st st' : state) :
  load_json w st = (Ok tt, st') ->
  lower (strip message) <> [] ->
  let best := fst (top2_match (KB st') (lower (strip message))) in
  let second := snd (top2_match (KB st') (lower (strip message))) in
  let accept :=
    exists it, snd best = Some it
               /\ (80 <= fst best)%Q
               /\ (4 <= fst best - fst second)%Q in
  exists resp,
    chat w message st = (Ok resp, st')
    /\ (accept <-> used_context resp = true)
    /\ (accept ->
        exists it, snd best = Some it
                   /\ answer resp
                      = get it (lit "text") (VStr (lit "Cavab mövcud deyil."))
                   /\ used_context resp = true)
    /\ (~ accept ->
        resp = CLARIFY /\ used_context resp = false /\ sources resp = []).
Proof.
  intros Hload Hne best second accept.
  exists (respond (KB st') message).
  split; [rewrite chat_after_load, Hload; reflexivity|].
  unfold respond. subst accept best second.
  destruct (lower (strip message)) as [|c0 u0] eqn:Eu; [congruence|].
  cbn [is_empty].
  destruct (top2_match (KB st') (c0 :: u0)) as [[s1 i1] [s2 i2]] eqn:Et.
  cbn [fst snd].
  assert (Hfst : fst (top2_match (KB st') (c0 :: u0)) = (s1, i1))
    by (rewrite Et; reflexivity).
  destruct i1 as [it|].
  - rewrite (top2_match_truthy _ _ Hfst). cbn [andb].
    destruct (Qle_bool THRESHOLD s1) eqn:E1;
      destruct (Qle_bool MARGIN (s1 - s2)) eqn:E2; cbn [andb].
    + apply Qle_bool_iff in E1, E2.
      assert (Hacc : exists it0, Some it = Some it0
                                 /\ (80 <= s1)%Q /\ (4 <= s1 - s2)%Q)
        by (exists it; auto).
      split; [split; auto|]. split; [|intros H; contradiction].
      intros _. exists it. auto.
    + assert (Hno : ~ exists it0, Some it = Some it0
                                  /\ (80 <= s1)%Q /\ (4 <= s1 - s2)%Q).
      { intros [it0 [_ [_ H]]]. apply Qle_bool_iff in H.
        unfold MARGIN in E2. congruence. }
      split; [split; [intros H; contradiction | discriminate]|].
      split; [intros H; contradiction | auto].
    + assert (Hno : ~ exists it0, Some it = Some it0
                                  /\ (80 <= s1)%Q /\ (4 <= s1 - s2)%Q).
      { intros [it0 [_ [H _]]]. apply Qle_bool_iff in H.
        unfold THRESHOLD in E1. congruence. }
      split; [split; [intros H; contradiction | discriminate]|].
      split; [intros H; contradiction | auto].
    + assert (Hno : ~ exists it0, Some it = Some it0
                                  /\ (80 <= s1)%Q /\ (4 <= s1 - s2)%Q).
      { intros [it0 [_ [H _]]]. apply Qle_bool_iff in H.
        unfold THRESHOLD in E1. congruence. }
      split; [split; [intros H; contradiction | discriminate]|].
      split; [intros H; contradiction | auto].
  - assert (Hno : ~ exists it0, @None dict = Some it0
                                /\ (80 <= s1)%Q /\ (4 <= s1 - s2)%Q)
      by (intros [it0 [H _]]; discriminate).
    split; [split; [intros H; contradiction | discriminate]|].
    split; [intros H; contradiction | auto].
Qed.

End ChatFacts.

Section ChatClaims.
Context {R : Repr} {F : Fuzz}.

Lemma respond_user_text (kb : list dict) (m m' : str) :
  lower (strip m) = lower (strip m') -> respond kb m = respond kb m'.
Proof. intros H. unfold respond. now rewrite H. Qed.

(** C10 (amended): [chat] gives the same result, and leaves the same
    state, on a message and on any variant of it that differs only in
    leading and trailing whitespace and in the case of letters that
    [str.lower] identifies: a letter and its lower-case form, capital sigma
    apart; so it does on the lower-cased variant. *)
Theorem chat_ignores_case_and_padding (w : world) (m m' : str)
        (st : state) :
  variant m m' ->
  chat w m' st = chat w m st /\ chat w (lower m') st = chat w m st.
Proof.
  intros H. rewrite !chat_after_load.
  destruct (load_json w st) as [[[]|e] st']; [|split; reflexivity].
  rewrite (@respond_user_text (KB st') (lower m') m').
  - rewrite (@respond_user_text (KB st') m m' (variant_user_text H)).
    split; reflexivity.
  - apply lower_user_text.
Qed.

(** C7 (amended): on an empty or whitespace-only message [chat] first runs
    the reload, like on any other message; if the reload raises, so does
    [chat], and otherwise [chat] returns the fixed prompt asking for a
    question, with [used_context = false] and no sources, whatever the
    knowledge base holds and whatever the ratios are. *)
Theorem blank_message_prompt (w : world) (message : str) (st : state) :
  all_space message = true ->
  chat w message st
  = match load_json w st with
    | (Ok _, st') => (Ok ASK_FOR_QUESTION, st')
    | (Raise e, st') => (Raise e, st')
    end
  /\ used_context ASK_FOR_QUESTION = false
  /\ sources ASK_FOR_QUESTION = [].
Proof.
  intros H. split; [|split; reflexivity].
  rewrite chat_after_load.
  destruct (load_json w st) as [[[]|e] st']; [|reflexivity].
  unfold respond. now rewrite (strip_all_space _ H).
Qed.

(** C8 (amended): when [os.path.getmtime] reports that the file does not
    exist, [load_json] does not raise and resets the entry list to empty,
    the UI mapping to empty and the recorded time to zero; a query served
    while the file is missing, from whatever state, is answered without
    context and without sources: by the clarification prompt when the
    message is not blank, by the prompt asking for a question when it is. *)
Theorem missing_file_fails_soft (w : world) (message : str) (st : state) :
  getmtime w = Raise FileNotFoundError ->
  load_json w st = (Ok tt, {| KB := []; UI := VDict []; MTIME := 0%Q |})
  /\ chat w message st
     = (Ok (if is_empty (lower (strip message))
            then ASK_FOR_QUESTION else CLARIFY),
        {| KB := []; UI := VDict []; MTIME := 0%Q |})
  /\ used_context CLARIFY = false /\ sources CLARIFY = []
  /\ used_context ASK_FOR_QUESTION = false /\ sources ASK_FOR_QUESTION = [].
Proof.
  intros H. pose proof (load_json_missing w st H) as E.
  split; [exact E|]. split; [|repeat split].
  rewrite chat_after_load, E. cbn [KB initial_state].
  now rewrite respond_empty_kb.
Qed.

(** C6 (amended): in every state the loader can leave, every entry of the
    knowledge base has an answer text field, which may hold an empty value;
    and an entry returned as best or second-best by the ranking is an entry
    of the knowledge base whose composite query text is not empty, so an
    entry with an empty query text is never ranked. *)
Theorem ranking_excludes_empty_query_text (st : state) :
  reachable st ->
  Forall has_text (KB st)
  /\ forall (user_text : str) (s : Q) (it : dict),
       fst (top2_match (KB st) user_text) = (s, Some it)
       \/ snd (top2_match (KB st) user_text) = (s, Some it) ->
       In it (KB st) /\ build_query_text it <> [].
Proof.
  intros Hr. split; [now apply reachable_has_text|].
  intros u s it H.
  destruct (top2_match_slot (KB st) u H) as [Hin [Hq _]]. auto.
Qed.

End ChatClaims.

(* ================================================================== *)
(** * Witnesses and counterexamples on closed inputs *)
(* ================================================================== *)

Lemma untexted_state_reachable : @reachable example_repr untexted_state.
Proof.
  apply (@reach_load example_repr untexted_world initial_state
           untexted_state (Ok tt)); [constructor | reflexivity].
Qed.

(** C6, as stated, fails: a successful reload of a document whose item has
    no [text] leaves an entry whose answer text is the empty string. *)
Lemma reload_keeps_empty_text :
  @load_json example_repr untexted_world initial_state
  = (Ok tt, untexted_state)
  /\ (exists it, In it (KB untexted_state)
                 /\ get it (lit "text") VNone = VStr []
                 /\ ~ nonempty_text it)
  /\ ~ (forall (R : Repr) (st : state),
          reachable st -> Forall nonempty_text (KB st)).
Proof.
  split; [reflexivity|]. split.
  - eexists. split; [left; reflexivity|]. split; [reflexivity|].
    unfold nonempty_text. simpl. discriminate.
  - intros H. specialize (H example_repr _ untexted_state_reachable).
    inversion H as [|it r Hit _]. unfold nonempty_text in Hit.
    simpl in Hit. discriminate.
Qed.

Lemma ranking_excludes_empty_query_text_witness :
  @reachable example_repr untexted_state
  /\ Forall has_text (KB untexted_state)
  /\ forall (user_text : str) (s : Q) (it : dict),
       fst (@top2_match example_repr example_fuzz (KB untexted_state)
              user_text) = (s, Some it)
       \/ snd (@top2_match example_repr example_fuzz (KB untexted_state)
                 user_text) = (s, Some it) ->
       In it (KB untexted_state)
       /\ @build_query_text example_repr it <> [].
Proof.
  split; [exact untexted_state_reachable|].
  apply (@ranking_excludes_empty_query_text example_repr example_fuzz
           untexted_state).
  exact untexted_state_reachable.
Defined.

(** C7, as stated, fails: a blank message still triggers the reload, which
    replaces the knowledge base when the file has changed, and which makes
    the request fail without any prompt when the file is malformed. *)
Lemma blank_message_reloads :
  @chat example_repr example_fuzz untexted_world [SP] stale_state
  = (Ok ASK_FOR_QUESTION, untexted_state)
  /\ KB untexted_state <> KB stale_state
  /\ @chat example_repr example_fuzz malformed_world [SP] stale_state
     = (Raise JSONDecodeError, stale_state)
  /\ ~ (forall (R : Repr) (F : Fuzz) (w : world) (m : str) (st : state),
          all_space m = true -> chat w m st = (Ok ASK_FOR_QUESTION, st)).
Proof.
  assert (E : @chat example_repr example_fuzz malformed_world [SP] stale_state
              = (Raise JSONDecodeError, stale_state)) by reflexivity.
  split; [reflexivity|]. split; [discriminate|]. split; [exact E|].
  intros H.
  specialize (H example_repr example_fuzz malformed_world [SP] stale_state
                eq_refl).
  rewrite E in H. discriminate H.
Qed.

Lemma blank_message_prompt_witness :
  all_space (lit "  ") = true
  /\ @chat example_repr example_fuzz untexted_world (lit "  ") stale_state
     = match @load_json example_repr untexted_world stale_state with
       | (Ok _, st') => (Ok ASK_FOR_QUESTION, st')
       | (Raise e, st') => (Raise e, st')
       end
  /\ used_context ASK_FOR_QUESTION = false
  /\ sources ASK_FOR_QUESTION = [].
Proof.
  split; [reflexivity|].
  apply (@blank_message_prompt example_repr example_fuzz untexted_world
           (lit "  ") stale_state).
  reflexivity.
Defined.

(** C8, as stated, fails: a stat that fails for another reason than a
    missing file makes [load_json] raise, and with the file missing a blank
    message is answered by the prompt asking for a question, which is not
    the clarification prompt. *)
Lemma stat_permission_error_raises :
  @load_json example_repr unreadable_world stale_state
  = (Raise PermissionError, stale_state)
  /\ @chat example_repr example_fuzz missing_world [] stale_state
     = (Ok ASK_FOR_QUESTION, initial_state)
  /\ ASK_FOR_QUESTION <> CLARIFY
  /\ ~ (forall (R : Repr) (w : world) (st : state) (e : exn),
          getmtime w = Raise e ->
          load_json w st = (Ok tt, initial_state)).
Proof.
  split; [reflexivity|]. split; [reflexivity|]. split.
  - intros H. apply (f_equal answer) in H. vm_compute in H. discriminate H.
  - intros H.
    specialize (H example_repr unreadable_world stale_state PermissionError
                  eq_refl).
    discriminate H.
Qed.

Lemma missing_file_fails_soft_witness :
  getmtime missing_world = Raise FileNotFoundError
  /\ @load_json example_repr missing_world stale_state
     = (Ok tt, {| KB := []; UI := VDict []; MTIME := 0%Q |})
  /\ @chat example_repr example_fuzz missing_world (lit "qulaq") stale_state
     = (Ok (if is_empty (lower (strip (lit "qulaq")))
            then ASK_FOR_QUESTION else CLARIFY),
        {| KB := []; UI := VDict []; MTIME := 0%Q |})
  /\ used_context CLARIFY = false /\ sources CLARIFY = []
  /\ used_context ASK_FOR_QUESTION = false /\ sources ASK_FOR_QUESTION = [].
Proof.
  split; [reflexivity|].
  apply (@missing_file_fails_soft example_repr example_fuzz missing_world
           (lit "qulaq") stale_state).
  reflexivity.
Defined.

Lemma chat_ignores_case_and_padding_witness :
  variant (lit "Qulaq  SƏS cavab a") (lit "  qULAQ  səs CAVAB A ")
  /\ (@chat example_repr example_fuzz cached_world
        (lit "  qULAQ  səs CAVAB A ") stale_state
      = @chat example_repr example_fuzz cached_world
          (lit "Qulaq  SƏS cavab a") stale_state
      /\ @chat example_repr example_fuzz cached_world
           (lower (lit "  qULAQ  səs CAVAB A ")) stale_state
         = @chat example_repr example_fuzz cached_world
             (lit "Qulaq  SƏS cavab a") stale_state)
  /\ @chat example_repr example_fuzz cached_world
       (lit "  qULAQ  səs CAVAB A ") stale_state
     = (Ok {| answer := VStr (lit "Cavab A");
              used_context := true;
              sources :=
                [ {| src_id := VInt 1;
                     src_title := VStr (lit "qulaq");
                     src_source := VStr (lit "items");
                     src_score := (10400 # 100)%Q;
                     src_parent_id := VNone |} ] |},
        stale_state).
Proof.
  assert (V : variant (lit "Qulaq  SƏS cavab a")
                      (lit "  qULAQ  səs CAVAB A ")).
  { exists [], [], (lit "  "), (lit " "), (lit "Qulaq  SƏS cavab a"),
      (lit "qULAQ  səs CAVAB A").
    repeat (split; [reflexivity|]).
    repeat match goal with
    | |- context [lit ?s] =>
      let x := eval vm_compute in (lit s) in change (lit s) with x
    end.
    repeat (apply Forall2_cons;
            [first [ left; reflexivity
                   | right; left; split;
                     [apply N.eqb_neq|]; vm_compute; reflexivity
                   | right; right; split;
                     [apply N.eqb_neq|]; vm_compute; reflexivity ] |]).
    apply Forall2_nil. }
  split; [exact V|]. split.
  - apply (@chat_ignores_case_and_padding example_repr example_fuzz
             cached_world _ _ stale_state V).
  - vm_compute. reflexivity.
Defined.

(** C10, as stated, fails.  A message written in capitals differs from the
    message in letter case only, but the dotless [ı] of the knowledge base
    has the capital [I], which [str.lower] sends to the dotted [i]: the
    entry that answers "ışıq" is not found for "IŞIQ". *)
Lemma capitals_change_the_answer :
  upper (lit "ışıq") = lit "IŞIQ"
  /\ lower (strip (lit "IŞIQ")) = lit "işiq"
  /\ @chat example_repr infix_fuzz cached_world (lit "ışıq") light_state
     = (Ok {| answer := VStr (lit "Cavab C");
              used_context := true;
              sources :=
                [ {| src_id := VInt 2;
                     src_title := VStr (lit "ışıq");
                     src_source := VStr (lit "items");
                     src_score := (9500 # 100)%Q;
                     src_parent_id := VNone |} ] |},
        light_state)
  /\ @chat example_repr infix_fuzz cached_world (lit "IŞIQ") light_state
     = (Ok CLARIFY, light_state)
  /\ ~ (forall (R : Repr) (F : Fuzz) (w : world) (m : str) (st : state),
          chat w (upper m) st = chat w m st).
Proof.
  assert (Hu : upper (lit "ışıq") = lit "IŞIQ") by (vm_compute; reflexivity).
  assert (H1 : @chat example_repr infix_fuzz cached_world (lit "ışıq")
                 light_state
               = (Ok (accepted 95%Q light_entry), light_state))
    by (vm_compute; reflexivity).
  assert (H2 : @chat example_repr infix_fuzz cached_world (lit "IŞIQ")
                 light_state
               = (Ok CLARIFY, light_state))
    by (vm_compute; reflexivity).
  split; [exact Hu|]. split; [vm_compute; reflexivity|].
  split; [rewrite H1; vm_compute; reflexivity|]. split; [exact H2|].
  intros H.
  specialize (H example_repr infix_fuzz cached_world (lit "ışıq")
                light_state).
  rewrite Hu, H1, H2 in H. discriminate H.
Qed.

(** The capitals of the alphabet of the knowledge base that [str.lower]
    pairs with their small letters, and the two it does not: [I] (U+0049)
    with dotless [ı] (U+0131), and dotted [İ] (U+0130) with [i]. *)
Example same_letter_alphabet :
  Forall2 same_letter (lit "ABCÇDEƏFGĞHXJKQLMNOÖPRSŞTUÜVYZ")
                      (lit "abcçdeəfgğhxjkqlmnoöprsştuüvyz")
  /\ ~ same_letter 0x49 0x131
  /\ ~ same_letter 0x130 0x69.
Proof.
  split; [|split].
  - repeat match goal with
    | |- context [lit ?s] =>
      let x := eval vm_compute in (lit s) in change (lit s) with x
    end.
    repeat (apply Forall2_cons;
            [right; left; split;
             [apply N.eqb_neq|]; vm_compute; reflexivity |]).
    apply Forall2_nil.
  - intros [H | [[_ H] | [_ H]]]; vm_compute in H; discriminate H.
  - intros [H | [[_ H] | [_ H]]]; vm_compute in H; discriminate H.
Qed.

Example chat_accepts_dominant_match :
  @chat example_repr example_fuzz cached_world
    (lit " QULAQ  Səs cavab A ") stale_state
  = (Ok {| answer := VStr (lit "Cavab A");
           used_context := true;
           sources :=
             [ {| src_id := VInt 1;
                  src_title := VStr (lit "qulaq");
                  src_source := VStr (lit "items");
                  src_score := (10400 # 100)%Q;
                  src_parent_id := VNone |} ] |},
     stale_state).
Proof. vm_compute. reflexivity. Qed.

Example chat_clarifies_weak_match :
  @chat example_repr example_fuzz cached_world (lit "tozsoran") stale_state
  = (Ok CLARIFY, stale_state).
Proof. vm_compute. reflexivity. Qed.

Lemma decision_policy_witness :
  @load_json example_repr cached_world stale_state = (Ok tt, stale_state)
  /\ lower (strip (lit " QULAQ  Səs cavab A ")) <> []
  /\ let best :=
       fst (@top2_match example_repr example_fuzz (KB stale_state)
              (lower (strip (lit " QULAQ  Səs cavab A ")))) in
     let second :=
       snd (@top2_match example_repr example_fuzz (KB stale_state)
              (lower (strip (lit " QULAQ  Səs cavab A ")))) in
     let accept :=
       exists it, snd best = Some it
                  /\ (80 <= fst best)%Q
                  /\ (4 <= fst best - fst second)%Q in
     exists resp,
       @chat example_repr example_fuzz cached_world
         (lit " QULAQ  Səs cavab A ") stale_state
       = (Ok resp, stale_state)
       /\ (accept <-> used_context resp = true)
       /\ (accept ->
           exists it, snd best = Some it
                      /\ answer resp
                         = get it (lit "text")
                             (VStr (lit "Cavab mövcud deyil."))
                      /\ used_context resp = true)
       /\ (~ accept ->
           resp = CLARIFY /\ used_context resp = false /\ sources resp = []).
Proof.
  split; [reflexivity|]. split; [vm_compute; discriminate|].
  apply (@decision_policy example_repr example_fuzz cached_world
           (lit " QULAQ  Səs cavab A ") stale_state stale_state).
  - reflexivity.
  - vm_compute. discriminate.
Defined.

Lemma score_formula_witness :
  @build_query_text example_repr (nth 0 (KB stale_state) []) <> []
  /\ let user_text := lit "səs çox pis" in
     let item := nth 0 (KB stale_state) [] in
     let q := @build_query_text example_repr item in
     let overlap :=
       keyword_overlap user_text
         (@norm_list example_repr (get item (lit "keywords") VNone)) in
     let bonus (n : nat) :=
       Qmin (fl64 (fl64 (inject_Z (Z.of_nat n)) * 4)%Q) 16%Q in
     let base :=
       fl64 (Qmax (@token_set_ratio example_fuzz user_text q)
                  (@partial_ratio example_fuzz user_text q)) in
     exists score,
       @score_item example_repr example_fuzz user_text item
       = Some (score, item, overlap)
       /\ score = (if (overlap =? 0)%nat
                   then fl64 (fl64 (base + bonus overlap) - 5)%Q
                   else fl64 (base + bonus overlap)%Q)
       /\ (forall kb, In item kb ->
             In (score, item, overlap)
                (sort_desc (@score_all example_repr example_fuzz
                              user_text kb)))
       /\ (forall a b, (a <= b)%nat -> (bonus a <= bonus b)%Q)
       /\ (forall a, (4 <= a)%nat -> (bonus a == 16)%Q)
       /\ (forall a, (bonus a == inject_Z (Z.min (Z.of_nat a * 4) 16))%Q).
Proof.
  split; [vm_compute; discriminate|].
  apply (@score_formula example_repr example_fuzz (lit "səs çox pis")
           (nth 0 (KB stale_state) [])).
  vm_compute. discriminate.
Defined.

(** The entry without answer text is still ranked and accepted: its
    title alone makes its query text. *)
Example chat_answers_with_empty_text :
  @chat example_repr example_fuzz untexted_world (lit "Qulaq") stale_state
  = (Ok {| answer := VStr [];
           used_context := true;
           sources :=
             [ {| src_id := VNone;
                  src_title := VStr (lit "qulaq");
                  src_source := VStr (lit "items");
                  src_score := (9500 # 100)%Q;
                  src_parent_id := VNone |} ] |},
     untexted_state).
Proof. vm_compute. reflexivity. Qed.

(* ================================================================== *)
(** * Further properties: substrings and keyword overlap *)
(* ================================================================== *)

Lemma startswith_spec (s p : str) :
  startswith s p = true <-> exists r, s = p ++ r.
Proof.
  revert s. induction p as [|a p IH]; intros s; destruct s as [|b s]; simpl.
  - split; [intros _; now exists [] | reflexivity].
  - split; [intros _; now exists (b :: s) | reflexivity].
  - split; [discriminate | intros [r E]; discriminate].
  - rewrite andb_true_iff, N.eqb_eq, IH. split.
    + intros [-> [r ->]]. now exists r.
    + intros [r E]. inversion E. eauto.
Qed.

(** The model of [sub in s] is the substring relation. *)
Lemma str_in_infix (sub s : str) : str_in sub s = true <-> infix sub s.
Proof.
  induction s as [|c s IH].
  - cbn [str_in]. rewrite orb_false_r, startswith_spec. split.
    + intros [r E]. exists [], r. exact E.
    + intros [a [b E]]. destruct a; [now exists b | discriminate].
  - cbn [str_in]. rewrite orb_true_iff, startswith_spec, IH. split.
    + intros [[r E] | [a [b E]]].
      * exists [], r. exact E.
      * exists (c :: a), b. now rewrite E.
    + intros [a [b E]]. destruct a as [|c' a].
      * left. now exists b.
      * right. inversion E. now exists a, b.
Qed.

Lemma str_in_nil (s : str) : str_in [] s = true.
Proof. apply str_in_infix. exists [], s. reflexivity. Qed.

Lemma str_in_of_nil (sub : str) : str_in sub [] = true -> sub = [].
Proof.
  intros H. apply str_in_infix in H as [a [b E]].
  symmetry in E. apply app_eq_nil in E as [_ E].
  now apply app_eq_nil in E as [E _].
Qed.

Lemma keyword_overlap_app (u : str) (k1 k2 : list str) :
  keyword_overlap u (k1 ++ k2)
  = (keyword_overlap u k1 + keyword_overlap u k2)%nat.
Proof.
  induction k1 as [|kw r IH]; simpl; [reflexivity|].
  destruct (negb (is_empty kw) && str_in kw u); simpl; now rewrite IH.
Qed.

(** X1.  Empty tags never count towards the overlap, although the empty
    string is a substring of every text; the overlap is at most the number
    of non-empty tags, it is additive over a concatenation of tag lists,
    and it is zero for the empty query. *)
Theorem keyword_overlap_bounds (user_text : str) (keywords more : list str) :
  keyword_overlap user_text keywords
  = keyword_overlap user_text
      (filter (fun kw => negb (is_empty kw)) keywords)
  /\ (keyword_overlap user_text keywords
      <= length (filter (fun kw => negb (is_empty kw)) keywords))%nat
  /\ keyword_overlap user_text (keywords ++ more)
     = (keyword_overlap user_text keywords
        + keyword_overlap user_text more)%nat
  /\ keyword_overlap [] keywords = 0%nat
  /\ str_in [] user_text = true.
Proof.
  repeat split.
  - induction keywords as [|kw r IH]; simpl; [reflexivity|].
    destruct kw as [|c kw]; simpl; [exact IH|].
    destruct (str_in (c :: kw) user_text); now rewrite IH.
  - induction keywords as [|kw r IH]; simpl; [lia|].
    destruct kw as [|c kw]; simpl; [exact IH|].
    destruct (str_in (c :: kw) user_text); lia.
  - apply keyword_overlap_app.
  - induction keywords as [|kw r IH]; simpl; [reflexivity|].
    destruct kw as [|c kw]; simpl; exact IH.
  - apply str_in_nil.
Qed.

(** X2.  A query that contains another query as a substring has at least
    its overlap with any tag list. *)
Theorem keyword_overlap_monotone (u u' : str) (keywords : list str) :
  infix u u' ->
  (keyword_overlap u keywords <= keyword_overlap u' keywords)%nat.
Proof.
  intros Hu. induction keywords as [|kw r IH]; simpl; [lia|].
  destruct (negb (is_empty kw)); simpl; [|exact IH].
  destruct (str_in kw u) eqn:E.
  - assert (E' : str_in kw u' = true).
    { apply str_in_infix. apply infix_trans with u; [|exact Hu].
      now apply str_in_infix. }
    rewrite E'. lia.
  - destruct (str_in kw u'); lia.
Qed.

Lemma keyword_overlap_monotone_witness :
  infix (lit "səs") (lit "səs çox pis")
  /\ (keyword_overlap (lit "səs") [lit "səs"; lit "pis"]
      <= keyword_overlap (lit "səs çox pis") [lit "səs"; lit "pis"])%nat.
Proof.
  assert (H : infix (lit "səs") (lit "səs çox pis"))
    by (exists [], (lit " çox pis"); reflexivity).
  split; [exact H|].
  apply (@keyword_overlap_monotone (lit "səs") (lit "səs çox pis")
           [lit "səs"; lit "pis"] H).
Defined.

(* ================================================================== *)
(** * Further properties: the ranking *)
(* ================================================================== *)

Lemma sort_desc_head_cons (x : scored_entry) (l : list scored_entry) :
  hd_error (sort_desc (x :: l))
  = match hd_error (sort_desc l) with
    | None => Some x
    | Some y => if Qle_bool (score_of y) (score_of x) then Some x else Some y
    end.
Proof.
  simpl. destruct (sort_desc l) as [|y r]; simpl; [reflexivity|].
  now destruct (Qle_bool (score_of y) (score_of x)).
Qed.

Lemma sort_desc_head_in (l : list scored_entry) (y : scored_entry) :
  hd_error (sort_desc l) = Some y -> In y l.
Proof.
  intros H. apply sort_desc_in.
  destruct (sort_desc l); inversion H. now left.
Qed.

Lemma sort_desc_head_first (e : scored_entry) (post : list scored_entry) :
  (forall e', In e' post -> (score_of e' <= score_of e)%Q) ->
  hd_error (sort_desc (e :: post)) = Some e.
Proof.
  intros H. rewrite sort_desc_head_cons.
  destruct (hd_error (sort_desc post)) as [y|] eqn:E; [|reflexivity].
  apply sort_desc_head_in in E.
  now rewrite (proj2 (Qle_bool_iff _ _) (H y E)).
Qed.

Lemma sort_desc_head_later (pre post : list scored_entry)
      (e : scored_entry) :
  (forall e', In e' pre -> (score_of e' < score_of e)%Q) ->
  (forall e', In e' post -> (score_of e' <= score_of e)%Q) ->
  hd_error (sort_desc (pre ++ e :: post)) = Some e.
Proof.
  intros Hpre Hpost. induction pre as [|x pre IH].
  - now apply sort_desc_head_first.
  - rewrite <- app_comm_cons, sort_desc_head_cons.
    rewrite IH by (intros; apply Hpre; now right).
    assert (Hx : (score_of x < score_of e)%Q) by (apply Hpre; now left).
    destruct (Qle_bool (score_of e) (score_of x)) eqn:E; [|reflexivity].
    apply Qle_bool_iff in E. exfalso. exact (Qlt_not_le _ _ Hx E).
Qed.

Lemma nth_error_0_hd {A} (l : list A) : nth_error l 0 = hd_error l.
Proof. now destruct l. Qed.

Section RankingFacts.
Context {R : Repr} {F : Fuzz}.

Lemma score_all_app (u : str) (k1 k2 : list dict) :
  score_all u (k1 ++ k2) = score_all u k1 ++ score_all u k2.
Proof.
  induction k1 as [|it r IH]; simpl; [reflexivity|].
  destruct (score_item u it); simpl; now rewrite IH.
Qed.

Lemma score_all_nil_iff (u : str) (kb : list dict) :
  score_all u kb = [] <-> Forall (fun it => build_query_text it = []) kb.
Proof.
  induction kb as [|it r IH]; simpl.
  - split; [constructor | reflexivity].
  - unfold score_item at 1.
    destruct (build_query_text it) as [|c q] eqn:E; simpl.
    + rewrite IH. split; [now constructor | now inversion 1].
    + split; [discriminate | intros H; inversion H; congruence].
Qed.

(** What [score_item] returns, read backwards. *)
Lemma score_item_inv (u : str) (it it' : dict) (s : Q) (ov : nat) :
  score_item u it = Some (s, it', ov) ->
  it' = it
  /\ ov = keyword_overlap u (norm_list (get it (lit "keywords") VNone))
  /\ s = (if (ov =? 0)%nat
          then fl64 (fl64 (base_score u it + overlap_bonus ov) - 5)%Q
          else fl64 (base_score u it + overlap_bonus ov)%Q).
Proof.
  unfold score_item, base_score.
  destruct (build_query_text it) as [|c q]; simpl; [discriminate|].
  intros H. inversion H; subst. repeat split.
Qed.

(** X3.  The two slots of [top2_match]: the best slot is empty exactly when
    every entry of the knowledge base has an empty query text; an empty
    slot carries the score 0; and when the second slot is filled so is the
    first, with a score that is at least the second's. *)
Theorem top2_match_slots (kb : list dict) (user_text : str) :
  (snd (fst (top2_match kb user_text)) = None
   <-> Forall (fun it => build_query_text it = []) kb)
  /\ (snd (fst (top2_match kb user_text)) = None ->
      top2_match kb user_text = ((0%Q, None), (0%Q, None)))
  /\ (snd (snd (top2_match kb user_text)) = None ->
      fst (snd (top2_match kb user_text)) = 0%Q)
  /\ (forall s2 it2,
        snd (top2_match kb user_text) = (s2, Some it2) ->
        exists s1 it1,
          fst (top2_match kb user_text) = (s1, Some it1)
          /\ (s2 <= s1)%Q).
Proof.
  unfold top2_match. cbn [fst snd].
  pose proof (sort_desc_descending (score_all user_text kb)) as Hd.
  pose proof (sort_desc_length (score_all user_text kb)) as Hl.
  rewrite <- score_all_nil_iff with (u := user_text).
  destruct (sort_desc (score_all user_text kb)) as [|e1 [|e2 r]] eqn:E;
    cbn [nth_error top_slot fst snd].
  - destruct (score_all user_text kb); [|discriminate].
    repeat split; auto. intros s2 it2 H. discriminate.
  - repeat split; try discriminate.
    intros H. rewrite H in Hl. discriminate.
  - split; [|split; [|split]]; try discriminate.
    + split; [discriminate|]. intros H. rewrite H in Hl. discriminate.
    + intros s2 it2 H. inversion H; subst.
      exists (score_of e1), (item_of e1). split; [reflexivity|].
      now inversion Hd.
Qed.

(** X4.  Ties go to the earlier entry: an entry whose score is above that
    of every scored entry before it in the knowledge base, and at least
    that of every scored entry after it, fills the best slot. *)
Theorem top2_match_first_maximal (pre post : list dict) (it : dict)
        (e : scored_entry) (user_text : str) :
  score_item user_text it = Some e ->
  (forall it' e', In it' pre -> score_item user_text it' = Some e' ->
                  (score_of e' < score_of e)%Q) ->
  (forall it' e', In it' post -> score_item user_text it' = Some e' ->
                  (score_of e' <= score_of e)%Q) ->
  fst (top2_match (pre ++ it :: post) user_text) = (score_of e, Some it).
Proof.
  intros He Hpre Hpost. unfold top2_match. cbn [fst].
  rewrite score_all_app. cbn [score_all]. rewrite He.
  rewrite nth_error_0_hd, sort_desc_head_later.
  - cbn [top_slot]. now rewrite (proj1 (score_item_some _ _ He)).
  - intros e' H. apply score_all_in in H as [it' [Hin Hs]]. eauto.
  - intros e' H. apply score_all_in in H as [it' [Hin Hs]]. eauto.
Qed.

End RankingFacts.

(* ================================================================== *)
(** * Further properties: the three handlers *)
(* ================================================================== *)

Lemma get_missing (d : dict) (key : str) (default : pyval) :
  has_key d key = false -> get d key default = default.
Proof.
  induction d as [|[k v] r IH]; simpl; [reflexivity|].
  destruct (str_eqb k key); simpl; [discriminate | exact IH].
Qed.

Lemma get_present (d : dict) (key : str) (x y : pyval) :
  has_key d key = true -> get d key x = get d key y.
Proof.
  induction d as [|[k v] r IH]; simpl; [discriminate|].
  destruct (str_eqb k key); simpl; [reflexivity | exact IH].
Qed.

Section HandlerFacts.
Context {R : Repr} {F : Fuzz}.
Variable DATA_PATH : str.

Lemma config_after_load (w : world) (st : state) :
  config w st
  = match load_json w st with
    | (Ok _, st') =>
      (match UI st' with
       | VDict d => Ok (config_of d)
       | _ => Raise AttributeError
       end, st')
    | (Raise e, st') => (Raise e, st')
    end.
Proof.
  unfold config, bind. destruct (load_json w st) as [[[]|e] st'];
    [|reflexivity].
  unfold read, lift. destruct (UI st'); reflexivity.
Qed.

Lemma health_after_load (w : world) (st : state) :
  health DATA_PATH w st
  = match load_json w st with
    | (Ok _, st') =>
      (Ok {| ok := true;
             data_path := DATA_PATH;
             kb_items_count := length (KB st') |}, st')
    | (Raise e, st') => (Raise e, st')
    end.
Proof.
  unfold health, bind. now destruct (load_json w st) as [[[]|e] st'].
Qed.

(** The response of [respond], when it uses context. *)
Lemma respond_accepted_inv (kb : list dict) (message : str) :
  used_context (respond kb message) = true ->
  exists s1 it s2 i2,
    top2_match kb (lower (strip message)) = ((s1, Some it), (s2, i2))
    /\ (80 <= s1)%Q /\ (4 <= s1 - s2)%Q
    /\ respond kb message = accepted s1 it.
Proof.
  unfold respond.
  destruct (is_empty (lower (strip message))); [discriminate|].
  destruct (top2_match kb (lower (strip message)))
    as [[s1 [it|]] [s2 i2]]; [|discriminate].
  destruct (item_truthy (Some it)); [|discriminate]. cbn [andb].
  destruct (Qle_bool THRESHOLD s1) eqn:E1; [|discriminate].
  destruct (Qle_bool MARGIN (s1 - s2)) eqn:E2; [|discriminate].
  cbn [andb]. intros _. exists s1, it, s2, i2.
  apply Qle_bool_iff in E1, E2. auto.
Qed.

Lemma respond_plain (kb : list dict) (message : str) :
  used_context (respond kb message) = false ->
  respond kb message = ASK_FOR_QUESTION \/ respond kb message = CLARIFY.
Proof.
  unfold respond.
  destruct (is_empty (lower (strip message))); [now left|].
  destruct (top2_match kb (lower (strip message)))
    as [[s1 [it|]] [s2 i2]]; [|now right].
  destruct (item_truthy (Some it) && Qle_bool THRESHOLD s1
            && Qle_bool MARGIN (s1 - s2)); [discriminate | now right].
Qed.

(** X5.  [config] after a reload of a changed file whose document is an
    object and whose entries build: a missing, null or otherwise false [ui]
    section gives the five literal defaults; a [ui] mapping gives, field by
    field, its value under the key or the default; any other [ui] value is
    stored as it is, and [config] then raises [AttributeError], again on
    every later call while the file is unchanged, while [health] still
    answers with the entry count. *)
Theorem config_from_document (w : world) (st : state) (mtime : Q)
        (data : dict) (kb : list dict) :
  getmtime w = Ok mtime ->
  Qeq_bool mtime (MTIME st) = false ->
  json_load w = Ok (VDict data) ->
  parse_kb (VDict data) = Ok kb ->
  let ui := get data (lit "ui") (VDict []) in
  let st' := {| KB := kb; UI := py_or ui (VDict []); MTIME := mtime |} in
  (truthy ui = false -> config w st = (Ok config_defaults, st'))
  /\ (forall d, ui = VDict d -> config w st = (Ok (config_of d), st'))
  /\ (truthy ui = true -> (forall d, ui <> VDict d) ->
      config w st = (Raise AttributeError, st')
      /\ config w st' = (Raise AttributeError, st')
      /\ health DATA_PATH w st'
         = (Ok {| ok := true;
                  data_path := DATA_PATH;
                  kb_items_count := length kb |}, st')).
Proof.
  intros Hm Hne Hj Hk ui st'.
  assert (Hl : load_json w st = (Ok tt, st')).
  { rewrite (load_json_changed w st Hm Hne). unfold reload.
    rewrite Hj. cbn [py_get]. now rewrite Hk. }
  assert (Hc : load_json w st' = (Ok tt, st')).
  { apply load_json_cached with mtime; [exact Hm | apply Qeq_bool_refl]. }
  split; [|split].
  - intros Hf. rewrite config_after_load, Hl. cbn [UI st'].
    unfold py_or. now rewrite Hf.
  - intros d Hd. rewrite config_after_load, Hl. cbn [UI st'].
    unfold py_or. rewrite Hd. now destruct d.
  - intros Ht Hnd.
    assert (Hui : UI st' = ui) by (cbn [UI st']; unfold py_or; now rewrite Ht).
    rewrite !config_after_load, health_after_load, Hl, Hc, Hui.
    repeat split; destruct ui; try reflexivity.
    all: exfalso; eapply Hnd; reflexivity.
Qed.

End HandlerFacts.

Section ChatFurther.
Context {R : Repr} {F : Fuzz}.

(** A score that rounds to at least [r], a binary64 number below 128,
    is above [r] less one spacing. *)
Lemma fl64_above (m : Z) (x : Q) :
  (0 <= m < 2 ^ 53)%Z ->
  (inject_Z m * ulp_64_128 < fl64 x)%Q -> (inject_Z m * ulp_64_128 < x)%Q.
Proof.
  intros Hm H. destruct (Qlt_le_dec (inject_Z m * ulp_64_128) x) as [|Hx];
    [assumption|].
  exfalso. apply (Qlt_not_le _ _ H). unfold ulp_64_128.
  apply fl64_le_dyadic; [lia | lia | | exact Hx].
  eapply Qle_lt_trans; [exact Hx|]. unfold ulp_64_128.
  replace (-46 + 53)%Z with (53 + -46)%Z by reflexivity.
  rewrite (pow2_add 53 (-46)).
  apply Qmult_lt_compat_r; [apply pow2_pos|].
  rewrite pow2_inject by lia. rewrite <- Zlt_Qlt. lia.
Qed.

Lemma fl64_at_least_80 (x : Q) :
  (80 <= fl64 x)%Q -> (80 - ulp_64_128 < x)%Q.
Proof.
  intros H.
  assert (E : (80 - ulp_64_128 == inject_Z (80 * 2 ^ 46 - 1) * ulp_64_128)%Q)
    by reflexivity.
  rewrite E. apply fl64_above; [lia|]. rewrite <- E.
  eapply Qlt_le_trans; [|exact H]. reflexivity.
Qed.

Lemma fl64_above_85 (x : Q) :
  (85 - ulp_64_128 < fl64 x)%Q -> (85 - ulp_64_128 < x)%Q.
Proof.
  assert (E : (85 - ulp_64_128 == inject_Z (85 * 2 ^ 46 - 1) * ulp_64_128)%Q)
    by reflexivity.
  rewrite E. apply fl64_above. lia.
Qed.

(** X6.  When [chat] answers from the knowledge base, the answer is the
    text of an entry whose base similarity with the query,
    [float(max(token_set_ratio, partial_ratio))], is at least 64 up to the
    last place of a double, and at least 85 up to the last place when none
    of its keywords occurs in the query: it exceeds [64 - 2 ^ -46],
    respectively [85 - 2 ^ -46]. *)
Theorem accepted_needs_similarity (w : world) (message : str)
        (st st' : state) (resp : response) :
  chat w message st = (Ok resp, st') ->
  used_context resp = true ->
  exists it,
    In it (KB st')
    /\ answer resp = get it (lit "text") (VStr (lit "Cavab mövcud deyil."))
    /\ (64 - ulp_64_128 < base_score (lower (strip message)) it)%Q
    /\ (keyword_overlap (lower (strip message))
          (norm_list (get it (lit "keywords") VNone)) = 0%nat ->
        (85 - ulp_64_128 < base_score (lower (strip message)) it)%Q).
Proof.
  rewrite chat_after_load.
  destruct (load_json w st) as [[[]|e] st'']; [|discriminate].
  intros H Hu. inversion H; subst. clear H.
  apply respond_accepted_inv in Hu
    as (s1 & it & s2 & i2 & Ht & H80 & H4 & Hr).
  assert (Hfst : fst (top2_match (KB st') (lower (strip message)))
                 = (s1, Some it)) by now rewrite Ht.
  destruct (top2_match_slot _ _ (or_introl Hfst))
    as (Hin & Hq & ov & Hs).
  apply score_item_inv in Hs as (_ & Hov & Hval).
  exists it. rewrite Hr. split; [exact Hin|]. split; [reflexivity|].
  pose proof (overlap_bonus_le_16 ov) as Hb16.
  assert (Hu : (ulp_64_128 == 1 # 70368744177664)%Q) by reflexivity.
  assert (Hzero : ov = 0%nat ->
            (85 - ulp_64_128 < base_score (lower (strip message)) it)%Q).
  { intros H0. rewrite H0 in Hval. cbn [Nat.eqb] in Hval.
    rewrite Hval in H80. apply fl64_at_least_80 in H80.
    assert (H85 : (85 - ulp_64_128
                   < fl64 (base_score (lower (strip message)) it
                           + overlap_bonus 0))%Q) by lra.
    apply fl64_above_85 in H85.
    destruct overlap_bonus_small as (E0 & _). rewrite E0 in H85. lra. }
  split.
  - destruct (ov =? 0)%nat eqn:E0.
    + apply Nat.eqb_eq in E0. specialize (Hzero E0). lra.
    + rewrite Hval in H80. apply fl64_at_least_80 in H80. lra.
  - intros H0. apply Hzero. now rewrite Hov.
Qed.

Lemma accepted_sources (s : Q) (it : dict) :
  sources (accepted s it)
  = [ {| src_id := get it (lit "id") VNone;
         src_title := get it (lit "title") VNone;
         src_source := get it (lit "source") VNone;
         src_score := py_round2 s;
         src_parent_id := get it (lit "parent_id") VNone |} ].
Proof. reflexivity. Qed.

(** X7.  From any state the loader can leave, a response of [chat] is
    either one of the two fixed prompts, without context and without
    sources, or an answer with context whose text is the text field of an
    entry of the knowledge base (never the fallback literal of the lookup),
    with exactly one source, which names that entry and carries its score
    for the trimmed, lower-cased message, rounded to two decimals: the score
    [score_item] gives the entry, which fills the first slot of
    [top2_match] and is at least 80. *)
Theorem chat_response_shape (w : world) (message : str) (st st' : state)
        (resp : response) :
  reachable st ->
  chat w message st = (Ok resp, st') ->
  (used_context resp = false /\ sources resp = []
   /\ (resp = ASK_FOR_QUESTION \/ resp = CLARIFY))
  \/ (used_context resp = true
      /\ exists it s,
           In it (KB st') /\ (80 <= s)%Q
           /\ fst (top2_match (KB st') (lower (strip message)))
              = (s, Some it)
           /\ (exists overlap,
                 score_item (lower (strip message)) it
                 = Some (s, it, overlap))
           /\ (forall default, answer resp = get it (lit "text") default)
           /\ sources resp
              = [ {| src_id := get it (lit "id") VNone;
                     src_title := get it (lit "title") VNone;
                     src_source := get it (lit "source") VNone;
                     src_score := py_round2 s;
                     src_parent_id := get it (lit "parent_id") VNone |} ]).
Proof.
  intros Hreach H.
  assert (Hreach' : reachable st').
  { apply reach_load with w st (fst (load_json w st)); [exact Hreach|].
    rewrite chat_after_load in H.
    destruct (load_json w st) as [[[]|e] st'']; inversion H; subst;
      reflexivity. }
  rewrite chat_after_load in H.
  destruct (load_json w st) as [[[]|e] st'']; [|discriminate].
  inversion H; subst. clear H.
  destruct (used_context (respond (KB st') message)) eqn:Hu.
  - right. split; [reflexivity|].
    apply respond_accepted_inv in Hu
      as (s1 & it & s2 & i2 & Ht & H80 & H4 & Hr).
    assert (Hfst : fst (top2_match (KB st') (lower (strip message)))
                   = (s1, Some it)) by now rewrite Ht.
    destruct (top2_match_slot _ _ (or_introl Hfst)) as (Hin & _ & Hsc).
    exists it, s1. rewrite Hr. repeat split; auto.
    intros default. cbn [accepted answer]. apply get_present.
    pose proof (reachable_has_text Hreach') as Hall.
    rewrite Forall_forall in Hall. now apply Hall.
  - left. split; [reflexivity|].
    destruct (respond_plain _ _ Hu) as [E|E]; rewrite E; auto.
Qed.

(** X8.  With exactly one scored entry the margin is measured against the
    score 0 of the empty second slot, so the entry is accepted exactly when
    its score is at least 80. *)
Theorem single_candidate_threshold (w : world) (message : str)
        (st st' : state) (e : scored_entry) :
  load_json w st = (Ok tt, st') ->
  lower (strip message) <> [] ->
  score_all (lower (strip message)) (KB st') = [e] ->
  chat w message st
  = (Ok (if Qle_bool 80 (score_of e)
         then accepted (score_of e) (item_of e) else CLARIFY), st').
Proof.
  intros Hl Hne Hs. rewrite chat_after_load, Hl. f_equal. f_equal.
  unfold respond.
  destruct (lower (strip message)) as [|c u] eqn:Eu; [congruence|].
  cbn [is_empty]. unfold top2_match. rewrite Hs.
  cbn [sort_desc fold_right insert_desc nth_error top_slot].
  assert (Hin : In e (score_all (c :: u) (KB st')))
    by (rewrite Hs; now left).
  apply score_all_in in Hin as [it [_ Hit]].
  destruct (score_item_some _ _ Hit) as [Hi Hq].
  assert (Ht : item_truthy (Some (item_of e)) = true).
  { rewrite Hi. destruct it; [|reflexivity].
    now rewrite build_query_text_empty_dict in Hq. }
  rewrite Ht. cbn [andb]. unfold THRESHOLD, MARGIN.
  destruct (Qle_bool 80 (score_of e)) eqn:E; [|reflexivity].
  apply Qle_bool_iff in E.
  assert (E4 : Qle_bool 4 (score_of e - 0) = true)
    by (apply Qle_bool_iff; lra).
  now rewrite E4.
Qed.

End ChatFurther.

(* ================================================================== *)
(** * Further properties: the loader *)
(* ================================================================== *)

Lemma Forall2_flat {A B C} (P : A -> list B -> Prop) (f : B -> C)
      (g : A -> list C) (l : list A) (ls : list (list B)) :
  (forall a bs, P a bs -> List.map f bs = g a) ->
  Forall2 P l ls -> List.map f (concat ls) = concat (List.map g l).
Proof.
  intros H. induction 1 as [|a bs l ls Hab Hr IH]; simpl; [reflexivity|].
  now rewrite map_app, IH, (H a bs Hab).
Qed.

Section LoaderFurther.
Context {R : Repr}.

(** X9.  Calling [load_json] again while the outside is the same repeats
    the outcome of the first call and changes nothing more: a successful
    load is not redone, and a failed one fails again in the same way. *)
Theorem load_json_twice (w : world) (st : state) :
  load_json w (snd (load_json w st)) = load_json w st.
Proof.
  pose proof (load_json_outcome w st) as O.
  destruct (getmtime w) as [mtime|e0] eqn:Hm.
  - destruct (Qeq_bool mtime (MTIME st)) eqn:E.
    + rewrite O. cbn [snd]. exact O.
    + rewrite O. unfold reload.
      destruct (json_load w) as [data|e1] eqn:Hj;
        [|cbn [snd]; rewrite O; unfold reload; now rewrite Hj].
      destruct (py_get data (lit "ui") (VDict [])) as [ui|e2] eqn:Hu;
        [|cbn [snd]; rewrite O; unfold reload; now rewrite Hj, Hu].
      destruct (parse_kb data) as [kb|e3] eqn:Hk; cbn [snd].
      * apply load_json_cached with mtime; [exact Hm|].
        apply Qeq_bool_refl.
      * rewrite (load_json_changed w (with_UI st (py_or ui (VDict [])))
                   Hm E).
        unfold reload. now rewrite Hj, Hu, Hk.
  - destruct e0; rewrite O; cbn [snd];
      try (apply load_json_stat_error; [exact Hm | discriminate]).
    now apply load_json_missing.
Qed.

Lemma chunk_entries_texts (pid title image : pyval) (chunks : list str)
      (i : nat) (ds : list dict) :
  rmap (chunk_entry pid title image) (enumerate_from i chunks) = Ok ds ->
  List.map (fun d => get d (lit "text") VNone) ds = List.map VStr chunks
  /\ List.map (fun d => get d (lit "id") VNone) ds
     = List.map
         (fun j => VStr (lit "problem_" ++ py_str pid ++ lit "_chunk_"
                         ++ str_of_Z (Z.of_nat j)))
         (seq i (length chunks)).
Proof.
  revert i ds. induction chunks as [|ch r IH]; intros i ds; simpl.
  - intros H. inversion H. split; reflexivity.
  - unfold chunk_entry at 1. cbn [fst snd].
    destruct (extract_keywords title ch) as [kws|e]; [|discriminate].
    cbn [rbind].
    destruct (rmap _ (enumerate_from (S i) r)) as [ds'|e] eqn:E;
      [|discriminate].
    cbn [rbind]. intros H. inversion H; subst.
    destruct (IH (S i) ds' E) as [H1 H2]. simpl.
    split; f_equal; assumption.
Qed.

Lemma problem_entries_texts (p : pyval) (ds : list dict) :
  problem_entries p = Ok ds ->
  exists d chunks,
    p = VDict d
    /\ split_into_chunks (get d (lit "description") (VStr [])) = Ok chunks
    /\ List.map (fun e => get e (lit "text") VNone) ds
       = List.map VStr chunks.
Proof.
  destruct p; try discriminate. unfold problem_entries.
  cbn [py_get rbind].
  destruct (split_into_chunks _) as [chunks|e] eqn:E; [|discriminate].
  cbn [rbind]. intros H. exists d, chunks.
  repeat split; [exact E|]. now apply chunk_entries_texts in H.
Qed.

Lemma item_entry_text (it : pyval) (d : dict) :
  item_entry it = Ok d -> get d (lit "text") VNone = item_text it.
Proof.
  destruct it; try discriminate. unfold item_entry. cbn [py_get rbind].
  intros H. inversion H. reflexivity.
Qed.

(** X10.  After a reload of a changed file the answer texts of the
    knowledge base are, in order, the [text] values of the elements of
    [items] followed by the passages the chunker returns for the
    [description] of each element of [problems]; so [health] counts the
    items plus all passages. *)
Theorem knowledge_base_texts (w : world) (st st' : state) (mtime : Q)
        (data : pyval) :
  getmtime w = Ok mtime ->
  Qeq_bool mtime (MTIME st) = false ->
  json_load w = Ok data ->
  load_json w st = (Ok tt, st') ->
  exists items problems passages,
    section_elements data (lit "items") = Ok items
    /\ section_elements data (lit "problems") = Ok problems
    /\ Forall2
         (fun p chunks =>
            exists d, p = VDict d
                      /\ split_into_chunks
                           (get d (lit "description") (VStr []))
                         = Ok chunks)
         problems passages
    /\ List.map (fun e => get e (lit "text") VNone) (KB st')
       = List.map item_text items ++ List.map VStr (concat passages)
    /\ length (KB st')
       = (length items + length (concat passages))%nat.
Proof.
  intros Hm Hne Hj Hl.
  rewrite (load_json_changed w st Hm Hne) in Hl. unfold reload in Hl.
  rewrite Hj in Hl.
  destruct (py_get data (lit "ui") (VDict [])) as [ui|e]; [|discriminate].
  destruct (parse_kb data) as [kb|e] eqn:Hk; [|discriminate].
  inversion Hl; subst. clear Hl. cbn [KB].
  unfold parse_kb in Hk.
  destruct (section_elements data (lit "items")) as [items|e];
    [|discriminate]. cbn [rbind] in Hk.
  destruct (rmap item_entry items) as [kb1|e] eqn:E1; [|discriminate].
  cbn [rbind] in Hk.
  destruct (section_elements data (lit "problems")) as [problems|e];
    [|discriminate]. cbn [rbind] in Hk.
  destruct (rmap problem_entries problems) as [kb2|e] eqn:E2;
    [|discriminate]. cbn [rbind] in Hk. inversion Hk; subst. clear Hk.
  apply rmap_ok in E1, E2.
  assert (H1 : List.map (fun e => get e (lit "text") VNone) kb1
               = List.map item_text items).
  { induction E1 as [|it d items kb1 Hd _ IH]; simpl; [reflexivity|].
    now rewrite IH, (item_entry_text _ Hd). }
  assert (H2 : exists passages,
             Forall2
               (fun p chunks =>
                  exists d, p = VDict d
                            /\ split_into_chunks
                                 (get d (lit "description") (VStr []))
                               = Ok chunks)
               problems passages
             /\ List.map (fun e => get e (lit "text") VNone) (concat kb2)
                = List.map VStr (concat passages)).
  { induction E2 as [|p ds problems kb2 Hp _ [passages [IHa IHb]]].
    - exists []. split; [constructor | reflexivity].
    - destruct (problem_entries_texts _ Hp) as (d & chunks & -> & Hc & Ht).
      exists (chunks :: passages). split.
      + constructor; eauto.
      + simpl. now rewrite !map_app, Ht, IHb. }
  destruct H2 as [passages [Ha Hb]].
  exists items, problems, passages. repeat split; auto.
  - now rewrite map_app, H1, Hb.
  - rewrite <- (length_map (fun e => get e (lit "text") VNone)),
      map_app, H1, Hb, length_app, !length_map. reflexivity.
Qed.

End LoaderFurther.

(* ================================================================== *)
(** * Further properties: the keyword extractor *)
(* ================================================================== *)

Lemma str_compare_eq (a b : str) : str_compare a b = Eq -> a = b.
Proof.
  revert b. induction a as [|x a IH]; intros [|y b]; simpl;
    try discriminate; [reflexivity|].
  destruct (N.compare_spec x y) as [->|H|H]; try discriminate.
  intros E. now rewrite (IH b E).
Qed.

Lemma str_compare_antisym (a b : str) :
  str_compare b a = CompOpp (str_compare a b).
Proof.
  revert b. induction a as [|x a IH]; intros [|y b]; simpl;
    try reflexivity.
  rewrite (N.compare_antisym x y).
  destruct (x ?= y); simpl; auto.
Qed.

Lemma str_lt_trans (a b c : str) : str_lt a b -> str_lt b c -> str_lt a c.
Proof.
  unfold str_lt. revert b c.
  induction a as [|x a IH]; intros [|y b] [|z c]; simpl;
    try discriminate; try reflexivity.
  destruct (N.compare_spec x y) as [->|Hxy|Hxy]; try discriminate.
  - destruct (y ?= z); try discriminate; [apply IH | reflexivity].
  - destruct (N.compare_spec y z) as [->|Hyz|Hyz]; try discriminate.
    + intros _ _. now rewrite (proj2 (N.compare_lt_iff _ _) Hxy).
    + intros _ _.
      now rewrite (proj2 (N.compare_lt_iff _ _) (N.lt_trans _ _ _ Hxy Hyz)).
Qed.

Lemma str_lt_irrefl (a : str) : ~ str_lt a a.
Proof.
  unfold str_lt. induction a as [|x a IH]; simpl; [discriminate|].
  now rewrite N.compare_refl.
Qed.

Lemma insert_sorted_in (k x : str) (l : list str) :
  In k (insert_sorted x l) <-> k = x \/ In k l.
Proof.
  induction l as [|y r IH]; simpl.
  - intuition congruence.
  - destruct (str_compare x y) eqn:E; simpl.
    + apply str_compare_eq in E. subst. intuition congruence.
    + intuition congruence.
    + rewrite IH. intuition congruence.
Qed.

Lemma sorted_set_in (k : str) (l : list str) :
  In k (sorted_set l) <-> In k l.
Proof.
  induction l as [|x r IH]; simpl; [tauto|].
  rewrite insert_sorted_in, IH. intuition congruence.
Qed.

Lemma insert_sorted_increasing (x : str) (l : list str) :
  increasing l -> increasing (insert_sorted x l).
Proof.
  induction 1 as [|y r Hy Hr IH]; simpl.
  - constructor; constructor.
  - destruct (str_compare x y) eqn:E.
    + now constructor.
    + constructor; [|now constructor].
      constructor; [exact E|].
      eapply Forall_impl; [|exact Hy]. intros z Hz.
      now apply str_lt_trans with y.
    + constructor; [|exact IH].
      apply Forall_forall. intros z Hz.
      apply insert_sorted_in in Hz as [->|Hz].
      * unfold str_lt. rewrite str_compare_antisym, E. reflexivity.
      * rewrite Forall_forall in Hy. now apply Hy.
Qed.

Lemma sorted_set_increasing (l : list str) : increasing (sorted_set l).
Proof.
  induction l as [|x r IH]; simpl; [constructor|].
  now apply insert_sorted_increasing.
Qed.

Lemma increasing_NoDup (l : list str) : increasing l -> NoDup l.
Proof.
  induction 1 as [|a l Ha Hl IH]; constructor; [|exact IH].
  intros Hin. rewrite Forall_forall in Ha.
  exact (str_lt_irrefl (Ha a Hin)).
Qed.

Lemma infix_app_l (k a b : str) : infix k b -> infix k (a ++ b).
Proof.
  intros [x [y ->]]. exists (a ++ x), y. now rewrite <- app_assoc.
Qed.

Lemma infix_app_r (k a b : str) : infix k a -> infix k (a ++ b).
Proof.
  intros [x [y ->]]. exists x, (y ++ b). now rewrite <- !app_assoc.
Qed.

(** Every match of the title pattern is a run of class characters, three
    or more long, that occurs in the scanned string. *)
Lemma findall_go_sound (s cur k : str) :
  Forall (fun c => is_title_cp c = true) cur ->
  In k (findall_go cur s) -> title_word k /\ infix k (cur ++ s).
Proof.
  revert cur. induction s as [|c r IH]; intros cur Hcur; simpl.
  - unfold emit_word. destruct (Nat.leb_spec 3 (length cur)); [|intros []].
    intros [<-|[]]. split; [now split|].
    rewrite app_nil_r. apply infix_refl.
  - destruct (is_title_cp c) eqn:Ec.
    + intros H. apply IH in H.
      * now rewrite <- app_assoc in H.
      * apply Forall_app. split; [exact Hcur | now constructor].
    + intros H. apply in_app_or in H as [H|H].
      * unfold emit_word in H.
        destruct (Nat.leb_spec 3 (length cur)); [|destruct H].
        destruct H as [<-|[]]. split; [now split|].
        exists [], (c :: r). reflexivity.
      * apply (IH []) in H; [|constructor]. destruct H as [Hw Hi].
        split; [exact Hw|]. apply infix_app_l.
        destruct Hi as [x [y E]]. exists (c :: x), y. simpl in *.
        now rewrite E.
Qed.

Lemma keybank_hits_in (k title_l text_l : str) :
  In k (keybank_hits title_l text_l)
  <-> In k keybank_triggers /\ (infix k title_l \/ infix k text_l).
Proof.
  unfold keybank_hits, keybank_triggers. rewrite !in_flat_map. split.
  - intros [entry [He Hk]]. apply filter_In in Hk as [Hk Hb].
    apply orb_true_iff in Hb. rewrite !str_in_infix in Hb. eauto.
  - intros [[entry [He Hk]] Hb]. exists entry. split; [exact He|].
    apply filter_In. split; [exact Hk|].
    apply orb_true_iff. now rewrite !str_in_infix.
Qed.

(** X11.  [extract_keywords] raises [AttributeError] when the title is a
    true value that is not a string, and returns otherwise.  Every keyword
    it returns is a run of three or more pattern characters of the lowered
    title, or a key-bank trigger that occurs in the lowered title or
    passage, or one of the two phrase tags; every occurring trigger is
    returned, and the phrase tags are returned when the lowered passage
    holds "qulaq" and one of "ağlay", "aglay". *)
Theorem extract_keywords_provenance (title : pyval) (text : str) :
  (truthy title = true -> (forall s, title <> VStr s) ->
   extract_keywords title text = Raise AttributeError)
  /\ forall title_s,
       py_or title (VStr []) = VStr title_s ->
       let title_l := lower title_s in
       let text_l := lower text in
       let crying :=
         infix (lit "qulaq") text_l
         /\ (infix (lit "ağlay") text_l \/ infix (lit "aglay") text_l) in
       exists kws,
         extract_keywords title text = Ok kws
         /\ (forall k, In k kws ->
               (title_word k /\ infix k title_l)
               \/ (In k keybank_triggers
                   /\ (infix k title_l \/ infix k text_l))
               \/ (In k phrase_tags /\ crying))
         /\ (forall k, In k keybank_triggers ->
               infix k title_l \/ infix k text_l -> In k kws)
         /\ (crying -> forall k, In k phrase_tags -> In k kws).
Proof.
  split.
  - intros Ht Hn. unfold extract_keywords, py_or. rewrite Ht.
    destruct title; try reflexivity. exfalso. now apply (Hn s).
  - intros title_s Hor title_l text_l crying.
    unfold extract_keywords. rewrite Hor. cbn [py_lower rbind].
    fold title_l. fold text_l.
    set (cond := str_in (lit "qulaq") text_l
                 && (str_in (lit "ağlay") text_l
                     || str_in (lit "aglay") text_l)).
    assert (Hcond : cond = true <-> crying).
    { unfold cond, crying.
      now rewrite andb_true_iff, orb_true_iff, !str_in_infix. }
    eexists. split; [reflexivity|].
    split; [|split].
    + intros k Hk. apply (proj1 (sorted_set_in _ _)) in Hk.
      destruct cond eqn:Ec.
      * apply in_app_or in Hk as [Hk|Hk].
        -- apply in_app_or in Hk as [Hk|Hk].
           ++ left. apply (findall_go_sound title_l (cur := [])) in Hk;
                [exact Hk | constructor].
           ++ right. left. exact (proj1 (keybank_hits_in _ _ _) Hk).
        -- right. right. split; [exact Hk | now apply Hcond].
      * apply in_app_or in Hk as [Hk|Hk].
        -- left. apply (findall_go_sound title_l (cur := [])) in Hk;
             [exact Hk | constructor].
        -- right. left. exact (proj1 (keybank_hits_in _ _ _) Hk).
    + intros k Hk Ho. apply sorted_set_in.
      assert (Hh : In k (keybank_hits title_l text_l))
        by exact (proj2 (keybank_hits_in _ _ _) (conj Hk Ho)).
      destruct cond; repeat (apply in_or_app; try (now right); left);
        apply in_or_app; now right.
    + intros Hc k Hk. apply sorted_set_in.
      rewrite (proj2 Hcond Hc). apply in_or_app. now right.
Qed.

(** X12.  The keywords [extract_keywords] returns are in strictly
    increasing code-point order, hence without duplicates. *)
Theorem extract_keywords_sorted (title : pyval) (text : str)
        (kws : list str) :
  extract_keywords title text = Ok kws ->
  increasing kws /\ NoDup kws.
Proof.
  unfold extract_keywords.
  destruct (py_lower (py_or title (VStr []))) as [title_l|e];
    [|discriminate].
  cbn [rbind]. intros H. inversion H.
  split; [|apply increasing_NoDup]; apply sorted_set_increasing.
Qed.

(* ================================================================== *)
(** * Further properties: the chunker and the entry texts *)
(* ================================================================== *)

Lemma replace_crlf_elements (s : str) :
  (forall c, In c (replace_crlf s) -> In c s)
  /\ (forall x c, In c (replace_crlf (x :: s)) -> In c (x :: s)).
Proof.
  induction s as [|d r [IH1 IH2]].
  - split; [intros c [] | intros x c H; exact H].
  - split; [exact (IH2 d)|]. intros x c.
    change (replace_crlf (x :: d :: r))
      with (if (x =? CR) && (d =? NL) then NL :: replace_crlf r
            else x :: replace_crlf (d :: r)).
    destruct ((x =? CR) && (d =? NL)) eqn:E.
    + apply andb_true_iff in E as [_ E]. apply N.eqb_eq in E. subst d.
      intros [<-|H]; [right; now left | right; right; now apply IH1].
    + intros [<-|H]; [now left | right; now apply IH2].
Qed.

Lemma replace_crlf_all_space (s : str) :
  all_space s = true -> all_space (replace_crlf s) = true.
Proof.
  unfold all_space. rewrite !forallb_forall. intros H c Hc.
  apply H. now apply (proj1 (replace_crlf_elements s)).
Qed.

Lemma run_free_infix (k : nat) (p q : str) :
  run_free k p -> infix q p -> run_free k q.
Proof.
  intros Hp [a [b ->]] x y E. apply (Hp (a ++ x) (y ++ b)).
  rewrite E. now rewrite <- !app_assoc.
Qed.

Lemma splits_run_free (k : nat) (t : str) (pieces : list str) :
  splits k t pieces -> Forall (run_free k) pieces.
Proof. induction 1; constructor; auto. Qed.

(** X13.  [split_into_chunks] on the values a document can hold: a false
    value (absent, null, empty string, zero, empty list) gives no passage;
    a true value that is not a string raises [AttributeError]; and a
    string of whitespace only, not empty, gives one passage, the empty
    string. *)
Theorem split_into_chunks_edges :
  (forall v, truthy v = false -> split_into_chunks v = Ok [])
  /\ (forall v, truthy v = true -> (forall s, v <> VStr s) ->
        split_into_chunks v = Raise AttributeError)
  /\ (forall s, s <> [] -> all_space s = true ->
        split_into_chunks (VStr s) = Ok [[]]).
Proof.
  split; [|split].
  - intros v H. unfold split_into_chunks. now rewrite H.
  - intros v H Hn. unfold split_into_chunks. rewrite H.
    destruct v; try reflexivity. exfalso. now apply (Hn s).
  - intros s Hne Hs. unfold split_into_chunks.
    destruct s as [|c r]; [congruence|]. cbn [truthy is_empty negb].
    unfold chunks_of.
    now rewrite (strip_all_space _ (replace_crlf_all_space _ Hs)).
Qed.

(** X14.  The passages of a non-empty text are trimmed; and either the
    result is the whole normalised text alone, or every passage has at
    least 80 characters and no two newlines in a row. *)
Theorem passages_shape (text : str) :
  text <> [] ->
  exists chunks,
    split_into_chunks (VStr text) = Ok chunks
    /\ Forall (fun c => strip c = c) chunks
    /\ (chunks = [strip (replace_crlf text)]
        \/ Forall (fun c => (80 <= length c)%nat /\ run_free 2 c) chunks).
Proof.
  intros Hne. exists (chunks_of 2 text).
  split; [unfold split_into_chunks; destruct text; [congruence|reflexivity]|].
  unfold chunks_of. set (t := strip (replace_crlf text)).
  rewrite keep_long_filter.
  assert (Hs : splits 2 t (re_split_newlines 2 t))
    by (apply re_split_newlines_splits; lia).
  apply splits_run_free in Hs. rewrite Forall_forall in Hs.
  destruct (filter _ _) as [|c kept] eqn:Ek.
  - split; [|now left]. constructor; [apply strip_idem | constructor].
  - rewrite <- Ek. split.
    + apply Forall_forall. intros q Hq. apply filter_In in Hq as [Hq _].
      apply in_map_iff in Hq as [p [<- _]]. apply strip_idem.
    + right. apply Forall_forall. intros q Hq.
      apply filter_In in Hq as [Hq Hlen].
      apply in_map_iff in Hq as [p [<- Hp]].
      split; [now apply Nat.leb_le|].
      apply run_free_infix with p; [now apply Hs | apply infix_strip].
Qed.

Lemma lowercase_lower (s : str) : lowercase s -> lower s = s.
Proof. apply lower_go_fixed. Qed.

Lemma lower_lowercase (s : str) : lowercase (lower s).
Proof. apply lower_go_lowercase. Qed.

Lemma lowercase_app (a b : str) :
  lowercase a -> lowercase b -> lowercase (a ++ b).
Proof. intros Ha Hb. apply Forall_app. now split. Qed.

Lemma lowercase_infix (p s : str) : lowercase s -> infix p s -> lowercase p.
Proof.
  intros Hs [a [b ->]]. apply Forall_app in Hs as [_ Hs].
  now apply Forall_app in Hs as [Hs _].
Qed.

Lemma lowercase_space : lowercase [SP].
Proof. constructor; [vm_compute; reflexivity | constructor]. Qed.

Lemma lowercase_join (tags : list str) :
  Forall lowercase tags -> lowercase (join [SP] tags).
Proof.
  induction 1 as [|t r Ht Hr IH]; simpl; [constructor|].
  destruct r as [|t' r']; [exact Ht|].
  apply lowercase_app; [exact Ht|].
  constructor; [vm_compute; reflexivity | exact IH].
Qed.

Lemma normal_tag_trimmed (s : str) :
  normal_tag s -> strip s = s /\ lower s = s.
Proof.
  intros [_ H].
  assert (Hs : strip s = s).
  { pose proof (stripped_lower (strip_stripped s)) as St.
    rewrite H in St. now apply stripped_strip. }
  split; [exact Hs|]. now rewrite Hs in H.
Qed.

Section TagFacts.
Context {R : Repr}.

Lemma norm_list_loop_lowercase (l : list pyval) :
  Forall lowercase (norm_list_loop l).
Proof.
  eapply Forall_impl; [|apply norm_list_loop_normal].
  intros s Hs. destruct (normal_tag_trimmed Hs) as [_ H].
  rewrite <- H. apply lower_lowercase.
Qed.

Lemma norm_list_lowercase (x : pyval) : Forall lowercase (norm_list x).
Proof.
  unfold norm_list. destruct (truthy x); simpl; [|constructor].
  destruct x;
    try (match goal with
         | |- context [is_empty ?s] => destruct (is_empty s)
         end; repeat constructor; apply lower_lowercase);
    try apply norm_list_loop_lowercase.
  repeat constructor. apply lower_lowercase.
Qed.

Lemma norm_list_loop_length (l : list pyval) :
  (length (norm_list_loop l) <= length l)%nat.
Proof.
  induction l as [|v r IH]; simpl; [lia|].
  destruct v; try (simpl; lia);
    match goal with
    | |- context [is_empty ?s] => destruct (is_empty s)
    end; simpl; lia.
Qed.

(** X15.  On every input but a string that is blank without being empty,
    the tags [norm_list] returns are non-empty, trimmed and in lower case,
    and normalising them again returns the same list; a list never gives
    more tags than it has elements, and a false value gives none. *)
Theorem norm_list_tags (x : pyval) :
  (forall s, x = VStr s -> s = [] \/ ~ blank s) ->
  Forall (fun t => t <> [] /\ strip t = t /\ lower t = t) (norm_list x)
  /\ norm_list (VStrs (norm_list x)) = norm_list x
  /\ (forall l, x = VList l -> (length (norm_list x) <= length l)%nat)
  /\ (truthy x = false -> norm_list x = []).
Proof.
  intros Hx. split; [|split; [|split]].
  - eapply Forall_impl; [|apply (norm_list_normal Hx)].
    intros t Ht. split; [exact (proj1 Ht) | now apply normal_tag_trimmed].
  - now apply norm_list_idempotent.
  - intros l ->. unfold norm_list. destruct l as [|v r]; [simpl; lia|].
    cbn [truthy negb]. apply norm_list_loop_length.
  - intros H. unfold norm_list. now rewrite H.
Qed.

(** X16.  The composite query text of an entry is trimmed and in lower
    case, whatever the case of the title, topic, keywords and text of the
    entry. *)
Theorem build_query_text_normal (item : dict) :
  strip (build_query_text item) = build_query_text item
  /\ lower (build_query_text item) = build_query_text item.
Proof.
  unfold build_query_text. split; [apply strip_idem|].
  apply lowercase_lower.
  eapply lowercase_infix; [|apply infix_strip].
  repeat apply lowercase_app;
    try exact lowercase_space; try apply lower_lowercase.
  - apply lowercase_join, norm_list_lowercase.
  - eapply lowercase_infix; [apply lower_lowercase|].
    exists [], (skipn 800 (lower (py_str (get item (lit "text") (VStr []))))).
    cbn [app]. symmetry. apply firstn_skipn.
Qed.

End TagFacts.

(* ================================================================== *)
(** * Further properties: the identifiers of chunk entries *)
(* ================================================================== *)

Lemma decode_ascii (bs : list N) :
  Forall (fun b => b < 128) bs -> Utf8.decode bs = bs.
Proof.
  induction 1 as [|b r Hb Hr IH]; simpl; [reflexivity|].
  rewrite (proj2 (N.ltb_lt _ _) Hb). now rewrite IH.
Qed.

Lemma bytes_inj (s1 s2 : string) : Utf8.bytes s1 = Utf8.bytes s2 -> s1 = s2.
Proof.
  unfold Utf8.bytes. intros H.
  rewrite <- (string_of_list_ascii_of_string s1),
    <- (string_of_list_ascii_of_string s2).
  f_equal. revert H.
  generalize (list_ascii_of_string s1) (list_ascii_of_string s2).
  induction l as [|a l IH]; intros [|b l']; simpl; try discriminate;
    [reflexivity|].
  intros H. inversion H as [[Hab Hl]].
  rewrite <- (ascii_N_embedding a), <- (ascii_N_embedding b), Hab.
  now rewrite (IH l' Hl).
Qed.

Lemma uint_digits_ascii (d : Decimal.uint) :
  Forall (fun b => b < 128) (Utf8.bytes (NilEmpty.string_of_uint d)).
Proof.
  induction d; simpl; constructor; try reflexivity; assumption.
Qed.

Lemma int_digits_ascii (d : Decimal.signed_int) :
  Forall (fun b => b < 128) (Utf8.bytes (NilZero.string_of_int d)).
Proof.
  destruct d as [u|u]; simpl.
  - destruct u; try apply uint_digits_ascii.
    simpl. constructor; [reflexivity | constructor].
  - constructor; [reflexivity|].
    destruct u; try apply uint_digits_ascii.
    simpl. constructor; [reflexivity | constructor].
Qed.

Lemma to_int_not_nil (z : Z) :
  Z.to_int z <> Decimal.Pos Decimal.Nil
  /\ Z.to_int z <> Decimal.Neg Decimal.Nil.
Proof.
  destruct z as [|p|p]; simpl; split; try discriminate;
    intros H; inversion H as [E]; exact (Unsigned.to_uint_nonnil p E).
Qed.

(** [str] of an integer determines the integer. *)
Lemma str_of_Z_inj (a b : Z) : str_of_Z a = str_of_Z b -> a = b.
Proof.
  unfold str_of_Z, lit. rewrite !decode_ascii by apply int_digits_ascii.
  intros H. apply bytes_inj in H. apply to_int_inj.
  destruct (to_int_not_nil a) as [Ha1 Ha2].
  destruct (to_int_not_nil b) as [Hb1 Hb2].
  pose proof (NilZero.isi _ Ha1 Ha2) as Ia.
  pose proof (NilZero.isi _ Hb1 Hb2) as Ib.
  rewrite H in Ia. congruence.
Qed.

Lemma NoDup_map_inj {A B} (f : A -> B) (l : list A) :
  (forall a b, f a = f b -> a = b) -> NoDup l -> NoDup (List.map f l).
Proof.
  intros Hf. induction 1 as [|a l Ha Hl IH]; simpl; constructor; auto.
  intros Hin. apply in_map_iff in Hin as [b [Hb Hin]].
  apply Hf in Hb. now subst.
Qed.

Section ChunkIds.
Context {R : Repr}.

Lemma chunk_entries_fields (pid title image : pyval) (chunks : list str)
      (i : nat) (ds : list dict) :
  rmap (chunk_entry pid title image) (enumerate_from i chunks) = Ok ds ->
  Forall
    (fun e => get e (lit "parent_id") VNone = pid
              /\ get e (lit "title") VNone = title
              /\ get e (lit "image") VNone = image
              /\ get e (lit "topic") VNone = VStr (lit "expert_article")
              /\ get e (lit "source") VNone = VStr (lit "problems"))
    ds.
Proof.
  apply rmap_ok_forall. intros [j ch] d. unfold chunk_entry. cbn [fst snd].
  destruct (extract_keywords title ch) as [kws|e]; [|discriminate].
  cbn [rbind]. intros H. inversion H. repeat split.
Qed.

(** X17.  The entries built from one element of [problems] have pairwise
    different identifiers, and each carries the element's id as parent id,
    its title and image, the topic "expert_article" and the source
    "problems". *)
Theorem problem_entries_ids (p : dict) (ds : list dict) :
  problem_entries (VDict p) = Ok ds ->
  NoDup (List.map (fun e => get e (lit "id") VNone) ds)
  /\ Forall
       (fun e =>
          get e (lit "parent_id") VNone = get p (lit "id") VNone
          /\ get e (lit "title") VNone = get p (lit "title") (VStr [])
          /\ get e (lit "image") VNone = get p (lit "image") VNone
          /\ get e (lit "topic") VNone = VStr (lit "expert_article")
          /\ get e (lit "source") VNone = VStr (lit "problems"))
       ds.
Proof.
  unfold problem_entries. cbn [py_get rbind].
  destruct (split_into_chunks _) as [chunks|e]; [|discriminate].
  cbn [rbind]. intros H. split; [|now apply chunk_entries_fields in H].
  apply chunk_entries_texts in H as [_ H]. rewrite H.
  apply NoDup_map_inj; [|apply seq_NoDup].
  intros a b E. inversion E as [E'].
  repeat apply app_inv_head in E'. inversion E' as [E''].
  apply str_of_Z_inj in E''. now apply Nat2Z.inj.
Qed.

End ChunkIds.

(* ================================================================== *)
(** * Witnesses of the further properties *)
(* ================================================================== *)

Lemma top2_match_first_maximal_witness :
  @score_item example_repr example_fuzz dominant_query stale_entry
  = Some (104%Q, stale_entry, 1%nat)
  /\ fst (@top2_match example_repr example_fuzz
            ([] ++ stale_entry :: [stale_entry]) dominant_query)
     = (104%Q, Some stale_entry).
Proof.
  assert (He : @score_item example_repr example_fuzz dominant_query
                 stale_entry = Some (104%Q, stale_entry, 1%nat))
    by (vm_compute; reflexivity).
  split; [exact He|].
  apply (@top2_match_first_maximal example_repr example_fuzz []
           [stale_entry] stale_entry (104%Q, stale_entry, 1%nat)
           dominant_query He).
  - intros it' e' [].
  - intros it' e' [<-|[]] H. rewrite He in H. inversion H.
    apply Qle_refl.
Defined.

Lemma config_from_document_witness :
  getmtime listed_ui_world = Ok 2%Q
  /\ Qeq_bool 2 (MTIME stale_state) = false
  /\ @config example_repr listed_ui_world stale_state
     = (Raise AttributeError,
        {| KB := []; UI := VList [VInt 1]; MTIME := 2%Q |}).
Proof.
  split; [reflexivity|]. split; [reflexivity|].
  apply (@config_from_document example_repr [] listed_ui_world stale_state
           2%Q [(lit "ui", VList [VInt 1])] []
           eq_refl eq_refl eq_refl eq_refl).
  - reflexivity.
  - intros d H. discriminate H.
Defined.

Lemma accepted_needs_similarity_witness :
  @chat example_repr example_fuzz cached_world dominant_query stale_state
  = (Ok (accepted 104%Q stale_entry), stale_state)
  /\ exists it,
       In it (KB stale_state)
       /\ answer (accepted 104%Q stale_entry)
          = get it (lit "text") (VStr (lit "Cavab mövcud deyil."))
       /\ (64 - ulp_64_128 < @base_score example_repr example_fuzz
                                (lower (strip dominant_query)) it)%Q
       /\ (keyword_overlap (lower (strip dominant_query))
             (@norm_list example_repr (get it (lit "keywords") VNone))
           = 0%nat ->
           (85 - ulp_64_128 < @base_score example_repr example_fuzz
                                 (lower (strip dominant_query)) it)%Q).
Proof.
  assert (Hc : @chat example_repr example_fuzz cached_world dominant_query
                 stale_state
               = (Ok (accepted 104%Q stale_entry), stale_state))
    by (vm_compute; reflexivity).
  split; [exact Hc|].
  apply (@accepted_needs_similarity example_repr example_fuzz cached_world
           dominant_query stale_state stale_state
           (accepted 104%Q stale_entry) Hc).
  reflexivity.
Defined.

Lemma chat_response_shape_witness :
  @reachable example_repr untexted_state
  /\ @chat example_repr example_fuzz untexted_world (lit "Qulaq")
       untexted_state
     = (Ok (accepted 95%Q (nth 0 (KB untexted_state) [])), untexted_state)
  /\ forall default,
       answer (accepted 95%Q (nth 0 (KB untexted_state) []))
       = get (nth 0 (KB untexted_state) []) (lit "text") default.
Proof.
  assert (Hc : @chat example_repr example_fuzz untexted_world (lit "Qulaq")
                 untexted_state
               = (Ok (accepted 95%Q (nth 0 (KB untexted_state) [])),
                  untexted_state))
    by (vm_compute; reflexivity).
  split; [exact untexted_state_reachable|]. split; [exact Hc|].
  destruct (@chat_response_shape example_repr example_fuzz untexted_world
              (lit "Qulaq") untexted_state untexted_state
              (accepted 95%Q (nth 0 (KB untexted_state) []))
              untexted_state_reachable Hc)
    as [[H _] | [_ [it [s [Hin [_ [_ [_ [Ht _]]]]]]]]].
  - discriminate H.
  - destruct Hin as [<-|[]]. exact Ht.
Defined.

Lemma single_candidate_threshold_witness :
  @load_json example_repr cached_world stale_state = (Ok tt, stale_state)
  /\ lower (strip dominant_query) <> []
  /\ @score_all example_repr example_fuzz (lower (strip dominant_query))
       (KB stale_state)
     = [(104%Q, stale_entry, 1%nat)]
  /\ @chat example_repr example_fuzz cached_world dominant_query stale_state
     = (Ok (if Qle_bool 80 (score_of (104%Q, stale_entry, 1%nat))
            then accepted (score_of (104%Q, stale_entry, 1%nat))
                   (item_of (104%Q, stale_entry, 1%nat))
            else CLARIFY),
        stale_state).
Proof.
  assert (Hs : @score_all example_repr example_fuzz
                 (lower (strip dominant_query)) (KB stale_state)
               = [(104%Q, stale_entry, 1%nat)])
    by (vm_compute; reflexivity).
  assert (Hn : lower (strip dominant_query) <> [])
    by (vm_compute; discriminate).
  split; [reflexivity|]. split; [exact Hn|]. split; [exact Hs|].
  apply (@single_candidate_threshold example_repr example_fuzz cached_world
           dominant_query stale_state stale_state
           (104%Q, stale_entry, 1%nat) eq_refl Hn Hs).
Defined.

Lemma knowledge_base_texts_witness :
  getmtime untexted_world = Ok 2%Q
  /\ Qeq_bool 2 (MTIME initial_state) = false
  /\ @load_json example_repr untexted_world initial_state
     = (Ok tt, untexted_state)
  /\ exists items problems passages,
       section_elements
         (VDict [ (lit "items",
                   VList [VDict [(lit "title", VStr (lit "qulaq"))]]) ])
         (lit "items") = Ok items
       /\ section_elements
            (VDict [ (lit "items",
                      VList [VDict [(lit "title", VStr (lit "qulaq"))]]) ])
            (lit "problems") = Ok problems
       /\ Forall2
            (fun p chunks =>
               exists d, p = VDict d
                         /\ split_into_chunks
                              (get d (lit "description") (VStr []))
                            = Ok chunks)
            problems passages
       /\ List.map (fun e => get e (lit "text") VNone) (KB untexted_state)
          = List.map item_text items ++ List.map VStr (concat passages)
       /\ length (KB untexted_state)
          = (length items + length (concat passages))%nat.
Proof.
  split; [reflexivity|]. split; [reflexivity|]. split; [reflexivity|].
  apply (@knowledge_base_texts example_repr untexted_world initial_state
           untexted_state 2%Q _ eq_refl eq_refl eq_refl eq_refl).
Defined.

Lemma extract_keywords_sorted_witness :
  extract_keywords (VStr (lit "Səs-küy və qulaq")) (lit "tozsoran səsi")
  = Ok (List.map lit
          [ "küy"; "qulaq"; "səs"; "səs-küy"; "tozsoran" ]%string)
  /\ increasing
       (List.map lit
          [ "küy"; "qulaq"; "səs"; "səs-küy"; "tozsoran" ]%string)
  /\ NoDup
       (List.map lit
          [ "küy"; "qulaq"; "səs"; "səs-küy"; "tozsoran" ]%string).
Proof.
  assert (H : extract_keywords (VStr (lit "Səs-küy və qulaq"))
                (lit "tozsoran səsi")
              = Ok (List.map lit
                      [ "küy"; "qulaq"; "səs"; "səs-küy";
                        "tozsoran" ]%string))
    by (vm_compute; reflexivity).
  split; [exact H|].
  apply (@extract_keywords_sorted (VStr (lit "Səs-küy və qulaq"))
           (lit "tozsoran səsi") _ H).
Defined.

Lemma passages_shape_witness :
  two_paragraphs <> []
  /\ exists chunks,
       split_into_chunks (VStr two_paragraphs) = Ok chunks
       /\ Forall (fun c => strip c = c) chunks
       /\ (chunks = [strip (replace_crlf two_paragraphs)]
           \/ Forall (fun c => (80 <= length c)%nat /\ run_free 2 c)
                chunks).
Proof.
  split; [discriminate|].
  apply (@passages_shape two_paragraphs). discriminate.
Defined.

Lemma norm_list_tags_witness :
  (forall s,
     VList [VStr (lit " ПРИВЕТ Σ "); VStr (lit "ƎL Ǆ"); VNone; VInt 5]
     = VStr s ->
     s = [] \/ ~ blank s)
  /\ @norm_list example_repr
       (VList [VStr (lit " ПРИВЕТ Σ "); VStr (lit "ƎL Ǆ"); VNone; VInt 5])
     = [lit "привет σ"; lit "ǝl ǆ"; lit "5"]
  /\ Forall (fun t => t <> [] /\ strip t = t /\ lower t = t)
       (@norm_list example_repr
          (VList [VStr (lit " ПРИВЕТ Σ "); VStr (lit "ƎL Ǆ"); VNone;
                  VInt 5])).
Proof.
  assert (H : forall s,
                VList [VStr (lit " ПРИВЕТ Σ "); VStr (lit "ƎL Ǆ"); VNone;
                       VInt 5] = VStr s ->
                s = [] \/ ~ blank s)
    by (intros s E; discriminate E).
  split; [exact H|]. split; [vm_compute; reflexivity|].
  exact (proj1 (@norm_list_tags example_repr
                  (VList [VStr (lit " ПРИВЕТ Σ "); VStr (lit "ƎL Ǆ"); VNone;
                          VInt 5]) H)).
Defined.

Lemma problem_entries_ids_witness :
  (exists ds, @problem_entries example_repr (VDict sample_problem) = Ok ds
              /\ length ds = 2%nat
              /\ NoDup (List.map (fun e => get e (lit "id") VNone) ds)).
Proof.
  destruct (@problem_entries example_repr (VDict sample_problem))
    as [ds|e] eqn:E; [|vm_compute in E; discriminate E].
  exists ds. split; [reflexivity|]. split.
  - vm_compute in E. inversion E. reflexivity.
  - exact (proj1 (@problem_entries_ids example_repr sample_problem ds E)).
Defined.

(* ================================================================== *)
(** * Further properties: ties, and the shape of the globals *)
(* ================================================================== *)

Lemma insert_desc_perm (x : scored_entry) (l : list scored_entry) :
  Permutation (insert_desc x l) (x :: l).
Proof.
  induction l as [|y r IH]; simpl; [reflexivity|].
  destruct (Qle_bool (score_of y) (score_of x)); [reflexivity|].
  rewrite IH. apply perm_swap.
Qed.

Lemma sort_desc_perm (l : list scored_entry) : Permutation (sort_desc l) l.
Proof.
  induction l as [|x r IH]; simpl; [reflexivity|].
  rewrite insert_desc_perm. now constructor.
Qed.

Lemma descending_head_max (h : scored_entry) (t : list scored_entry) :
  descending (h :: t) ->
  Forall (fun x => (score_of x <= score_of h)%Q) t.
Proof.
  revert h. induction t as [|y t IH]; intros h Hd; [constructor|].
  inversion Hd as [| |h' y' t' Hyh Hd']; subst.
  constructor; [exact Hyh|].
  eapply Forall_impl; [|apply (IH y Hd')].
  intros x Hx. now apply Qle_trans with (score_of y).
Qed.

Section Ties.
Context {R : Repr} {F : Fuzz}.

(** X18.  A tie for the best score is never answered: when two entries at
    different places of the knowledge base both reach the highest score
    for a message, [chat] returns the clarification prompt. *)
Theorem tie_for_best_clarifies (w : world) (message : str) (st st' : state)
        (a b c : list dict) (it1 it2 : dict) (e1 e2 : scored_entry) :
  load_json w st = (Ok tt, st') ->
  lower (strip message) <> [] ->
  KB st' = a ++ it1 :: b ++ it2 :: c ->
  score_item (lower (strip message)) it1 = Some e1 ->
  score_item (lower (strip message)) it2 = Some e2 ->
  (forall it e, In it (KB st') ->
                score_item (lower (strip message)) it = Some e ->
                (score_of e <= score_of e1)%Q) ->
  (score_of e1 <= score_of e2)%Q ->
  chat w message st = (Ok CLARIFY, st').
Proof.
  intros Hl Hne Hkb H1 H2 Hmax Htie.
  rewrite chat_after_load, Hl. f_equal. f_equal. unfold respond.
  destruct (lower (strip message)) as [|c0 u0] eqn:Eu; [congruence|].
  cbn [is_empty]. unfold top2_match.
  set (l := score_all (c0 :: u0) (KB st')).
  assert (El : l = score_all (c0 :: u0) a
                   ++ e1 :: score_all (c0 :: u0) b
                   ++ e2 :: score_all (c0 :: u0) c).
  { unfold l. rewrite Hkb, score_all_app. cbn [score_all]. rewrite H1.
    rewrite score_all_app. cbn [score_all]. now rewrite H2. }
  pose proof (sort_desc_perm l) as Hp.
  pose proof (sort_desc_descending l) as Hd.
  assert (Hp' : Permutation (sort_desc l)
                  (e1 :: e2 :: score_all (c0 :: u0) a
                      ++ score_all (c0 :: u0) b
                      ++ score_all (c0 :: u0) c)).
  { rewrite Hp, El.
    rewrite <- Permutation_middle. constructor.
    rewrite app_assoc. rewrite <- Permutation_middle.
    now rewrite <- app_assoc. }
  destruct (sort_desc l) as [|h1 [|h2 rest]] eqn:Es.
  - apply Permutation_nil in Hp'. discriminate.
  - apply Permutation_length in Hp'. simpl in Hp'. lia.
  - cbn [nth_error top_slot].
    assert (Hh1 : (score_of h1 <= score_of e1)%Q).
    { assert (Hin : In h1 l).
      { apply sort_desc_in. rewrite Es. now left. }
      apply score_all_in in Hin as [it [Hin Hs]]. eauto. }
    assert (Hin2 : In e1 (h2 :: rest) \/ In e2 (h2 :: rest)).
    { assert (Hin : In e1 (h1 :: h2 :: rest))
        by (apply (Permutation_in _ (Permutation_sym Hp')); now left).
      destruct Hin as [<-|Hin]; [|now left].
      right. apply Permutation_cons_inv in Hp'.
      apply (Permutation_in _ (Permutation_sym Hp')). now left. }
    pose proof (descending_head_max Hd) as Hall.
    rewrite Forall_forall in Hall.
    assert (Hh2 : (score_of e1 <= score_of h2)%Q).
    { assert (Hx : forall x, In x (h2 :: rest) ->
                             (score_of x <= score_of h2)%Q).
      { intros x [<-|Hx]; [apply Qle_refl|].
        assert (Hd2 : descending (h2 :: rest)) by now inversion Hd.
        pose proof (descending_head_max Hd2) as Hall2.
        rewrite Forall_forall in Hall2. now apply Hall2. }
      destruct Hin2 as [Hin2|Hin2].
      - now apply Hx.
      - apply Qle_trans with (score_of e2); [exact Htie | now apply Hx]. }
    destruct (item_truthy (Some (item_of h1)) && Qle_bool THRESHOLD (score_of h1))
      ; cbn [andb]; [|reflexivity].
    destruct (Qle_bool MARGIN (score_of h1 - score_of h2)) eqn:E;
      [|reflexivity].
    apply Qle_bool_iff in E. unfold MARGIN in E. lra.
Qed.

End Ties.

Lemma has_keys_compute (e : dict) (keys : list string) :
  forallb (fun key => has_key e (lit key)) keys = true ->
  Forall (fun key => has_key e (lit key) = true) keys.
Proof. intros H. apply Forall_forall. now apply forallb_forall. Qed.

Section GlobalsShape.
Context {R : Repr}.

Lemma item_entry_shape (it : pyval) (d : dict) :
  item_entry it = Ok d -> entry_shape d.
Proof.
  destruct it; try discriminate. unfold item_entry. cbn [py_get rbind].
  intros H. inversion H. split; [|split].
  - apply has_keys_compute. reflexivity.
  - eexists. reflexivity.
  - left. reflexivity.
Qed.

Lemma chunk_entry_shape (pid title image : pyval) (ic : nat * str)
      (d : dict) :
  chunk_entry pid title image ic = Ok d -> entry_shape d.
Proof.
  unfold chunk_entry.
  destruct (extract_keywords title (snd ic)) as [kws|e]; [|discriminate].
  cbn [rbind]. intros H. inversion H. split; [|split].
  - apply has_keys_compute. reflexivity.
  - eexists. reflexivity.
  - right. reflexivity.
Qed.

Lemma parse_kb_shape (data : pyval) (kb : list dict) :
  parse_kb data = Ok kb -> Forall entry_shape kb.
Proof.
  unfold parse_kb.
  destruct (section_elements data (lit "items")) as [items|e];
    [|discriminate]. cbn [rbind].
  destruct (rmap item_entry items) as [kb1|e] eqn:E1; [|discriminate].
  cbn [rbind].
  destruct (section_elements data (lit "problems")) as [problems|e];
    [|discriminate]. cbn [rbind].
  destruct (rmap problem_entries problems) as [kb2|e] eqn:E2;
    [|discriminate]. cbn [rbind].
  intros H. inversion H. apply Forall_app. split.
  - eapply rmap_ok_forall; [|exact E1]. apply item_entry_shape.
  - apply Forall_concat. eapply rmap_ok_forall; [|exact E2].
    intros p ds. destruct p; try discriminate.
    unfold problem_entries. cbn [py_get rbind].
    destruct (split_into_chunks _) as [chunks|e]; [|discriminate].
    cbn [rbind]. apply rmap_ok_forall. apply chunk_entry_shape.
Qed.

(** X19.  In every state the loader can leave, each entry of the knowledge
    base has the fields id, title, topic, keywords, text and source, its
    keywords are a list of strings and its source is "items" or
    "problems"; and the UI global is the empty mapping or a true value,
    never [None] or another false value. *)
Theorem reachable_shape (st : state) :
  reachable st ->
  Forall entry_shape (KB st)
  /\ (UI st = VDict [] \/ truthy (UI st) = true).
Proof.
  induction 1 as [|w st st' r Hr [IHk IHu] Hl].
  - split; [constructor | now left].
  - pose proof (load_json_outcome w st) as O.
    destruct (getmtime w) as [mtime|e0].
    + destruct (Qeq_bool mtime (MTIME st)).
      * rewrite O in Hl. inversion Hl; subst. now split.
      * rewrite O in Hl. unfold reload in Hl.
        destruct (json_load w) as [data|e1];
          [|inversion Hl; subst; now split].
        destruct (py_get data (lit "ui") (VDict [])) as [ui|e2];
          [|inversion Hl; subst; now split].
        assert (Hui : py_or ui (VDict []) = VDict []
                      \/ truthy (py_or ui (VDict [])) = true).
        { unfold py_or. destruct (truthy ui) eqn:T; [now right | now left]. }
        destruct (parse_kb data) as [kb|e3] eqn:Ek;
          inversion Hl; subst; cbn [KB UI with_UI].
        -- split; [now apply parse_kb_shape with data | exact Hui].
        -- split; [exact IHk | exact Hui].
    + destruct e0; rewrite O in Hl; inversion Hl; subst;
        try (now split).
      split; [constructor | now left].
Qed.

End GlobalsShape.

Lemma tie_for_best_clarifies_witness :
  @chat example_repr example_fuzz
    {| getmtime := Ok 1%Q; json_load := Raise OSError |}
    dominant_query
    {| KB := [stale_entry; stale_entry]; UI := VDict []; MTIME := 1%Q |}
  = (Ok CLARIFY,
     {| KB := [stale_entry; stale_entry]; UI := VDict []; MTIME := 1%Q |}).
Proof.
  assert (He : @score_item example_repr example_fuzz
                 (lower (strip dominant_query)) stale_entry
               = Some (104%Q, stale_entry, 1%nat))
    by (vm_compute; reflexivity).
  apply (@tie_for_best_clarifies example_repr example_fuzz
           {| getmtime := Ok 1%Q; json_load := Raise OSError |}
           dominant_query
           {| KB := [stale_entry; stale_entry]; UI := VDict [];
              MTIME := 1%Q |}
           {| KB := [stale_entry; stale_entry]; UI := VDict [];
              MTIME := 1%Q |}
           [] [] [] stale_entry stale_entry
           (104%Q, stale_entry, 1%nat) (104%Q, stale_entry, 1%nat)).
  - reflexivity.
  - vm_compute. discriminate.
  - reflexivity.
  - exact He.
  - exact He.
  - intros it e [<-|[<-|[]]] H; rewrite He in H; inversion H;
      apply Qle_refl.
  - apply Qle_refl.
Defined.

Lemma reachable_shape_witness :
  @reachable example_repr untexted_state
  /\ Forall entry_shape (KB untexted_state)
  /\ (UI untexted_state = VDict [] \/ truthy (UI untexted_state) = true).
Proof.
  split; [exact untexted_state_reachable|].
  apply (@reachable_shape example_repr untexted_state).
  exact untexted_state_reachable.
Defined.
